(** * Def-use simplification of the P4 front end (frontends/p4/simplifyDefUse.cpp)

    A shallow embedding of the three classes of the file, [HasUses] (with its
    [SliceTracker]), the inspector [FindUninitialized] and the transform
    [RemoveUnused], followed by the properties established about them.

    IR nodes are identified by their address in the compiler; here every node
    carries a [NodeId] that plays the role of that address, so that
    comparisons of pointers become comparisons of identifiers and the set
    [used] is a set of identifiers. *)

From stdpp Require Import gmap list strings.
From Stdlib Require Import ZArith NArith String.

#[local] Set Warnings "-register-all".

(** ** The intermediate representation, as far as the pass inspects it *)

Definition NodeId := nat.

Inductive SourceInfo :=
| NoSourceInfo
| SourcePosition (file : string) (line : nat).

Inductive Direction := DirNone | DirIn | DirOut | DirInOut.

(** The type classes the pass tests with [is<...>()].  The classes are
    declared with the IR, outside the sources; there [Type_Void],
    [Type_Boolean], [Type_Bits] and [Type_Varbits] derive from [Type_Base]. *)
Inductive IRType :=
| Type_Void
| Type_Boolean
| Type_Bits (size : nat) (isSigned : bool)
| Type_Varbits (size : nat)
| Type_Header (name : string)
| Type_Struct (name : string)
| Type_Stack (elementType : IRType) (size : nat)
| Type_Method
| Type_Other (name : string).

Definition is_Type_Void (t : IRType) : bool :=
  match t with Type_Void => true | _ => false end.
Definition is_Type_Header (t : IRType) : bool :=
  match t with Type_Header _ => true | _ => false end.
Definition is_Type_Stack (t : IRType) : bool :=
  match t with Type_Stack _ _ => true | _ => false end.
Definition is_Type_Method (t : IRType) : bool :=
  match t with Type_Method => true | _ => false end.
Definition is_Type_Base (t : IRType) : bool :=
  match t with
  | Type_Void | Type_Boolean | Type_Bits _ _ | Type_Varbits _ => true
  | _ => false
  end.

Record IRParameter := {
  param_id : NodeId;
  param_name : string;
  direction : Direction
}.

(** Expressions.  [Member], [ArrayIndex], [Slice] and [Mux] are listed on
    their own because the inspector overloads [preorder] for them;
    [Operation_Unary] and [Operation_Binary] stand for the remaining
    operations; [OtherExpression] is any expression the inspector has no
    overload for and therefore only traverses. *)
Inductive Expression :=
| Constant (id : NodeId) (value : Z)
| Literal (id : NodeId)
| TypeNameExpression (id : NodeId) (typeName : string)
| PathExpression (id : NodeId) (path : string)
| Member (id : NodeId) (expr : Expression) (member : string)
| ArrayIndex (id : NodeId) (left right : Expression)
| Slice (id : NodeId) (e0 : Expression) (h l : N)
| MethodCallExpression (id : NodeId) (method : Expression)
    (arguments : list Expression)
| Mux (id : NodeId) (e0 e1 e2 : Expression)
| Operation_Unary (id : NodeId) (expr : Expression)
| Operation_Binary (id : NodeId) (left right : Expression)
| OtherExpression (id : NodeId) (children : list Expression).

Definition expr_id (e : Expression) : NodeId :=
  match e with
  | Constant id _ | Literal id | TypeNameExpression id _
  | PathExpression id _ | Member id _ _ | ArrayIndex id _ _
  | Slice id _ _ _ | MethodCallExpression id _ _ | Mux id _ _ _
  | Operation_Unary id _ | Operation_Binary id _ _
  | OtherExpression id _ => id
  end.

(** Pointer comparison of two expression nodes. *)
Definition same_expr (a b : Expression) : bool :=
  Nat.eqb (expr_id a) (expr_id b).

(** Statements and the declarations that occur in statement position
    ([Function] is found in the initializer block of an instance). *)
Inductive Statement :=
| AssignmentStatement (id : NodeId) (srcInfo : SourceInfo)
    (left right : Expression)
| ReturnStatement (id : NodeId) (expression : option Expression)
| ExitStatement (id : NodeId)
| MethodCallStatement (id : NodeId) (srcInfo : SourceInfo)
    (methodCall : Expression)
| BlockStatement (id : NodeId) (components : list Statement)
| IfStatement (id : NodeId) (condition : Expression) (ifTrue : Statement)
    (ifFalse : option Statement)
| SwitchStatement (id : NodeId) (expression : Expression)
    (cases : list SwitchCase)
| EmptyStatement (id : NodeId) (srcInfo : SourceInfo)
| Function (id : NodeId) (name : string) (returnType : IRType)
    (parameters : list IRParameter) (body : Statement)
with SwitchCase :=
| MkSwitchCase (id : NodeId) (label : Expression)
    (statement : option Statement).

Definition stmt_id (s : Statement) : NodeId :=
  match s with
  | AssignmentStatement id _ _ _ | ReturnStatement id _ | ExitStatement id
  | MethodCallStatement id _ _ | BlockStatement id _ | IfStatement id _ _ _
  | SwitchStatement id _ _ | EmptyStatement id _ | Function id _ _ _ _ => id
  end.

Definition case_id (c : SwitchCase) : NodeId :=
  match c with MkSwitchCase id _ _ => id end.

Record P4Action := {
  action_id : NodeId;
  action_name : string;
  action_parameters : list IRParameter;
  action_body : Statement
}.

Record KeyElement := {
  key_expression : Expression;
  key_matchType : Expression
}.

Record P4Table := {
  table_id : NodeId;
  table_name : string;
  table_key : option (list KeyElement);
  table_actionList : list Expression
}.

Record ParserState := {
  state_id : NodeId;
  state_name : string;
  state_components : list Statement;
  selectExpression : option Expression
}.

(** Local declarations of a parser or control. *)
Inductive Declaration :=
| Declaration_Instance (id : NodeId) (name : string)
    (initializer : option Statement)
| Declaration_Action (a : P4Action)
| Declaration_Table (t : P4Table)
| Declaration_Other (id : NodeId) (name : string).

Record P4Control := {
  control_id : NodeId;
  control_name : string;
  control_applyParameters : list IRParameter;
  controlLocals : list Declaration;
  control_body : Statement
}.

Record P4Parser := {
  parser_id : NodeId;
  parser_name : string;
  parser_applyParameters : list IRParameter;
  parserLocals : list Declaration;
  states : list ParserState
}.

(** Any IR node: what a program point and a visitor context refer to.  A
    [P4Program] is listed with its objects because the inspector, which has
    no overload for it, traverses them, and because the overload for
    actions looks for one among its ancestors. *)
Inductive Node :=
| NodeExpression (e : Expression)
| NodeStatement (s : Statement)
| NodeSwitchCase (c : SwitchCase)
| NodeParserState (s : ParserState)
| NodeP4Action (a : P4Action)
| NodeP4Table (t : P4Table)
| NodeP4Control (c : P4Control)
| NodeP4Parser (p : P4Parser)
| NodeP4Program (id : NodeId) (objects : list Node)
| NodeOther (id : NodeId).

Definition node_id (n : Node) : NodeId :=
  match n with
  | NodeExpression e => expr_id e
  | NodeStatement s => stmt_id s
  | NodeSwitchCase c => case_id c
  | NodeParserState s => state_id s
  | NodeP4Action a => action_id a
  | NodeP4Table t => table_id t
  | NodeP4Control c => control_id c
  | NodeP4Parser p => parser_id p
  | NodeP4Program id _ => id
  | NodeOther id => id
  end.

(** ** Program points

    [ProgramPoint] and [ProgramPoints] are declared in def_use.h, which is not
    among the sources; the pass builds points from a context and a node,
    asks for their last node and tests them for before-start. *)

(** Modelled from the spec: [ProgramPoint], a location in the IR augmented
    by a call-site context.  It is the stack of the nodes leading to it, a
    null node standing for the point after the last node. *)
Definition ProgramPoint := list (option Node).

(** Modelled from the spec: the before-start sentinel, [ProgramPoint()] and
    [ProgramPoint::beforeStart]; nothing has executed yet. *)
Definition beforeStart : ProgramPoint := [].

(** Modelled from the spec: [ProgramPoint(node)]. *)
Definition ProgramPoint_of (n : Node) : ProgramPoint := [Some n].

(** Modelled from the spec: [ProgramPoint(context, node)], the node below
    the call-site context. *)
Definition ProgramPoint_in (context : ProgramPoint) (n : Node) : ProgramPoint :=
  context ++ [Some n].

(** Modelled from the spec: [point.after()], the point after the unit at
    [point] has completed. *)
Definition after (p : ProgramPoint) : ProgramPoint := p ++ [None].

(** Modelled from the spec: [isBeforeStart()]. *)
Definition isBeforeStart (p : ProgramPoint) : bool :=
  match p with [] => true | _ => false end.

(** Modelled from the spec: [last()], the last IR node of the point, none
    before start. *)
Definition pp_last (p : ProgramPoint) : option Node := List.last p None.

(** Modelled from the spec: [ProgramPoints], a set of points. *)
Definition ProgramPoints := list ProgramPoint.

(** Modelled from the spec: [containsBeforeStart()]. *)
Definition containsBeforeStart (ps : ProgramPoints) : bool :=
  existsb isBeforeStart ps.

(** ** HasUses and its SliceTracker *)

Module SliceTracker.

Record t := {
  trackedSlice : option Expression;
  active : bool
}.

(** [SliceTracker()] and [SliceTracker(slice)]. *)
Definition default : t := {| trackedSlice := None; active := false |}.
Definition tracking (slice : Expression) : t :=
  {| trackedSlice := Some slice; active := true |}.

Definition isActive (tr : t) : bool := active tr.

Definition getH (slice : Expression) : N :=
  match slice with Slice _ _ h _ => h | _ => 0%N end.
Definition getL (slice : Expression) : N :=
  match slice with Slice _ _ _ l => l | _ => 0%N end.

Definition overwritesPrevious (tr : t) (previous : Expression) : bool :=
  match trackedSlice tr with
  | Some tracked =>
      if (getH previous <=? getH tracked)%N
         && (getL tracked <=? getL previous)%N
      then true else false
  | None => false
  end.

(** The main logic of the class.  For a point that is not before start and
    has no last node (an [after] point) the code dereferences the null node;
    the function answers [false] there, so it is the code only for the
    points that are before start or have a last node. *)
Definition overwrites (tr : t) (previous : ProgramPoint) : bool :=
  if negb (isActive tr) then false
  else if isBeforeStart previous then false
  else match pp_last previous with
       | Some (NodeStatement (AssignmentStatement _ _ (Slice sid e0 h l) _)) =>
           if overwritesPrevious tr (Slice sid e0 h l) then true else false
       | _ => false
       end.

End SliceTracker.

Record HasUses := {
  used : gset NodeId;
  tracker : SliceTracker.t
}.

Module HasUsesOps.

Definition empty : HasUses :=
  {| used := ∅; tracker := SliceTracker.default |}.

(** One iteration of the loop of [add]. *)
Definition add_point (hu : HasUses) (e : ProgramPoint) : HasUses :=
  if SliceTracker.overwrites (tracker hu) e then hu
  else match pp_last e with
       | Some last => {| used := {[ node_id last ]} ∪ used hu;
                         tracker := tracker hu |}
       | None => hu
       end.

Definition add (hu : HasUses) (points : ProgramPoints) : HasUses :=
  foldl add_point hu points.

Definition hasUses (hu : HasUses) (node : NodeId) : bool :=
  bool_decide (node ∈ used hu).

(** [None] is the failure of the BUG_CHECK. *)
Definition watchForOverwrites (hu : HasUses) (slice : Expression)
  : option HasUses :=
  if SliceTracker.isActive (tracker hu) then None
  else Some {| used := used hu; tracker := SliceTracker.tracking slice |}.

Definition doneWatching (hu : HasUses) : HasUses :=
  {| used := used hu; tracker := SliceTracker.default |}.

End HasUsesOps.

(** The loop of [HasUses::add] reaches its end unless the tracker is active
    and some point that is not before start has no last node, which
    [overwrites] dereferences.  [HasUsesOps.add] is the result of the loop
    when it does. *)
Definition add_returns (hu : HasUses) (points : ProgramPoints) : Prop :=
  SliceTracker.isActive (tracker hu) = true ->
  forall e, In e points -> isBeforeStart e = true \/ pp_last e <> None.

(** What [add] has to insert for [points] while the tracker is [tr]: the
    last nodes of the points the tracker does not skip. *)
Definition added (tr : SliceTracker.t) (points : ProgramPoints) (x : NodeId)
  : Prop :=
  exists e n, In e points /\ SliceTracker.overwrites tr e = false
              /\ pp_last e = Some n /\ node_id n = x.

(** ** Diagnostics

    [::warning] and [::error] append to the ambient diagnostics sink. *)

Inductive ErrorType :=
| ERR_INSUFFICIENT
| WARN_UNINITIALIZED
| WARN_UNINITIALIZED_USE
| WARN_UNINITIALIZED_OUT_PARAM.

Inductive Severity := SeverityError | SeverityWarning.

Inductive DiagArg :=
| ArgNode (id : NodeId)
| ArgName (name : string).

Record Diagnostic := {
  severity : Severity;
  errorType : ErrorType;
  format : string;
  args : list DiagArg
}.

Definition mk_warning (ty : ErrorType) (fmt : string) (a : list DiagArg)
  : Diagnostic :=
  {| severity := SeverityWarning; errorType := ty; format := fmt; args := a |}.

Definition mk_error (ty : ErrorType) (fmt : string) (a : list DiagArg)
  : Diagnostic :=
  {| severity := SeverityError; errorType := ty; format := fmt; args := a |}.

(** ** The external collaborators *)

(** What the [SideEffects] visitor exposes after it ran over an expression. *)
Record SideEffects := {
  nodeWithSideEffect : option Node;
  sideEffectCount : nat
}.

(** The flavours of [MethodInstance] the pass distinguishes. *)
Inductive MethodInstanceKind :=
| BuiltInMethod (name : string) (appliedTo : Expression)
| ActionCall (action : P4Action)
| ApplyMethod (object : Node)
| ExternMethod (mayCall : list Node)
| OtherMethodInstance.

(** [substitution] lists the parameters in argument order, each with the
    argument [lookup] returns for it. *)
Record MethodInstance := {
  kind : MethodInstanceKind;
  substitution : list (IRParameter * Expression)
}.

(** The names the pass compares against are constants of the IR classes,
    declared outside the sources. *)
Module Names.
(** Modelled from the spec: [IR::Type_Stack::push_front]. *)
Definition push_front : string := "push_front".
(** Modelled from the spec: [IR::Type_Stack::pop_front]. *)
Definition pop_front : string := "pop_front".
(** Modelled from the spec: [IR::Type_Header::isValid]. *)
Definition isValid : string := "isValid".
(** Modelled from the spec: [IR::Type_Stack::next]. *)
Definition next : string := "next".
(** Modelled from the spec: [IR::Type_Stack::last]. *)
Definition last : string := "last".
(** Modelled from the spec: [IR::Type_Stack::lastIndex]. *)
Definition lastIndex : string := "lastIndex".
(** Modelled from the spec: [IR::ParserState::accept]. *)
Definition accept : string := "accept".
(** Modelled from the spec: [IR::ParserState::reject]. *)
Definition reject : string := "reject".
End Names.

(** Location sets, storage, definitions, the reference and type maps, method
    resolution, the table-apply solver and the side-effect analysis are not
    part of the file: the pass is parameterised by them.  Lookups the pass
    performs with its [true] flag fail with an internal error when no entry
    exists, hence the [option] results of [getDeclaration] and [getType];
    [getDefinitions] with its [true] flag always returns definitions. *)
Record World := {
  LocationSet : Type;
  StorageLocation : Type;
  Definitions : Type;
  (* LocationSet *)
  LocationSet_empty : LocationSet;
  LocationSet_of : StorageLocation -> LocationSet;
  getField : LocationSet -> string -> LocationSet;
  getIndex : LocationSet -> Z -> LocationSet;
  getArrayLastIndex : LocationSet -> LocationSet;
  getValidField : LocationSet -> LocationSet;
  isEmpty : LocationSet -> bool;
  (* StorageLocation and StorageFactory *)
  storage_type : StorageLocation -> IRType;
  removeHeaders : StorageLocation -> LocationSet;
  validFieldName : string;
  (* Definitions and AllDefinitions *)
  getPoints : Definitions -> LocationSet -> ProgramPoints;
  isUnreachable : Definitions -> bool;
  joinDefinitions : Definitions -> Definitions -> Definitions;
  getDefinitions : ProgramPoint -> Definitions;
  (* StorageMap, ReferenceMap, TypeMap *)
  getStorage : NodeId -> option StorageLocation;
  getDeclaration : NodeId -> option NodeId;
  getType : NodeId -> option IRType;
  typeIsEmpty : IRType -> bool;
  (* MethodInstance::resolve, TableApplySolver, SideEffects *)
  resolve : Expression -> MethodInstance;
  isHit : Expression -> bool;
  isActionRun : Expression -> bool;
  sideEffects : Expression -> SideEffects;
  hasSideEffect : Expression -> bool
}.

(** ** Results of running compiler code

    [Bug] is a failed BUG_CHECK, BUG or CHECK_NULL; [OutOfFuel] belongs to
    the embedding only: the traversal is defined by recursion on a bound. *)
Inductive Result (A : Type) :=
| Ok (a : A)
| Bug (msg : string)
| OutOfFuel.

Arguments Ok {A} a.
Arguments Bug {A} msg.
Arguments OutOfFuel {A}.

(** ** FindUninitialized *)

Section FindUninitialized.

Variable W : World.

(** The fields of the inspector.  [hasUses] is the output shared with the
    callers; [diagnostics] is the ambient sink. *)
Record FindUninitialized := {
  context : ProgramPoint;
  lhs : bool;
  currentPoint : ProgramPoint;
  readLocations : gmap NodeId (LocationSet W);
  hasUses : HasUses;
  unreachable : bool;
  virtualMethod : bool;
  diagnostics : list Diagnostic
}.

Definition set_context (v : ProgramPoint) (st : FindUninitialized) :=
  {| context := v; lhs := lhs st; currentPoint := currentPoint st;
     readLocations := readLocations st; hasUses := hasUses st;
     unreachable := unreachable st; virtualMethod := virtualMethod st;
     diagnostics := diagnostics st |}.
Definition set_lhs (v : bool) (st : FindUninitialized) :=
  {| context := context st; lhs := v; currentPoint := currentPoint st;
     readLocations := readLocations st; hasUses := hasUses st;
     unreachable := unreachable st; virtualMethod := virtualMethod st;
     diagnostics := diagnostics st |}.
Definition set_currentPoint (v : ProgramPoint) (st : FindUninitialized) :=
  {| context := context st; lhs := lhs st; currentPoint := v;
     readLocations := readLocations st; hasUses := hasUses st;
     unreachable := unreachable st; virtualMethod := virtualMethod st;
     diagnostics := diagnostics st |}.
Definition set_readLocations (v : gmap NodeId (LocationSet W))
  (st : FindUninitialized) :=
  {| context := context st; lhs := lhs st; currentPoint := currentPoint st;
     readLocations := v; hasUses := hasUses st;
     unreachable := unreachable st; virtualMethod := virtualMethod st;
     diagnostics := diagnostics st |}.
Definition set_hasUses (v : HasUses) (st : FindUninitialized) :=
  {| context := context st; lhs := lhs st; currentPoint := currentPoint st;
     readLocations := readLocations st; hasUses := v;
     unreachable := unreachable st; virtualMethod := virtualMethod st;
     diagnostics := diagnostics st |}.
Definition set_unreachable (v : bool) (st : FindUninitialized) :=
  {| context := context st; lhs := lhs st; currentPoint := currentPoint st;
     readLocations := readLocations st; hasUses := hasUses st;
     unreachable := v; virtualMethod := virtualMethod st;
     diagnostics := diagnostics st |}.
Definition set_virtualMethod (v : bool) (st : FindUninitialized) :=
  {| context := context st; lhs := lhs st; currentPoint := currentPoint st;
     readLocations := readLocations st; hasUses := hasUses st;
     unreachable := unreachable st; virtualMethod := v;
     diagnostics := diagnostics st |}.
Definition set_diagnostics (v : list Diagnostic) (st : FindUninitialized) :=
  {| context := context st; lhs := lhs st; currentPoint := currentPoint st;
     readLocations := readLocations st; hasUses := hasUses st;
     unreachable := unreachable st; virtualMethod := virtualMethod st;
     diagnostics := v |}.

(** Code of the inspector: a state transformer that may fail. *)
Definition M (A : Type) : Type :=
  FindUninitialized -> Result (A * FindUninitialized).

Definition ret {A : Type} (a : A) : M A := fun st => Ok (a, st).

Definition bind {A B : Type} (c : M A) (k : A -> M B) : M B :=
  fun st =>
    match c st with
    | Ok (a, st') => k a st'
    | Bug msg => Bug msg
    | OutOfFuel => OutOfFuel
    end.

Definition bug {A : Type} (msg : string) : M A := fun _ => Bug msg.

Definition gets {A : Type} (f : FindUninitialized -> A) : M A :=
  fun st => Ok (f st, st).

Definition modify (f : FindUninitialized -> FindUninitialized) : M unit :=
  fun st => Ok (tt, f st).

Notation "x <- c1 ;; c2" := (bind c1 (fun x => c2))
  (at level 100, c1 at next level, right associativity).
Notation "c1 ;; c2" := (bind c1 (fun _ => c2))
  (at level 100, right associativity).

Definition when (b : bool) (c : M unit) : M unit :=
  if b then c else ret tt.

(** A loop over a vector, in order. *)
Fixpoint forM_ {A : Type} (xs : list A) (body : A -> M unit) : M unit :=
  match xs with
  | [] => ret tt
  | x :: xs' => body x ;; forM_ xs' body
  end.

Definition warning (ty : ErrorType) (fmt : string) (a : list DiagArg)
  : M unit :=
  modify (fun st => set_diagnostics (diagnostics st ++ [mk_warning ty fmt a]) st).

Definition error (ty : ErrorType) (fmt : string) (a : list DiagArg)
  : M unit :=
  modify (fun st => set_diagnostics (diagnostics st ++ [mk_error ty fmt a]) st).

(** The traversal the inspector is run by: [visit ctx n] visits [n] below the
    ancestors [ctx] (innermost first).  Inside a [preorder] for [n],
    [getContext()] is the context of the parent of [n], i.e. [ctx].  The
    inspector looks at its ancestors only to find a parent expression or an
    enclosing assignment, so the vectors, keys and key elements between a
    node and its children are not listed. *)
Definition Visit : Type := list Node -> Node -> M unit.

Definition getReads (expression : Expression) (nonNull : bool)
  : M (option (LocationSet W)) :=
  fun st =>
    match readLocations st !! expr_id expression with
    | Some result => Ok (Some result, st)
    | None =>
        if nonNull then Bug "no locations known for %1%"
        else Ok (None, st)
    end.

(** [getReads(e, true)], whose result is never null. *)
Definition getReadsNonNull (expression : Expression) : M (LocationSet W) :=
  r <- getReads expression true ;;
  match r with
  | Some loc => ret loc
  | None => bug "no locations known for %1%"
  end.

Definition reads (expression : Expression) (loc : LocationSet W) : M unit :=
  fun st =>
    if unreachable st
    then Bug "reached an unreachable expression in FindUninitialized"
    else Ok (tt, set_readLocations
                   (<[expr_id expression := loc]> (readLocations st)) st).

Definition setCurrent (statement : Statement) : M unit :=
  modify (fun st =>
    set_currentPoint (ProgramPoint_in (context st) (NodeStatement statement)) st).

Definition getCurrentDefinitions : M (Definitions W) :=
  gets (fun st => getDefinitions W (currentPoint st)).

Definition hasUses_add (points : ProgramPoints) : M unit :=
  modify (fun st => set_hasUses (HasUsesOps.add (hasUses st) points) st).


Definition isOutOrInOut (d : Direction) : bool :=
  match d with DirOut | DirInOut => true | _ => false end.

(** The body of the loop of [checkOutParameters] for the parameter [p]. *)
Definition checkOutParameter (block : string) (defs : Definitions W)
  (p : IRParameter) : M unit :=
  if isOutOrInOut (direction p) then
    match getStorage W (param_id p) with
    | None => ret tt
    | Some storage =>
        let loc := LocationSet_of W storage in
        let points := getPoints W defs loc in
        hasUses_add points ;;
        if typeIsEmpty W (storage_type W storage) then ret tt
        else
          (* Check uninitialized non-headers (headers can be invalid). *)
          let loc := removeHeaders W storage in
          let points := getPoints W defs loc in
          when (containsBeforeStart points)
            (warning WARN_UNINITIALIZED_OUT_PARAM
               "out parameter '%1%' may be uninitialized when '%2%' terminates"
               [ArgNode (param_id p); ArgName block])
    end
  else ret tt.

Definition checkOutParameters (block : string) (parameters : list IRParameter)
  (defs : Definitions W) : M unit :=
  forM_ parameters (checkOutParameter block defs).

(** Whether the expression is not the child of a [Member] or the left child
    of an [ArrayIndex]; [ctx] is the context of the parent. *)
Definition isFinalRead (ctx : list Node) (expression : Expression) : bool :=
  match ctx with
  | [] => true
  | node :: _ =>
      match node with
      | NodeExpression parentexp =>
          match parentexp with
          | Member _ _ _ => false
          | ArrayIndex _ ai_left _ =>
              if same_expr ai_left expression then false else true
          | _ => true
          end
      | _ => true
      end
  end.

Definition message_uninitialized : string := "%1% may be uninitialized".
Definition message_incomplete : string :=
  "%1% may not be completely initialized".

(** Keeps track of which expression producers have uses in the given
    expression. *)
Definition registerUses (ctx : list Node) (expression : Expression)
  (reportUninitialized : bool) : M unit :=
  if negb (isFinalRead ctx expression) then ret tt
  else
    currentDefinitions <- getCurrentDefinitions ;;
    if isUnreachable W currentDefinitions then ret tt
    else
      read <- getReads expression false ;;
      match read with
      | None => ret tt
      | Some read =>
          if isEmpty W read then ret tt
          else
            let points := getPoints W currentDefinitions read in
            isLhs <- gets lhs ;;
            when (reportUninitialized && negb isLhs
                  && containsBeforeStart points)
              (match getType W (expr_id expression) with
               | None => bug "Could not find type of %1%"
               | Some type =>
                   let message :=
                     if is_Type_Base type then message_uninitialized
                     else message_incomplete in
                   warning WARN_UNINITIALIZED_USE message
                     [ArgNode (expr_id expression)]
               end) ;;
            hasUses_add points
      end.

(** [checkHeaderFieldWrite(expr, parent)]: [expr] appears on the left of an
    assignment and [parent] is reached from it by descending through members,
    indexes and slices.  [ctx] is the context of the assignment being
    visited, in which [registerUses] runs.  Returns the location set of
    [parent]. *)
Fixpoint checkHeaderFieldWrite (ctx : list Node) (expr parent : Expression)
  : M (LocationSet W) :=
  loc <-
    match parent with
    | Member _ mem_expr member =>
        loc <- checkHeaderFieldWrite ctx expr mem_expr ;;
        ret (getField W loc member)
    | ArrayIndex _ ai_left ai_right =>
        loc <- checkHeaderFieldWrite ctx expr ai_left ;;
        match ai_right with
        | Constant _ index => ret (getIndex W loc index)
        | _ => ret loc (* let loc be the whole array *)
        end
    | PathExpression pe _ =>
        match getDeclaration W pe with
        | None => bug "Could not find declaration for %1%"
        | Some decl =>
            match getStorage W decl with
            | Some storage => ret (LocationSet_of W storage)
            | None => ret (LocationSet_empty W)
            end
        end
    | Slice _ e0 _ _ => checkHeaderFieldWrite ctx expr e0
    | _ => bug "%1%: unexpected expression on LHS"
    end ;;
  match getType W (expr_id parent) with
  | None => bug "Could not find type of %1%"
  | Some type =>
      if is_Type_Header type then
        if negb (same_expr expr parent) then
          (* Writing to an entire header (expr == parent) overwrites the
             valid bit as well, so it is not read. *)
          let loc := getValidField W loc in
          reads expr loc ;;
          registerUses ctx expr true ;;
          ret loc
        else ret loc
      else ret loc
  end.

(** *** Expressions *)

Definition preorder_Literal (expression : Expression) : M unit :=
  reads expression (LocationSet_empty W).

Definition preorder_TypeNameExpression (expression : Expression) : M unit :=
  reads expression (LocationSet_empty W).

Definition preorder_PathExpression (ctx : list Node) (expression : Expression)
  : M unit :=
  isLhs <- gets lhs ;;
  if isLhs then reads expression (LocationSet_empty W)
  else
    match getDeclaration W (expr_id expression) with
    | None => bug "Could not find declaration for %1%"
    | Some decl =>
        let result :=
          match getStorage W decl with
          | Some storage => LocationSet_of W storage
          | None => LocationSet_empty W
          end in
        reads expression result ;;
        registerUses ctx expression true
    end.

(** The inspector built for the analysis of a callee: it shares [hasUses]
    (and the diagnostics sink) with its parent and starts at the call. *)
Definition child_visitor (parent : FindUninitialized) (context : ProgramPoint)
  : FindUninitialized :=
  {| context := context; lhs := false; currentPoint := context;
     readLocations := ∅; hasUses := hasUses parent;
     unreachable := false; virtualMethod := false;
     diagnostics := diagnostics parent |}.

(** [node->apply(fu)]: [init_apply], then the traversal from the root. *)
Definition init_apply : M unit := modify (set_unreachable false).

Definition apply (visit : Visit) (root : Node) : M unit :=
  init_apply ;; visit [] root.

(** Runs [fu] over the callees and hands the shared parts back. *)
Definition analyzeCallees (visit : Visit) (callee : list Node)
  (pt : ProgramPoint) : M unit :=
  fun st =>
    match forM_ callee (apply visit) (child_visitor st pt) with
    | Ok (_, fu) =>
        Ok (tt, set_diagnostics (diagnostics fu) (set_hasUses (hasUses fu) st))
    | Bug msg => Bug msg
    | OutOfFuel => OutOfFuel
    end.

Definition callees (mi : MethodInstance) : list Node :=
  match kind mi with
  | ActionCall action => [NodeP4Action action]
  | ApplyMethod object =>
      match object with
      | NodeP4Table table => [NodeP4Table table]
      | _ => []
      end
  | ExternMethod mayCall => mayCall
  | _ => []
  end.

(** The part of [preorder(MethodCallExpression)] after the built-in methods:
    copy-in, the symbolic call, copy-out. *)
Definition callEffect (visit : Visit) (ctx : list Node)
  (expression : Expression) (mi : MethodInstance) : M unit :=
  let self := NodeExpression expression in
  forM_ (substitution mi) (fun pe =>
    when (negb (match direction (fst pe) with DirOut => true | _ => false end))
      (visit (self :: ctx) (NodeExpression (snd pe)))) ;;
  let callee := callees mi in
  when (negb (match callee with [] => true | _ => false end))
    (context <- gets context ;;
     analyzeCallees visit callee (ProgramPoint_in context self)) ;;
  forM_ (substitution mi) (fun pe =>
    when (isOutOrInOut (direction (fst pe)))
      (save <- gets lhs ;;
       modify (set_lhs true) ;;
       visit (self :: ctx) (NodeExpression (snd pe)) ;;
       modify (set_lhs save))) ;;
  reads expression (LocationSet_empty W).

Definition preorder_MethodCallExpression (visit : Visit) (ctx : list Node)
  (expression method : Expression) : M unit :=
  visit (NodeExpression expression :: ctx) (NodeExpression method) ;;
  let mi := resolve W expression in
  match kind mi with
  | BuiltInMethod name appliedTo =>
      base <- getReadsNonNull appliedTo ;;
      if String.eqb name Names.push_front || String.eqb name Names.pop_front
      then
        (* Reads all array fields *)
        reads expression base ;;
        registerUses ctx expression false
      else if String.eqb name Names.isValid then
        let storage := getField W base (validFieldName W) in
        reads expression storage ;;
        registerUses ctx expression true
      else callEffect visit ctx expression mi
  | _ => callEffect visit ctx expression mi
  end.

Definition preorder_Member (visit : Visit) (ctx : list Node)
  (expression expr : Expression) (member : string) : M unit :=
  visit (NodeExpression expression :: ctx) (NodeExpression expr) ;;
  match expr with
  | TypeNameExpression _ _ =>
      (* this is a constant *)
      reads expression (LocationSet_empty W)
  | _ =>
      if isHit W expression || isActionRun W expression then ret tt
      else
        match getType W (expr_id expression) with
        | None => bug "Could not find type of %1%"
        | Some type =>
            if is_Type_Method type then ret tt (* dealt within the parent *)
            else
              storage <- getReadsNonNull expr ;;
              match getType W (expr_id expr) with
              | None => bug "Could not find type of %1%"
              | Some basetype =>
                  if is_Type_Stack basetype
                     && (String.eqb member Names.next
                         || String.eqb member Names.last)
                  then
                    reads expression storage ;;
                    registerUses ctx expression false ;;
                    isLhs <- gets lhs ;;
                    when (negb isLhs && String.eqb member Names.next)
                      (warning WARN_UNINITIALIZED
                         "%1%: reading uninitialized value"
                         [ArgNode (expr_id expression)])
                  else if is_Type_Stack basetype
                          && String.eqb member Names.lastIndex
                  then
                    let index := getArrayLastIndex W storage in
                    reads expression index ;;
                    registerUses ctx expression false
                  else
                    let fields := getField W storage member in
                    reads expression fields ;;
                    registerUses ctx expression true
              end
        end
  end.

(** [findContext<IR::AssignmentStatement>()]: the innermost enclosing
    assignment among the ancestors. *)
Fixpoint findContext_AssignmentStatement (ctx : list Node) : option Statement :=
  match ctx with
  | [] => None
  | NodeStatement (AssignmentStatement id si l r) :: _ =>
      Some (AssignmentStatement id si l r)
  | _ :: ctx' => findContext_AssignmentStatement ctx'
  end.

Definition watchForOverwrites (slice : Expression) : M unit :=
  fun st =>
    match HasUsesOps.watchForOverwrites (hasUses st) slice with
    | Some hu => Ok (tt, set_hasUses hu st)
    | None => Bug "Call to SliceTracker, but it's already active"
    end.

Definition doneWatching : M unit :=
  modify (fun st => set_hasUses (HasUsesOps.doneWatching (hasUses st)) st).

Definition preorder_Slice (visit : Visit) (ctx : list Node)
  (expression e0 : Expression) : M unit :=
  let slice_stmt := findContext_AssignmentStatement ctx in
  isLhs <- gets lhs ;;
  when (match slice_stmt with Some _ => true | None => false end && isLhs)
    (* track this slice statement *)
    (watchForOverwrites expression) ;;
  save <- gets lhs ;;
  modify (set_lhs false) ;; (* slices on the LHS also read the data *)
  visit (NodeExpression expression :: ctx) (NodeExpression e0) ;;
  storage <- getReadsNonNull e0 ;;
  reads expression storage ;; (* true even in LHS *)
  registerUses ctx expression true ;;
  modify (set_lhs save) ;;
  doneWatching.

Definition otherExpression (ctx : list Node) (expression : Expression)
  : M unit :=
  isLhs <- gets lhs ;;
  if isLhs then bug "%1%: unexpected operation on LHS"
  else
    reads expression (LocationSet_empty W) ;;
    registerUses ctx expression true.

Definition preorder_ArrayIndex (visit : Visit) (ctx : list Node)
  (expression ai_left ai_right : Expression) : M unit :=
  let self := NodeExpression expression in
  match ai_right with
  | Constant _ index =>
      isLhs <- gets lhs ;;
      if isLhs then reads expression (LocationSet_empty W)
      else
        visit (self :: ctx) (NodeExpression ai_left) ;;
        storage <- getReadsNonNull ai_left ;;
        let result := getIndex W storage index in
        reads expression result
  | _ =>
      (* We model a write with an unknown index as a read/write to the
         whole array. *)
      save <- gets lhs ;;
      modify (set_lhs false) ;;
      visit (self :: ctx) (NodeExpression ai_right) ;;
      visit (self :: ctx) (NodeExpression ai_left) ;;
      storage <- getReadsNonNull ai_left ;;
      modify (set_lhs save) ;;
      reads expression storage
  end ;;
  registerUses ctx expression true.

(** The traversal of the children of a node the inspector does not prune. *)
Definition visit_children (visit : Visit) (ctx : list Node) (self : Node)
  (children : list Expression) : M unit :=
  forM_ children (fun c => visit (self :: ctx) (NodeExpression c)).

(** [Mux], [Operation_Unary], [Operation_Binary]: the children, then
    [postorder]. *)
Definition visit_operation (visit : Visit) (ctx : list Node)
  (expression : Expression) (children : list Expression) : M unit :=
  visit_children visit ctx (NodeExpression expression) children ;;
  otherExpression ctx expression.

Definition visit_Expression (visit : Visit) (ctx : list Node)
  (e : Expression) : M unit :=
  match e with
  | Constant _ _ | Literal _ => preorder_Literal e
  | TypeNameExpression _ _ => preorder_TypeNameExpression e
  | PathExpression _ _ => preorder_PathExpression ctx e
  | Member _ expr member => preorder_Member visit ctx e expr member
  | ArrayIndex _ ai_left ai_right =>
      preorder_ArrayIndex visit ctx e ai_left ai_right
  | Slice _ e0 _ _ => preorder_Slice visit ctx e e0
  | MethodCallExpression _ method _ =>
      preorder_MethodCallExpression visit ctx e method
  | Mux _ e0 e1 e2 => visit_operation visit ctx e [e0; e1; e2]
  | Operation_Unary _ expr => visit_operation visit ctx e [expr]
  | Operation_Binary _ b_left b_right =>
      visit_operation visit ctx e [b_left; b_right]
  | OtherExpression _ children =>
      visit_children visit ctx (NodeExpression e) children
  end.

(** *** Statements *)

Definition preorder_AssignmentStatement (visit : Visit) (ctx : list Node)
  (statement : Statement) (a_left a_right : Expression) : M unit :=
  let self := NodeStatement statement in
  isUnreachable <- gets unreachable ;;
  when (negb isUnreachable)
    (modify (set_lhs true) ;;
     visit (self :: ctx) (NodeExpression a_left) ;;
     _ <- checkHeaderFieldWrite ctx a_left a_left ;;
     modify (set_lhs false) ;;
     visit (self :: ctx) (NodeExpression a_right)) ;;
  setCurrent statement.

Definition preorder_ReturnStatement (visit : Visit) (ctx : list Node)
  (statement : Statement) (expression : option Expression) : M unit :=
  isUnreachable <- gets unreachable ;;
  match expression with
  | Some e =>
      when (negb isUnreachable)
        (visit (NodeStatement statement :: ctx) (NodeExpression e))
  | None => ret tt
  end ;;
  modify (set_unreachable true) ;;
  setCurrent statement.

Definition preorder_ExitStatement (statement : Statement) : M unit :=
  modify (set_unreachable true) ;;
  setCurrent statement.

Definition preorder_MethodCallStatement (visit : Visit) (ctx : list Node)
  (statement : Statement) (methodCall : Expression) : M unit :=
  isUnreachable <- gets unreachable ;;
  when (negb isUnreachable)
    (visit (NodeStatement statement :: ctx) (NodeExpression methodCall)) ;;
  setCurrent statement.

Definition preorder_BlockStatement (visit : Visit) (ctx : list Node)
  (statement : Statement) (components : list Statement) : M unit :=
  isUnreachable <- gets unreachable ;;
  when (negb isUnreachable)
    (forM_ components (fun c =>
       visit (NodeStatement statement :: ctx) (NodeStatement c))) ;;
  setCurrent statement.

Definition preorder_IfStatement (visit : Visit) (ctx : list Node)
  (statement : Statement) (condition : Expression) (ifTrue : Statement)
  (ifFalse : option Statement) : M unit :=
  let self := NodeStatement statement in
  isUnreachable <- gets unreachable ;;
  when (negb isUnreachable)
    (visit (self :: ctx) (NodeExpression condition) ;;
     context <- gets context ;;
     modify (set_currentPoint
               (ProgramPoint_in context (NodeExpression condition))) ;;
     saveCurrent <- gets currentPoint ;;
     saveUnreachable <- gets unreachable ;;
     visit (self :: ctx) (NodeStatement ifTrue) ;;
     unreachableAfterThen <- gets unreachable ;;
     modify (set_unreachable saveUnreachable) ;;
     match ifFalse with
     | Some s =>
         modify (set_currentPoint saveCurrent) ;;
         visit (self :: ctx) (NodeStatement s)
     | None => ret tt
     end ;;
     u <- gets unreachable ;;
     modify (set_unreachable (unreachableAfterThen && u))) ;;
  setCurrent statement.

(** The loop over the cases of a switch; returns [finalUnreachable]. *)
Fixpoint switchCases (visit : Visit) (ctx : list Node) (self : Node)
  (saveCurrent : ProgramPoint) (saveUnreachable : bool)
  (cases : list SwitchCase) (finalUnreachable : bool) : M bool :=
  match cases with
  | [] => ret finalUnreachable
  | c :: cases' =>
      match c with
      | MkSwitchCase _ _ (Some _) =>
          modify (set_currentPoint saveCurrent) ;;
          modify (set_unreachable saveUnreachable) ;;
          visit (self :: ctx) (NodeSwitchCase c) ;;
          u <- gets unreachable ;;
          switchCases visit ctx self saveCurrent saveUnreachable cases'
            (finalUnreachable && u)
      | MkSwitchCase _ _ None =>
          switchCases visit ctx self saveCurrent saveUnreachable cases'
            finalUnreachable
      end
  end.

Definition preorder_SwitchStatement (visit : Visit) (ctx : list Node)
  (statement : Statement) (expression : Expression)
  (cases : list SwitchCase) : M unit :=
  let self := NodeStatement statement in
  isUnreachable <- gets unreachable ;;
  when (negb isUnreachable)
    (visit (self :: ctx) (NodeExpression expression) ;;
     context <- gets context ;;
     modify (set_currentPoint
               (ProgramPoint_in context (NodeExpression expression))) ;;
     saveCurrent <- gets currentPoint ;;
     saveUnreachable <- gets unreachable ;;
     finalUnreachable <-
       switchCases visit ctx self saveCurrent saveUnreachable cases true ;;
     modify (set_unreachable finalUnreachable)) ;;
  setCurrent statement.

(** A switch case has no overload: its label, then its statement. *)
Definition visit_SwitchCase (visit : Visit) (ctx : list Node)
  (c : SwitchCase) : M unit :=
  match c with
  | MkSwitchCase _ label statement =>
      visit (NodeSwitchCase c :: ctx) (NodeExpression label) ;;
      match statement with
      | Some s => visit (NodeSwitchCase c :: ctx) (NodeStatement s)
      | None => ret tt
      end
  end.

Definition preorder_Function (visit : Visit) (ctx : list Node)
  (func : Statement) (name : string) (returnType : IRType)
  (parameters : list IRParameter) (body : Statement) : M unit :=
  isVirtual <- gets virtualMethod ;;
  when isVirtual
    (modify (set_context beforeStart) ;;
     modify (set_unreachable false)) ;;
  context <- gets context ;;
  let point := ProgramPoint_in context (NodeStatement func) in
  modify (set_currentPoint point) ;;
  visit (NodeStatement func :: ctx) (NodeStatement body) ;;
  let checkReturn := negb (is_Type_Void returnType) in
  when checkReturn
    (defs <- getCurrentDefinitions ;;
     (* The definitions after the body of the function should contain
        "unreachable", otherwise we have not executed a 'return' on all
        possible paths. *)
     when (negb (isUnreachable W defs))
       (error ERR_INSUFFICIENT
          "Function '%1%' does not return a value on all paths"
          [ArgNode (stmt_id func)])) ;;
  modify (set_currentPoint (after point)) ;;
  (* The out parameters are checked with the definitions produced after the
     function has completed. *)
  current <- getCurrentDefinitions ;;
  checkOutParameters name parameters current.

Definition visit_Statement (visit : Visit) (ctx : list Node) (s : Statement)
  : M unit :=
  match s with
  | AssignmentStatement _ _ a_left a_right =>
      preorder_AssignmentStatement visit ctx s a_left a_right
  | ReturnStatement _ expression =>
      preorder_ReturnStatement visit ctx s expression
  | ExitStatement _ => preorder_ExitStatement s
  | MethodCallStatement _ _ methodCall =>
      preorder_MethodCallStatement visit ctx s methodCall
  | BlockStatement _ components =>
      preorder_BlockStatement visit ctx s components
  | IfStatement _ condition ifTrue ifFalse =>
      preorder_IfStatement visit ctx s condition ifTrue ifFalse
  | SwitchStatement _ expression cases =>
      preorder_SwitchStatement visit ctx s expression cases
  | EmptyStatement _ _ => ret tt
  | Function _ name returnType parameters body =>
      preorder_Function visit ctx s name returnType parameters body
  end.

(** *** Parsers, controls, actions and tables *)

Definition preorder_ParserState (visit : Visit) (ctx : list Node)
  (state : ParserState) : M unit :=
  let self := NodeParserState state in
  modify (set_context (ProgramPoint_of self)) ;;
  (* point before the first statement *)
  modify (set_currentPoint (ProgramPoint_of self)) ;;
  forM_ (state_components state) (fun c =>
    visit (self :: ctx) (NodeStatement c)) ;;
  match selectExpression state with
  | Some e => visit (self :: ctx) (NodeExpression e)
  | None => ret tt
  end ;;
  modify (set_context beforeStart).

(** Virtual methods are visited proactively once, as if they were top-level
    functions, with the [virtualMethod] flag set. *)
Definition visitVirtualMethods (visit : Visit) (ctx : list Node) (self : Node)
  (locals : list Declaration) : M unit :=
  saveContext <- gets context ;;
  forM_ locals (fun l =>
    match l with
    | Declaration_Instance _ _ (Some initializer) =>
        modify (set_virtualMethod true) ;;
        visit (self :: ctx) (NodeStatement initializer) ;;
        modify (set_virtualMethod false)
    | _ => ret tt
    end) ;;
  modify (set_context saveContext).

Definition preorder_P4Control (visit : Visit) (ctx : list Node)
  (control : P4Control) : M unit :=
  let self := NodeP4Control control in
  context <- gets context ;;
  if negb (isBeforeStart context)
  then bug "non-empty context in FindUnitialized::P4Control"
  else
    modify (set_currentPoint (ProgramPoint_of self)) ;;
    visitVirtualMethods visit ctx self (controlLocals control) ;;
    modify (set_unreachable false) ;;
    visit (self :: ctx) (NodeStatement (control_body control)) ;;
    defs <- getCurrentDefinitions ;;
    checkOutParameters (control_name control)
      (control_applyParameters control) defs.

(** [parser->getDeclByName(name)] for the name of a state. *)
Definition getDeclByName (parser : P4Parser) (name : string)
  : option ParserState :=
  List.find (fun s => String.eqb (state_name s) name) (states parser).

Definition preorder_P4Parser (visit : Visit) (ctx : list Node)
  (parser : P4Parser) : M unit :=
  let self := NodeP4Parser parser in
  modify (set_currentPoint (ProgramPoint_of self)) ;;
  visitVirtualMethods visit ctx self (parserLocals parser) ;;
  forM_ (states parser) (fun s => visit (self :: ctx) (NodeParserState s)) ;;
  modify (set_unreachable false) ;;
  match getDeclByName parser Names.accept, getDeclByName parser Names.reject with
  | Some acceptState, Some rejectState =>
      let accept := ProgramPoint_of (NodeParserState acceptState) in
      let acceptdefs := getDefinitions W accept in
      let reject := ProgramPoint_of (NodeParserState rejectState) in
      let rejectdefs := getDefinitions W reject in
      let outputDefs := joinDefinitions W acceptdefs rejectdefs in
      checkOutParameters (parser_name parser)
        (parser_applyParameters parser) outputDefs
  | _, _ => bug "null declaration"
  end.

(** [findContext<IR::P4Program>() != nullptr]: whether a program is among
    the ancestors. *)
Definition findContext_P4Program (ctx : list Node) : bool :=
  existsb (fun n => match n with NodeP4Program _ _ => true | _ => false end)
    ctx.

(** An action is analysed from its calls, never as a declaration met on the
    way down from a program. *)
Definition preorder_P4Action (visit : Visit) (ctx : list Node)
  (action : P4Action) : M unit :=
  let self := NodeP4Action action in
  if findContext_P4Program ctx then bug "Unexpected action"
  else
  modify (set_unreachable false) ;;
  context <- gets context ;;
  modify (set_currentPoint (ProgramPoint_in context self)) ;;
  visit (self :: ctx) (NodeStatement (action_body action)) ;;
  defs <- getCurrentDefinitions ;;
  checkOutParameters (action_name action) (action_parameters action) defs.

Definition preorder_P4Table (visit : Visit) (ctx : list Node)
  (table : P4Table) : M unit :=
  let self := NodeP4Table table in
  context <- gets context ;;
  let savePoint := ProgramPoint_in context self in
  modify (set_currentPoint savePoint) ;;
  match table_key table with
  | Some key =>
      forM_ key (fun ke =>
        visit (self :: ctx) (NodeExpression (key_expression ke)) ;;
        visit (self :: ctx) (NodeExpression (key_matchType ke)))
  | None => ret tt
  end ;;
  forM_ (table_actionList table) (fun ale =>
    match ale with
    | MethodCallExpression _ _ _ =>
        visit (self :: ctx) (NodeExpression ale) ;;
        (* restore the current point: it is modified by the
           inter-procedural analysis *)
        modify (set_currentPoint savePoint)
    | _ => bug "%1%: unexpected entry in action list"
    end).

(** One step of the traversal: the overload for the node, given the
    traversal of what lies below. *)
Definition visit_Node (visit : Visit) (ctx : list Node) (n : Node) : M unit :=
  match n with
  | NodeExpression e => visit_Expression visit ctx e
  | NodeStatement s => visit_Statement visit ctx s
  | NodeSwitchCase c => visit_SwitchCase visit ctx c
  | NodeParserState s => preorder_ParserState visit ctx s
  | NodeP4Action a => preorder_P4Action visit ctx a
  | NodeP4Table t => preorder_P4Table visit ctx t
  | NodeP4Control c => preorder_P4Control visit ctx c
  | NodeP4Parser p => preorder_P4Parser visit ctx p
  | NodeP4Program _ objects => forM_ objects (fun o => visit (n :: ctx) o)
  | NodeOther _ => ret tt
  end.

(** The traversal, bounded by [fuel]: callees are reached through the method
    instance and not through the tree, so the recursion is not structural. *)
Fixpoint visit (fuel : nat) (ctx : list Node) (n : Node) {struct fuel}
  : M unit :=
  match fuel with
  | O => fun _ => OutOfFuel
  | S fuel' => visit_Node (visit fuel') ctx n
  end.

(** The inspector as [ProcessDefUse] builds it, and its run over a root. *)
Definition initial (hu : HasUses) : FindUninitialized :=
  {| context := beforeStart; lhs := false; currentPoint := beforeStart;
     readLocations := ∅; hasUses := hu; unreachable := false;
     virtualMethod := false; diagnostics := [] |}.

Definition run (fuel : nat) (root : Node) (hu : HasUses)
  : Result (unit * FindUninitialized) :=
  apply (visit fuel) root (initial hu).

End FindUninitialized.

Arguments ret {W A} a.
Arguments bind {W A B} c k.
Arguments bug {W A} msg.
Arguments gets {W A} f.
Arguments modify {W} f.
Arguments when {W} b c.
Arguments forM_ {W A} xs body.

(** ** RemoveUnused

    The transform runs bottom-up; [postorder] receives the node being rebuilt
    ([statement]) while [getOriginal()] is the node the traversal started
    from, under whose address [HasUses] was filled.  [fresh] is the address
    of the node [new] allocates. *)

Module RemoveUnused.
Section RemoveUnused.

Variable W : World.

Definition postorder_AssignmentStatement (hasUses : HasUses)
  (original : Node) (statement : Statement) (fresh : NodeId)
  : Result Statement :=
  match statement with
  | AssignmentStatement _ srcInfo _ a_right =>
      if negb (HasUsesOps.hasUses hasUses (node_id original)) then
        let se := sideEffects W a_right in
        match nodeWithSideEffect se with
        | Some node =>
            (* We expect that at this point there can't be more than 1
               method call expression in each statement. *)
            if negb (Nat.eqb (sideEffectCount se) 1)
            then Bug "%1%: too many side-effect in one expression"
            else
              match node with
              | NodeExpression (MethodCallExpression mid method arguments) =>
                  Ok (MethodCallStatement fresh srcInfo
                        (MethodCallExpression mid method arguments))
              | _ => Bug "%1%: expected method call"
              end
        | None =>
            (* removing *)
            Ok (EmptyStatement fresh NoSourceInfo)
        end
      else Ok statement
  | _ => Ok statement
  end.

Definition postorder_MethodCallStatement (hasUses : HasUses)
  (original : Node) (mcs : Statement) (fresh : NodeId) : Result Statement :=
  match mcs with
  | MethodCallStatement _ _ methodCall =>
      if negb (HasUsesOps.hasUses hasUses (node_id original)) then
        if hasSideEffect W methodCall then Ok mcs
        else Ok (EmptyStatement fresh NoSourceInfo)
      else Ok mcs
  | _ => Ok mcs
  end.

End RemoveUnused.
End RemoveUnused.

(** ** A small instance of the collaborators

    Used to run the pass on concrete programs.  A location set is the list of
    the names of its locations; definitions map location names to the points
    that wrote them. *)

Module Demo.

Fixpoint assoc {A : Type} (k : NodeId) (l : list (NodeId * A)) : option A :=
  match l with
  | [] => None
  | (k', v) :: l' => if Nat.eqb k k' then Some v else assoc k l'
  end.

Record Defs := {
  d_unreachable : bool;
  d_points : list (string * ProgramPoints)
}.

Definition pointsOf (d : Defs) (name : string) : ProgramPoints :=
  flat_map (fun e => if String.eqb (fst e) name then snd e else [])
    (d_points d).

Definition join (a b : Defs) : Defs :=
  if d_unreachable b then a
  else if d_unreachable a then b
  else {| d_unreachable := false; d_points := d_points a ++ d_points b |}.

Definition suffix (s : string) (ls : list string) : list string :=
  map (fun l => String.append l s) ls.

Definition world
  (types : list (NodeId * IRType))
  (decls : list (NodeId * NodeId))
  (storages : list (NodeId * (string * IRType)))
  (defsAt : ProgramPoint -> Defs)
  (res : Expression -> MethodInstance)
  (se : Expression -> SideEffects) : World :=
  {| LocationSet := list string;
     StorageLocation := string * IRType;
     Definitions := Defs;
     LocationSet_empty := [];
     LocationSet_of := fun s => [fst s];
     getField := fun ls f => suffix (String.append "." f) ls;
     getIndex := fun ls _ => suffix "[]" ls;
     getArrayLastIndex := suffix ".$lastIndex";
     getValidField := suffix ".$valid";
     isEmpty := fun ls => match ls with [] => true | _ => false end;
     storage_type := snd;
     removeHeaders := fun s => if is_Type_Header (snd s) then [] else [fst s];
     validFieldName := "$valid";
     getPoints := fun d ls => flat_map (pointsOf d) ls;
     isUnreachable := d_unreachable;
     joinDefinitions := join;
     getDefinitions := defsAt;
     getStorage := fun k => assoc k storages;
     getDeclaration := fun k => assoc k decls;
     getType := fun k => assoc k types;
     typeIsEmpty := fun t =>
       match t with
       | Type_Bits 0 _ | Type_Varbits 0 => true
       | _ => false
       end;
     resolve := res;
     isHit := fun _ => false;
     isActionRun := fun _ => false;
     sideEffects := se;
     hasSideEffect := fun e =>
       match nodeWithSideEffect (se e) with Some _ => true | None => false end
  |}.

Definition noCall (_ : Expression) : MethodInstance :=
  {| kind := OtherMethodInstance; substitution := [] |}.

Definition pure (_ : Expression) : SideEffects :=
  {| nodeWithSideEffect := None; sideEffectCount := 0 |}.

Definition reachable (points : list (string * ProgramPoints)) : Defs :=
  {| d_unreachable := false; d_points := points |}.

End Demo.

(** ** Concrete programs the properties are run on *)

Module RegisterUsesExample.
Definition W : World :=
  Demo.world [(1, Type_Bits 8 false)] [(1, 10)]
    [(10, ("x", Type_Bits 8 false))]
    (fun _ => Demo.reachable [("x", [beforeStart; [Some (NodeOther 9)]])])
    Demo.noCall Demo.pure.
Definition x : Expression := PathExpression 1 "x".
Definition st : FindUninitialized W :=
  set_readLocations W (<[1 := ["x"]]> ∅) (initial W HasUsesOps.empty).
End RegisterUsesExample.

(** An out parameter [x] of type [bit<0>] and an out parameter [y] of type
    [bit<8>], written at the nodes 7 and 8 on one path and not at all on
    another when the block terminates. *)
Module OutParamExample.
Definition W : World :=
  Demo.world [] []
    [(5, ("x", Type_Bits 0 false)); (6, ("y", Type_Bits 8 false))]
    (fun _ => Demo.reachable
                [("x", [beforeStart; [Some (NodeOther 7)]]);
                 ("y", [beforeStart; [Some (NodeOther 8)]])])
    Demo.noCall Demo.pure.
Definition px : IRParameter :=
  {| param_id := 5; param_name := "x"; direction := DirOut |}.
Definition py : IRParameter :=
  {| param_id := 6; param_name := "y"; direction := DirOut |}.
Definition defs : Definitions W := getDefinitions W beforeStart.
Definition st : FindUninitialized W := initial W HasUsesOps.empty.
End OutParamExample.

(** ** Vocabulary of the statements *)

Definition outParamWarning (block : string) (p : IRParameter) : Diagnostic :=
  mk_warning WARN_UNINITIALIZED_OUT_PARAM
    "out parameter '%1%' may be uninitialized when '%2%' terminates"
    [ArgNode (param_id p); ArgName block].

(** The diagnostics a computation appends to the sink when run from [st]. *)
Definition emitted {W : World} {A : Type} (c : M W A)
  (st : FindUninitialized W) (ds : list Diagnostic) : Prop :=
  exists a st', c st = Ok (a, st')
                /\ diagnostics W st' = diagnostics W st ++ ds.

(** The warnings [checkOutParameters] owes to the parameter [p]. *)
Definition outParamWarnings (W : World) (block : string)
  (defs : Definitions W) (p : IRParameter) : list Diagnostic :=
  if isOutOrInOut (direction p) then
    match getStorage W (param_id p) with
    | Some storage =>
        if negb (typeIsEmpty W (storage_type W storage))
           && containsBeforeStart (getPoints W defs (removeHeaders W storage))
        then [outParamWarning block p]
        else []
    | None => []
    end
  else [].

(** The uses [checkOutParameters] records for the parameter [p]. *)
Definition outParamUses (W : World) (defs : Definitions W) (hu : HasUses)
  (p : IRParameter) : HasUses :=
  if isOutOrInOut (direction p) then
    match getStorage W (param_id p) with
    | Some storage =>
        HasUsesOps.add hu (getPoints W defs (LocationSet_of W storage))
    | None => hu
    end
  else hu.

(** The out-parameter warning as the specification words it (C3): it is
    emitted if and only if the points reaching the storage without its
    headers contain before-start. *)
Definition out_param_warning_as_stated (W : World) (block : string)
  (defs : Definitions W) (p : IRParameter) (st : FindUninitialized W)
  : Prop :=
  forall storage,
    isOutOrInOut (direction p) = true ->
    getStorage W (param_id p) = Some storage ->
    exists ds,
      emitted (checkOutParameter W block defs p) st ds
      /\ (In (outParamWarning block p) ds <->
          containsBeforeStart
            (getPoints W defs (removeHeaders W storage)) = true).

(** [x = f();] with [f] side-effecting, and [x = 1;]. *)
Module DeadCallExample.
Definition call : Expression := MethodCallExpression 3 (PathExpression 2 "f") [].
Definition assign : Statement :=
  AssignmentStatement 4 (SourcePosition "t.p4" 7) (PathExpression 1 "x") call.
Definition dead : Statement :=
  AssignmentStatement 6 NoSourceInfo (PathExpression 1 "x") (Constant 5 1).
Definition W : World :=
  Demo.world [] [] []
    (fun _ => Demo.reachable [])
    Demo.noCall
    (fun e =>
       match e with
       | MethodCallExpression _ _ _ =>
           {| nodeWithSideEffect := Some (NodeExpression e);
              sideEffectCount := 1 |}
       | _ => Demo.pure e
       end).
End DeadCallExample.

(** The error of a function that may fall off its end. *)
Definition insufficientReturn (func : NodeId) : Diagnostic :=
  mk_error ERR_INSUFFICIENT
    "Function '%1%' does not return a value on all paths" [ArgNode func].

(** The state in which [preorder(Function)] visits the body. *)
Definition Function_entry (W : World) (func : Statement)
  (st : FindUninitialized W) : FindUninitialized W :=
  let st0 :=
    if virtualMethod W st
    then set_unreachable W false (set_context W beforeStart st)
    else st in
  set_currentPoint W (ProgramPoint_in (context W st0) (NodeStatement func)) st0.

(** [bit<8> g() { if (c) return 1; }]: a path falls off the end. *)
Module MissingReturnExample.
Definition body : Statement :=
  BlockStatement 21
    [IfStatement 22 (PathExpression 23 "c")
       (ReturnStatement 24 (Some (Constant 25 1))) None].
Definition g : Statement := Function 20 "g" (Type_Bits 8 false) [] body.
Definition W : World :=
  Demo.world [(23, Type_Boolean)] [(23, 30)] [(30, ("c", Type_Boolean))]
    (fun _ => Demo.reachable [("c", [[Some (NodeOther 30)]])])
    Demo.noCall Demo.pure.
Definition st : FindUninitialized W := initial W HasUsesOps.empty.
Definition after_body : FindUninitialized W :=
  match visit W 10 [NodeStatement g] (NodeStatement body)
          (Function_entry W g st) with
  | Ok (_, st1) => st1
  | _ => st
  end.
End MissingReturnExample.

(** What [preorder(P4Parser)] does before it looks at the out parameters:
    the virtual methods of the local instances, then the states. *)
Definition Parser_visit_states (W : World) (visit : Visit W)
  (ctx : list Node) (parser : P4Parser) : M W unit :=
  let self := NodeP4Parser parser in
  bind (modify (set_currentPoint W (ProgramPoint_of self))) (fun _ =>
  bind (visitVirtualMethods W visit ctx self (parserLocals parser)) (fun _ =>
  forM_ (states parser) (fun s => visit (self :: ctx) (NodeParserState s)))).

(** A parser whose start state writes the out parameter [md]; the write
    reaches [accept] but not [reject]. *)
Module ParserJoinExample.
Definition write : Statement :=
  AssignmentStatement 50 NoSourceInfo (PathExpression 51 "md") (Constant 52 1).
Definition start : ParserState :=
  {| state_id := 60; state_name := "start"; state_components := [write];
     selectExpression := None |}.
Definition accept : ParserState :=
  {| state_id := 61; state_name := "accept"; state_components := [];
     selectExpression := None |}.
Definition reject : ParserState :=
  {| state_id := 62; state_name := "reject"; state_components := [];
     selectExpression := None |}.
Definition md : IRParameter :=
  {| param_id := 40; param_name := "md"; direction := DirOut |}.
Definition p : P4Parser :=
  {| parser_id := 63; parser_name := "p"; parser_applyParameters := [md];
     parserLocals := []; states := [start; accept; reject] |}.
Definition defsAt (pt : ProgramPoint) : Demo.Defs :=
  match pt with
  | [Some (NodeParserState s)] =>
      if String.eqb (state_name s) "reject"
      then Demo.reachable [("md", [beforeStart])]
      else Demo.reachable [("md", [[Some (NodeStatement write)]])]
  | _ => Demo.reachable [("md", [[Some (NodeStatement write)]])]
  end.
Definition W : World :=
  Demo.world [(51, Type_Bits 8 false)] [(51, 40)]
    [(40, ("md", Type_Bits 8 false))] defsAt Demo.noCall Demo.pure.
Definition st : FindUninitialized W := initial W HasUsesOps.empty.
Definition after_states : FindUninitialized W :=
  match Parser_visit_states W (visit W 10) [] p st with
  | Ok (_, st1) => st1
  | _ => st
  end.
End ParserJoinExample.

(** The warning for a read of [stack.next]. *)
Definition readingNext (expression : NodeId) : Diagnostic :=
  mk_warning WARN_UNINITIALIZED "%1%: reading uninitialized value"
    [ArgNode expression].

(** [hs.next], [hs.last] and [hs.lastIndex] read on a right-hand side, [hs]
    a stack of headers. *)
Module StackNextExample.
Definition hs : Expression := PathExpression 1 "hs".
Definition next : Expression := Member 2 hs "next".
Definition stack : IRType := Type_Stack (Type_Header "H") 4.
Definition W : World :=
  Demo.world
    [(1, stack); (2, Type_Header "H"); (3, Type_Header "H");
     (4, Type_Bits 32 false)]
    [(1, 10)] [(10, ("hs", stack))]
    (fun _ => Demo.reachable
                [("hs", [[Some (NodeOther 10)]]);
                 ("hs.$lastIndex", [[Some (NodeOther 11)]])])
    Demo.noCall Demo.pure.
Definition st : FindUninitialized W := initial W HasUsesOps.empty.
Definition after_base : FindUninitialized W :=
  match visit W 5 [NodeExpression next] (NodeExpression hs) st with
  | Ok (_, st1) => st1
  | _ => st
  end.
Definition last : Expression := Member 3 hs "last".
Definition lastIndex : Expression := Member 4 hs "lastIndex".
End StackNextExample.

(** [a[7:4] = 0xA; a[7:0] = 0xBC;]: the second write covers the first. *)
Module SliceOverwriteExample.
Definition earlier : Statement :=
  AssignmentStatement 10 NoSourceInfo (Slice 11 (PathExpression 2 "a") 7 4)
    (Constant 3 10).
Definition later : Statement :=
  AssignmentStatement 20 NoSourceInfo (Slice 12 (PathExpression 1 "a") 7 0)
    (Constant 4 188).
Definition W : World :=
  Demo.world [(1, Type_Bits 8 false); (12, Type_Bits 8 false)] [(1, 100)]
    [(100, ("a", Type_Bits 8 false))]
    (fun _ => Demo.reachable [("a", [[Some (NodeStatement earlier)]])])
    Demo.noCall Demo.pure.
Definition st : FindUninitialized W := initial W HasUsesOps.empty.
Definition tracking : HasUses :=
  {| used := ∅;
     tracker := SliceTracker.tracking (Slice 12 (PathExpression 1 "a") 7 0) |}.
Definition points : ProgramPoints :=
  [beforeStart; [Some (NodeStatement earlier)]; [Some (NodeOther 9)]].
End SliceOverwriteExample.

(** What is left of [preorder(Slice)] once the base [e0] has been visited;
    [save] is the value of [lhs] on entry. *)
Definition Slice_after_base (W : World) (ctx : list Node)
  (expression e0 : Expression) (save : bool) : M W unit :=
  bind (getReadsNonNull W e0) (fun storage =>
  bind (reads W expression storage) (fun _ =>
  bind (registerUses W ctx expression true) (fun _ =>
  bind (modify (set_lhs W save)) (fun _ =>
  doneWatching W)))).

(** [a[7:0][7:0] = 1;] after [a[7:4] = 0xA;]: a slice below the slice on the
    left-hand side. *)
Module NestedSliceExample.
Definition earlier : Statement :=
  AssignmentStatement 10 NoSourceInfo (Slice 11 (PathExpression 2 "a") 7 4)
    (Constant 3 10).
Definition inner : Expression := Slice 13 (PathExpression 1 "a") 7 0.
Definition outer : Expression := Slice 12 inner 7 0.
Definition later : Statement :=
  AssignmentStatement 20 NoSourceInfo outer (Constant 4 1).
Definition W : World :=
  Demo.world
    [(1, Type_Bits 8 false); (12, Type_Bits 8 false); (13, Type_Bits 8 false)]
    [(1, 100)] [(100, ("a", Type_Bits 8 false))]
    (fun _ => Demo.reachable [("a", [[Some (NodeStatement earlier)]])])
    Demo.noCall Demo.pure.
Definition st : FindUninitialized W :=
  set_lhs W true (initial W HasUsesOps.empty).
Definition after_outer : FindUninitialized W :=
  match preorder_Slice W (visit W 5) [NodeStatement later] outer inner st with
  | Ok (_, st') => st'
  | _ => st
  end.
End NestedSliceExample.

(** The expressions without a slice and without a call. *)
Fixpoint plain (e : Expression) : bool :=
  match e with
  | Constant _ _ | Literal _ | TypeNameExpression _ _
  | PathExpression _ _ => true
  | Member _ e0 _ | Operation_Unary _ e0 => plain e0
  | ArrayIndex _ a b | Operation_Binary _ a b => plain a && plain b
  | Mux _ a b c => plain a && plain b && plain c
  | Slice _ _ _ _ | MethodCallExpression _ _ _ | OtherExpression _ _ => false
  end.


(** [s.f[7:4] = 0xA; s.f[7:0] = 0xBC;]: the second write covers the first. *)
Module FieldSliceExample.
Definition earlier : Statement :=
  AssignmentStatement 10 NoSourceInfo
    (Slice 11 (Member 5 (PathExpression 2 "s") "f") 7 4) (Constant 3 10).
Definition target : Expression :=
  Slice 12 (Member 6 (PathExpression 1 "s") "f") 7 0.
Definition later : Statement :=
  AssignmentStatement 20 NoSourceInfo target (Constant 4 188).
Definition W : World :=
  Demo.world
    [(1, Type_Struct "S"); (6, Type_Bits 8 false); (12, Type_Bits 8 false)]
    [(1, 100)] [(100, ("s", Type_Struct "S"))]
    (fun _ => Demo.reachable [("s.f", [[Some (NodeStatement earlier)]])])
    Demo.noCall Demo.pure.
Definition st : FindUninitialized W := initial W HasUsesOps.empty.
End FieldSliceExample.





(** The expressions [checkHeaderFieldWrite] walks through from [parent]
    down to the path. *)
Fixpoint walked (parent : Expression) : list Expression :=
  parent ::
  match parent with
  | Member _ mem_expr _ => walked mem_expr
  | ArrayIndex _ ai_left _ => walked ai_left
  | Slice _ e0 _ _ => walked e0
  | _ => []
  end.

Definition isHeader (W : World) (e : Expression) : bool :=
  match getType W (expr_id e) with
  | Some type => is_Type_Header type
  | None => false
  end.


(** [h.f = 1;] with [h] a header. *)
Module HeaderFieldExample.
Definition h : Expression := PathExpression 1 "h".
Definition field : Expression := Member 2 h "f".
Definition W : World :=
  Demo.world [(1, Type_Header "H"); (2, Type_Bits 8 false)] [(1, 10)]
    [(10, ("h", Type_Header "H"))]
    (fun _ => Demo.reachable [("h.$valid", [[Some (NodeOther 10)]])])
    Demo.noCall Demo.pure.
Definition st : FindUninitialized W := initial W HasUsesOps.empty.
End HeaderFieldExample.

(** [checkHeaderFieldWrite] is the descent below [parent] followed by the
    test of the type of [parent]. *)
Definition headerTest (W : World) (ctx : list Node) (expr parent : Expression)
  (loc : LocationSet W) : M W (LocationSet W) :=
  match getType W (expr_id parent) with
  | None => bug "Could not find type of %1%"
  | Some type =>
      if is_Type_Header type then
        if negb (same_expr expr parent) then
          bind (reads W expr (getValidField W loc)) (fun _ =>
          bind (registerUses W ctx expr true) (fun _ =>
          ret (getValidField W loc)))
        else ret loc
      else ret loc
  end.






(** [hdr.eth.f = 1;] with [eth] a header in the struct [hdr]. *)
Module NestedHeaderExample.
Definition hdr : Expression := PathExpression 1 "hdr".
Definition eth : Expression := Member 2 hdr "eth".
Definition field : Expression := Member 3 eth "f".
Definition W : World :=
  Demo.world
    [(1, Type_Struct "headers"); (2, Type_Header "E"); (3, Type_Bits 8 false)]
    [(1, 10)] [(10, ("hdr", Type_Struct "headers"))]
    (fun _ => Demo.reachable [("hdr.eth.$valid", [[Some (NodeOther 11)]])])
    Demo.noCall Demo.pure.
Definition st : FindUninitialized W := initial W HasUsesOps.empty.
End NestedHeaderExample.

(** [c2] returns whatever [c1] returns. *)
Definition M_le {W : World} {A : Type} (c1 c2 : M W A) : Prop :=
  forall st a st', c1 st = Ok (a, st') -> c2 st = Ok (a, st').

Definition Visit_le {W : World} (v1 v2 : Visit W) : Prop :=
  forall ctx n, M_le (v1 ctx n) (v2 ctx n).

(** [a[g(b[3:0])][7:0] = 1;] where [g] takes its argument as an out
    parameter: a slice reached as a left-hand side below the slice on the
    left of the assignment. *)
Module NestedWatchExample.
Definition arg : Expression := Slice 16 (PathExpression 17 "b") 3 0.
Definition call : Expression :=
  MethodCallExpression 14 (PathExpression 15 "g") [arg].
Definition outer : Expression :=
  Slice 12 (ArrayIndex 13 (PathExpression 1 "a") call) 7 0.
Definition later : Statement :=
  AssignmentStatement 20 NoSourceInfo outer (Constant 4 1).
Definition res (e : Expression) : MethodInstance :=
  {| kind := OtherMethodInstance;
     substitution :=
       [({| param_id := 30; param_name := "o"; direction := DirOut |}, arg)] |}.
Definition W : World :=
  Demo.world [] [(1, 100); (15, 50); (17, 101)]
    [(100, ("a", Type_Stack (Type_Bits 8 false) 4));
     (101, ("b", Type_Bits 8 false))]
    (fun _ => Demo.reachable []) res Demo.pure.
Definition st : FindUninitialized W := initial W HasUsesOps.empty.
Definition watching : FindUninitialized W :=
  set_lhs W true
    (set_hasUses W
       {| used := ∅; tracker := SliceTracker.tracking outer |} st).
End NestedWatchExample.

(** [{ switch (x) { }  y = z; }] and [{ y = z; }], [z] written at node 90. *)
Module EmptySwitchExample.
Definition switch : Statement := SwitchStatement 70 (PathExpression 71 "x") [].
Definition copy : Statement :=
  AssignmentStatement 72 NoSourceInfo (PathExpression 73 "y")
    (PathExpression 74 "z").
Definition with_switch : Statement := BlockStatement 75 [switch; copy].
Definition without_switch : Statement := BlockStatement 76 [copy].
Definition W : World :=
  Demo.world
    [(71, Type_Bits 8 false); (73, Type_Bits 8 false); (74, Type_Bits 8 false)]
    [(71, 80); (73, 81); (74, 82)]
    [(80, ("x", Type_Bits 8 false)); (81, ("y", Type_Bits 8 false));
     (82, ("z", Type_Bits 8 false))]
    (fun _ => Demo.reachable
                [("x", [[Some (NodeOther 91)]]); ("z", [[Some (NodeOther 90)]])])
    Demo.noCall Demo.pure.
Definition st : FindUninitialized W := initial W HasUsesOps.empty.
Definition after_switch : FindUninitialized W :=
  match preorder_SwitchStatement W (visit W 5) [] switch
          (PathExpression 71 "x") [] st with
  | Ok (_, st') => st'
  | _ => st
  end.
Definition usesAfter (s : Statement) : HasUses :=
  match visit W 10 [] (NodeStatement s) st with
  | Ok (_, st') => hasUses W st'
  | _ => HasUsesOps.empty
  end.
End EmptySwitchExample.

(** [emit(x);] with [emit] free of side effects, a call statement. *)
Module CallStatementExample.
Definition call : Expression :=
  MethodCallExpression 3 (PathExpression 2 "f") [].
Definition stmt : Statement := MethodCallStatement 4 NoSourceInfo call.
Definition W : World :=
  Demo.world [] [] [] (fun _ => Demo.reachable []) Demo.noCall Demo.pure.
End CallStatementExample.

(** A visitor that has recorded the read set of [x], and [y] besides. *)
Module ReadsExample.
Definition W : World :=
  Demo.world [] [] [] (fun _ => Demo.reachable []) Demo.noCall Demo.pure.
Definition x : Expression := PathExpression 1 "x".
Definition y : Expression := PathExpression 2 "y".
Definition st : FindUninitialized W :=
  set_readLocations W (<[2 := ["y"]]> ∅) (initial W HasUsesOps.empty).
End ReadsExample.

(** A precondition, a computation, and what holds of its result when it
    returns. *)
Definition hoare {W : World} {A : Type} (P : FindUninitialized W -> Prop)
  (c : M W A) (Q : A -> FindUninitialized W -> Prop) : Prop :=
  forall st a st', P st -> c st = Ok (a, st') -> Q a st'.

Definition preserves {W : World} {A : Type} (P : FindUninitialized W -> Prop)
  (c : M W A) : Prop :=
  hoare P c (fun _ => P).

(** A control whose body applies a table and then copies [z] to [y]:
    [action a() { r = w; }], [table t { key = { k : exact; }
    actions = { a; } }], [apply { t.apply(); y = z; }].  [k], [z] and [w] are
    written at the nodes 93, 90 and 92, and [w] may also be read before any
    write.  The visitor starts with a use and a diagnostic on record. *)
Module TableApplyExample.
Definition a_body : Statement :=
  BlockStatement 51
    [AssignmentStatement 52 NoSourceInfo (PathExpression 53 "r")
       (PathExpression 54 "w")].
Definition a : P4Action :=
  {| action_id := 50; action_name := "a"; action_parameters := [];
     action_body := a_body |}.
Definition entry : Expression :=
  MethodCallExpression 45 (PathExpression 46 "a") [].
Definition t : P4Table :=
  {| table_id := 40; table_name := "t";
     table_key :=
       Some [{| key_expression := PathExpression 43 "k";
                key_matchType := PathExpression 44 "exact" |}];
     table_actionList := [entry] |}.
Definition call : Expression :=
  MethodCallExpression 32 (Member 33 (PathExpression 34 "t") "apply") [].
Definition apply_t : Statement := MethodCallStatement 31 NoSourceInfo call.
Definition copy : Statement :=
  AssignmentStatement 35 NoSourceInfo (PathExpression 36 "y")
    (PathExpression 37 "z").
Definition body : Statement := BlockStatement 30 [apply_t; copy].
Definition res (e : Expression) : MethodInstance :=
  {| kind :=
       match expr_id e with
       | 32 => ApplyMethod (NodeP4Table t)
       | 45 => ActionCall a
       | _ => OtherMethodInstance
       end;
     substitution := [] |}.
Definition W : World :=
  Demo.world
    [(33, Type_Method); (36, Type_Bits 8 false); (37, Type_Bits 8 false);
     (43, Type_Bits 8 false); (53, Type_Bits 8 false); (54, Type_Bits 8 false)]
    [(34, 140); (36, 136); (37, 137); (43, 143); (44, 144); (46, 150);
     (53, 153); (54, 154)]
    [(136, ("y", Type_Bits 8 false)); (137, ("z", Type_Bits 8 false));
     (143, ("k", Type_Bits 8 false)); (153, ("r", Type_Bits 8 false));
     (154, ("w", Type_Bits 8 false))]
    (fun _ => Demo.reachable
                [("k", [[Some (NodeOther 93)]]);
                 ("z", [[Some (NodeOther 90)]]);
                 ("w", [beforeStart; [Some (NodeOther 92)]])])
    res Demo.pure.
Definition earlier : Diagnostic :=
  mk_warning WARN_UNINITIALIZED "%1%: reading uninitialized value" [ArgNode 7].
Definition st : FindUninitialized W :=
  set_diagnostics W [earlier]
    (initial W {| used := {[7]}; tracker := SliceTracker.default |}).
Definition after_body : FindUninitialized W :=
  match visit W 12 [] (NodeStatement body) st with
  | Ok (_, st') => st'
  | _ => st
  end.
Definition after_table : FindUninitialized W :=
  match visit W 12 [] (NodeP4Table t) st with
  | Ok (_, st') => st'
  | _ => st
  end.
End TableApplyExample.

(** A parser with a local instance whose virtual method returns:
    [Virtual() v = { void f() { return; } };
     state start { x = y; transition accept; }], and the same parser without
    the instance. *)
Module VirtualReturnExample.
Definition f : Statement :=
  Function 70 "f" Type_Void [] (BlockStatement 71 [ReturnStatement 72 None]).
Definition write : Statement :=
  AssignmentStatement 74 NoSourceInfo (PathExpression 75 "x")
    (PathExpression 76 "y").
Definition start : ParserState :=
  {| state_id := 80; state_name := "start"; state_components := [write];
     selectExpression := Some (PathExpression 77 "accept") |}.
Definition accept : ParserState :=
  {| state_id := 81; state_name := "accept"; state_components := [];
     selectExpression := None |}.
Definition reject : ParserState :=
  {| state_id := 82; state_name := "reject"; state_components := [];
     selectExpression := None |}.
Definition p : P4Parser :=
  {| parser_id := 83; parser_name := "p"; parser_applyParameters := [];
     parserLocals := [Declaration_Instance 84 "v" (Some (BlockStatement 85 [f]))];
     states := [start; accept; reject] |}.
Definition plain : P4Parser :=
  {| parser_id := 83; parser_name := "p"; parser_applyParameters := [];
     parserLocals := []; states := [start; accept; reject] |}.
Definition W : World :=
  Demo.world [(75, Type_Bits 8 false); (76, Type_Bits 8 false)]
    [(75, 175); (76, 176); (77, 81)]
    [(175, ("x", Type_Bits 8 false)); (176, ("y", Type_Bits 8 false))]
    (fun _ => Demo.reachable [("y", [[Some (NodeOther 90)]])])
    Demo.noCall Demo.pure.
Definition st : FindUninitialized W := initial W HasUsesOps.empty.
(** The visitor as the parser enters its first state. *)
Definition entering : FindUninitialized W :=
  match
    bind (modify (set_currentPoint W (ProgramPoint_of (NodeP4Parser p))))
      (fun _ => visitVirtualMethods W (visit W 10) [] (NodeP4Parser p)
                  (parserLocals p)) st
  with
  | Ok (_, st1) => st1
  | _ => st
  end.
End VirtualReturnExample.

(** What [preorder(P4Control)] does before it looks at the out parameters:
    the virtual methods of the local instances, then the body. *)
Definition Control_visit_body (W : World) (visit : Visit W)
  (ctx : list Node) (control : P4Control) : M W unit :=
  let self := NodeP4Control control in
  bind (modify (set_currentPoint W (ProgramPoint_of self))) (fun _ =>
  bind (visitVirtualMethods W visit ctx self (controlLocals control)) (fun _ =>
  bind (modify (set_unreachable W false)) (fun _ =>
  visit (self :: ctx) (NodeStatement (control_body control))))).

(** What [preorder(P4Action)] does before it looks at the out parameters. *)
Definition Action_visit_body (W : World) (visit : Visit W)
  (ctx : list Node) (action : P4Action) : M W unit :=
  let self := NodeP4Action action in
  bind (modify (set_unreachable W false)) (fun _ =>
  bind (gets (context W)) (fun context =>
  bind (modify (set_currentPoint W (ProgramPoint_in context self))) (fun _ =>
  visit (self :: ctx) (NodeStatement (action_body action))))).

(** The control around the table of [TableApplyExample], with the out
    parameter [r], and an action with the out parameter [o] called from the
    point [site]; [o] is written at node 95 inside the action only. *)
Module ControlExample.
Definition r : IRParameter :=
  {| param_id := 153; param_name := "r"; direction := DirOut |}.
Definition c : P4Control :=
  {| control_id := 29; control_name := "c"; control_applyParameters := [r];
     controlLocals :=
       [Declaration_Action TableApplyExample.a;
        Declaration_Table TableApplyExample.t];
     control_body := TableApplyExample.body |}.
Definition after_body : FindUninitialized TableApplyExample.W :=
  match Control_visit_body TableApplyExample.W (visit TableApplyExample.W 12)
          [] c TableApplyExample.st with
  | Ok (_, st1) => st1
  | _ => TableApplyExample.st
  end.
Definition after_control : FindUninitialized TableApplyExample.W :=
  match visit TableApplyExample.W 13 [] (NodeP4Control c)
          TableApplyExample.st with
  | Ok (_, st1) => st1
  | _ => TableApplyExample.st
  end.
Definition o : IRParameter :=
  {| param_id := 160; param_name := "o"; direction := DirOut |}.
Definition set_o : Statement :=
  AssignmentStatement 62 NoSourceInfo (PathExpression 63 "o") (Constant 64 1).
Definition b_body : Statement := BlockStatement 61 [set_o].
Definition b : P4Action :=
  {| action_id := 60; action_name := "b"; action_parameters := [o];
     action_body := b_body |}.
Definition site : ProgramPoint := [Some (NodeOther 65)].
Definition defsAt (pt : ProgramPoint) : Demo.Defs :=
  match pt with
  | [Some (NodeOther 65); Some (NodeStatement (BlockStatement 61 _))] =>
      Demo.reachable [("o", [[Some (NodeOther 95)]])]
  | _ => Demo.reachable [("o", [beforeStart])]
  end.
Definition W : World :=
  Demo.world [(63, Type_Bits 8 false)] [(63, 160)]
    [(160, ("o", Type_Bits 8 false))] defsAt Demo.noCall Demo.pure.
Definition st : FindUninitialized W :=
  child_visitor W (initial W HasUsesOps.empty) site.
Definition after_b_body : FindUninitialized W :=
  match Action_visit_body W (visit W 12) [] b st with
  | Ok (_, st1) => st1
  | _ => st
  end.
Definition after_b : FindUninitialized W :=
  match visit W 13 [] (NodeP4Action b) st with
  | Ok (_, st1) => st1
  | _ => st
  end.
End ControlExample.

(** The operands of an operation, in the order they are visited. *)
Definition operands (e : Expression) : list Expression :=
  match e with
  | Mux _ e0 e1 e2 => [e0; e1; e2]
  | Operation_Unary _ expr => [expr]
  | Operation_Binary _ b_left b_right => [b_left; b_right]
  | _ => []
  end.

Definition isOperation (e : Expression) : bool :=
  match e with
  | Mux _ _ _ _ | Operation_Unary _ _ | Operation_Binary _ _ _ => true
  | _ => false
  end.

(** [a[i] = 1;] and [f(x);], [a] a stack written at node 96, [i] written
    at node 97, [x] never written, [f] an extern function with the out
    parameter [o]. *)
Module UnknownIndexExample.
Definition target : Expression :=
  ArrayIndex 12 (PathExpression 13 "a") (PathExpression 14 "i").
Definition write : Statement :=
  AssignmentStatement 11 NoSourceInfo target (Constant 15 1).
Definition o : IRParameter :=
  {| param_id := 30; param_name := "o"; direction := DirOut |}.
Definition call : Expression :=
  MethodCallExpression 21 (PathExpression 22 "f") [PathExpression 23 "x"].
Definition res (e : Expression) : MethodInstance :=
  {| kind := OtherMethodInstance;
     substitution := [(o, PathExpression 23 "x")] |}.
Definition W : World :=
  Demo.world
    [(12, Type_Bits 8 false); (13, Type_Stack (Type_Bits 8 false) 4);
     (14, Type_Bits 8 false); (23, Type_Bits 8 false)]
    [(13, 113); (14, 114); (22, 122); (23, 123)]
    [(113, ("a", Type_Stack (Type_Bits 8 false) 4));
     (114, ("i", Type_Bits 8 false)); (123, ("x", Type_Bits 8 false))]
    (fun _ => Demo.reachable
                [("a", [beforeStart; [Some (NodeOther 96)]]);
                 ("i", [[Some (NodeOther 97)]]);
                 ("x", [beforeStart])])
    res Demo.pure.
Definition st : FindUninitialized W := initial W HasUsesOps.empty.
End UnknownIndexExample.

(** * Properties *)

(** ** HasUses *)

Lemma add_point_tracker (hu : HasUses) (e : ProgramPoint) :
  tracker (HasUsesOps.add_point hu e) = tracker hu.
Proof.
  unfold HasUsesOps.add_point.
  destruct (SliceTracker.overwrites (tracker hu) e); [reflexivity|].
  destruct (pp_last e); reflexivity.
Qed.

Lemma add_tracker (points : ProgramPoints) (hu : HasUses) :
  tracker (HasUsesOps.add hu points) = tracker hu.
Proof.
  unfold HasUsesOps.add. revert hu.
  induction points as [|e points IH]; intros hu; simpl; [reflexivity|].
  rewrite IH. apply add_point_tracker.
Qed.

Lemma add_point_mono (hu : HasUses) (e : ProgramPoint) :
  used hu ⊆ used (HasUsesOps.add_point hu e).
Proof.
  unfold HasUsesOps.add_point.
  destruct (SliceTracker.overwrites (tracker hu) e); [set_solver|].
  destruct (pp_last e); simpl; set_solver.
Qed.

Lemma add_mono (points : ProgramPoints) (hu : HasUses) :
  used hu ⊆ used (HasUsesOps.add hu points).
Proof.
  unfold HasUsesOps.add. revert hu.
  induction points as [|e points IH]; intros hu; simpl; [set_solver|].
  etrans; [apply (add_point_mono hu e)|apply IH].
Qed.


(** A point that is not skipped and has a last node inserts that node. *)
Lemma add_point_kept (hu : HasUses) (e : ProgramPoint) (n : Node) :
  SliceTracker.overwrites (tracker hu) e = false ->
  pp_last e = Some n ->
  node_id n ∈ used (HasUsesOps.add_point hu e).
Proof.
  unfold HasUsesOps.add_point. intros -> ->. simpl. set_solver.
Qed.

Lemma add_kept (points : ProgramPoints) (hu : HasUses) (e : ProgramPoint)
  (n : Node) :
  In e points ->
  SliceTracker.overwrites (tracker hu) e = false ->
  pp_last e = Some n ->
  node_id n ∈ used (HasUsesOps.add hu points).
Proof.
  unfold HasUsesOps.add. revert hu.
  induction points as [|e' points IH]; intros hu Hin Hov Hlast; [destruct Hin|].
  simpl. destruct Hin as [->|Hin].
  - apply (add_mono points). apply add_point_kept; assumption.
  - apply IH; try assumption. rewrite add_point_tracker. assumption.
Qed.


Lemma add_point_elem_of (hu : HasUses) (e : ProgramPoint) (x : NodeId) :
  x ∈ used (HasUsesOps.add_point hu e) <->
  x ∈ used hu
  \/ (SliceTracker.overwrites (tracker hu) e = false
      /\ exists n, pp_last e = Some n /\ node_id n = x).
Proof.
  unfold HasUsesOps.add_point.
  destruct (SliceTracker.overwrites (tracker hu) e).
  - split; [auto|]. intros [H|[H _]]; [exact H|discriminate H].
  - destruct (pp_last e) as [n|]; simpl.
    + rewrite elem_of_union, elem_of_singleton. split.
      * intros [->|H]; [right; eauto|left; exact H].
      * intros [H|[_ [n' [Hn <-]]]]; [right; exact H|].
        left. inversion Hn. reflexivity.
    + split; [auto|]. intros [H|[_ [n [Hn _]]]]; [exact H|discriminate Hn].
Qed.

(** After [add] a node is in the set exactly when it was there or is the
    last node of a point the tracker has not skipped. *)
Lemma add_used_iff (points : ProgramPoints) (hu : HasUses) (x : NodeId) :
  x ∈ used (HasUsesOps.add hu points) <->
  x ∈ used hu \/ added (tracker hu) points x.
Proof.
  unfold added. revert hu. induction points as [|e0 points IH]; intros hu.
  - split; [auto|]. intros [H|[e [n [[] _]]]]. exact H.
  - change (HasUsesOps.add hu (e0 :: points))
      with (HasUsesOps.add (HasUsesOps.add_point hu e0) points).
    rewrite IH, add_point_elem_of, add_point_tracker. split.
    + intros [[H|[Hov [n [Hn Hx]]]]|[e [n [He [Hov [Hn Hx]]]]]].
      * left. exact H.
      * right. exists e0, n. split; [left; reflexivity|auto].
      * right. exists e, n. split; [right; exact He|auto].
    + intros [H|[e [n [[<-|He] [Hov [Hn Hx]]]]]].
      * left. left. exact H.
      * left. right. split; [exact Hov|eauto].
      * right. exists e, n. auto.
Qed.

Lemma overwrites_inactive (tr : SliceTracker.t) (e : ProgramPoint) :
  SliceTracker.isActive tr = false -> SliceTracker.overwrites tr e = false.
Proof. unfold SliceTracker.overwrites. intros ->. reflexivity. Qed.


(** ** The bound of the traversal

    A traversal that returns with some bound returns the same with any
    larger one. *)

Lemma M_le_refl (W : World) (A : Type) (c : M W A) : M_le c c.
Proof. intros st a st' H. exact H. Qed.

Lemma M_le_bind (W : World) (A B : Type) (c1 c2 : M W A)
  (k1 k2 : A -> M W B) :
  M_le c1 c2 -> (forall a, M_le (k1 a) (k2 a)) ->
  M_le (bind c1 k1) (bind c2 k2).
Proof.
  intros Hc Hk st b st' Hrun. unfold bind in *.
  destruct (c1 st) as [[a s]| |] eqn:H1; try discriminate Hrun.
  rewrite (Hc _ _ _ H1). apply Hk. exact Hrun.
Qed.

Lemma M_le_when (W : World) (b : bool) (c1 c2 : M W unit) :
  M_le c1 c2 -> M_le (when b c1) (when b c2).
Proof. intros H. destruct b; [exact H|apply M_le_refl]. Qed.

Lemma M_le_forM_ (W : World) (A : Type) (xs : list A)
  (f g : A -> M W unit) :
  (forall x, M_le (f x) (g x)) -> M_le (forM_ xs f) (forM_ xs g).
Proof.
  intros H. induction xs as [|x xs IH]; simpl; [apply M_le_refl|].
  apply M_le_bind; [apply H|intros _; exact IH].
Qed.

Ltac monotone H :=
  repeat first
    [ apply M_le_refl
    | apply H
    | apply M_le_bind
    | apply M_le_when
    | apply M_le_forM_
    | progress intros
    | match goal with
      | |- M_le (match ?x with _ => _ end) (match ?x with _ => _ end) =>
          destruct x
      | |- M_le (if ?x then _ else _) (if ?x then _ else _) => destruct x
      end ].

Lemma analyzeCallees_le (W : World) (v1 v2 : Visit W) (callee : list Node)
  (pt : ProgramPoint) :
  Visit_le v1 v2 ->
  M_le (analyzeCallees W v1 callee pt) (analyzeCallees W v2 callee pt).
Proof.
  intros H st a st' Hrun. unfold analyzeCallees in *.
  assert (Hloop : M_le (forM_ callee (apply W v1)) (forM_ callee (apply W v2))).
  { unfold apply. monotone H. }
  destruct (forM_ callee (apply W v1) (child_visitor W st pt))
    as [[[] fu]| |] eqn:H1; try discriminate Hrun.
  rewrite (Hloop _ _ _ H1). exact Hrun.
Qed.

Lemma switchCases_le (W : World) (v1 v2 : Visit W) (ctx : list Node)
  (self : Node) (saveCurrent : ProgramPoint) (saveUnreachable : bool)
  (cases : list SwitchCase) :
  Visit_le v1 v2 ->
  forall finalUnreachable,
    M_le (switchCases W v1 ctx self saveCurrent saveUnreachable cases
            finalUnreachable)
         (switchCases W v2 ctx self saveCurrent saveUnreachable cases
            finalUnreachable).
Proof.
  intros H. induction cases as [|c cases IH]; intros fin; simpl;
    [apply M_le_refl|].
  destruct c as [id label [s|]]; [|apply IH].
  monotone H. apply IH.
Qed.

Lemma visit_Node_le (W : World) (v1 v2 : Visit W) :
  Visit_le v1 v2 -> Visit_le (visit_Node W v1) (visit_Node W v2).
Proof.
  intros H ctx n. destruct n as [e|s|c|ps|a|t|c|p|id objects|id]; simpl.
  - destruct e; simpl;
      unfold preorder_Member, preorder_ArrayIndex, preorder_Slice,
        preorder_MethodCallExpression, callEffect, visit_operation,
        visit_children;
      monotone H; apply analyzeCallees_le; exact H.
  - destruct s; simpl;
      unfold preorder_AssignmentStatement, preorder_ReturnStatement,
        preorder_MethodCallStatement, preorder_BlockStatement,
        preorder_IfStatement, preorder_SwitchStatement, preorder_Function;
      monotone H; apply switchCases_le; exact H.
  - unfold visit_SwitchCase. destruct c. monotone H.
  - unfold preorder_ParserState. monotone H.
  - unfold preorder_P4Action. monotone H.
  - unfold preorder_P4Table. monotone H.
  - unfold preorder_P4Control, visitVirtualMethods. monotone H.
  - unfold preorder_P4Parser, visitVirtualMethods. monotone H.
  - monotone H.
  - apply M_le_refl.
Qed.

Lemma visit_fuel_succ (W : World) (fuel : nat) :
  Visit_le (visit W fuel) (visit W (S fuel)).
Proof.
  induction fuel as [|fuel IH].
  - intros ctx n st a st' Hrun. discriminate Hrun.
  - intros ctx n. change (M_le (visit_Node W (visit W fuel) ctx n)
                               (visit_Node W (visit W (S fuel)) ctx n)).
    apply visit_Node_le. exact IH.
Qed.

(** Enough fuel is enough: more of it does not change a result. *)
Lemma visit_fuel_mono (W : World) (fuel fuel' : nat) :
  fuel <= fuel' -> Visit_le (visit W fuel) (visit W fuel').
Proof.
  induction 1 as [|fuel' _ IH]; [intros ctx n; apply M_le_refl|].
  intros ctx n st a st' Hrun. apply visit_fuel_succ. apply IH. exact Hrun.
Qed.

(** ** registerUses *)

Ltac run_monad :=
  unfold bind, ret, gets, modify, when, bug, warning, error, hasUses_add,
    getCurrentDefinitions, getReads, getReadsNonNull; simpl.

(** The outcome of [registerUses], by cases. *)
Lemma registerUses_unfold (W : World) (ctx : list Node) (e : Expression)
  (report : bool) (st : FindUninitialized W) :
  registerUses W ctx e report st =
  if negb (isFinalRead ctx e) then Ok (tt, st)
  else if isUnreachable W (getDefinitions W (currentPoint W st))
  then Ok (tt, st)
  else
    match readLocations W st !! expr_id e with
    | None => Ok (tt, st)
    | Some read =>
        if isEmpty W read then Ok (tt, st)
        else
          let points :=
            getPoints W (getDefinitions W (currentPoint W st)) read in
          if report && negb (lhs W st) && containsBeforeStart points then
            match getType W (expr_id e) with
            | None => Bug "Could not find type of %1%"
            | Some type =>
                Ok (tt,
                    set_hasUses W (HasUsesOps.add (hasUses W st) points)
                      (set_diagnostics W
                         (diagnostics W st ++
                          [mk_warning WARN_UNINITIALIZED_USE
                             (if is_Type_Base type then message_uninitialized
                              else message_incomplete)
                             [ArgNode (expr_id e)]]) st))
            end
          else Ok (tt, set_hasUses W (HasUsesOps.add (hasUses W st) points) st)
    end.
Proof.
  unfold registerUses.
  destruct (negb (isFinalRead ctx e)); [reflexivity|].
  run_monad.
  destruct (isUnreachable W (getDefinitions W (currentPoint W st)));
    [reflexivity|].
  destruct (readLocations W st !! expr_id e) as [read|]; [|reflexivity].
  destruct (isEmpty W read); [reflexivity|].
  destruct (report && negb (lhs W st) && containsBeforeStart _);
    [|reflexivity].
  destruct (getType W (expr_id e)); reflexivity.
Qed.



(** ** checkOutParameters *)

Lemma checkOutParameter_unfold (W : World) (block : string)
  (defs : Definitions W) (p : IRParameter) (st : FindUninitialized W) :
  checkOutParameter W block defs p st =
  Ok (tt,
      set_diagnostics W (diagnostics W st ++ outParamWarnings W block defs p)
        (set_hasUses W (outParamUses W defs (hasUses W st) p) st)).
Proof.
  unfold checkOutParameter, outParamWarnings, outParamUses.
  destruct st as [c l cp rl hu u vm ds].
  destruct (isOutOrInOut (direction p)); simpl;
    [|unfold ret, set_diagnostics, set_hasUses; simpl; rewrite app_nil_r;
      reflexivity].
  destruct (getStorage W (param_id p)) as [storage|];
    [|unfold ret, set_diagnostics, set_hasUses; simpl; rewrite app_nil_r;
      reflexivity].
  run_monad.
  destruct (typeIsEmpty W (storage_type W storage)); simpl;
    [unfold set_diagnostics, set_hasUses; simpl; rewrite app_nil_r;
     reflexivity|].
  destruct (containsBeforeStart _); simpl;
    unfold set_diagnostics, set_hasUses; simpl;
    [reflexivity|rewrite app_nil_r; reflexivity].
Qed.

(** The loop never fails; it appends the warnings of the parameters in order
    and touches nothing but [hasUses] and the sink. *)
Lemma checkOutParameters_unfold (W : World) (block : string)
  (defs : Definitions W) (parameters : list IRParameter)
  (st : FindUninitialized W) :
  checkOutParameters W block parameters defs st =
  Ok (tt,
      set_diagnostics W
        (diagnostics W st ++ flat_map (outParamWarnings W block defs) parameters)
        (set_hasUses W (foldl (outParamUses W defs) (hasUses W st) parameters)
           st)).
Proof.
  unfold checkOutParameters. revert st.
  induction parameters as [|p ps IH]; intros st.
  - destruct st. unfold set_diagnostics, set_hasUses. simpl.
    rewrite app_nil_r. reflexivity.
  - simpl forM_. unfold bind at 1. rewrite checkOutParameter_unfold.
    rewrite IH. destruct st. unfold set_diagnostics, set_hasUses. simpl.
    rewrite <- app_assoc. reflexivity.
Qed.

Lemma outParamWarnings_kind (W : World) (block : string)
  (defs : Definitions W) (parameters : list IRParameter) (d : Diagnostic) :
  In d (flat_map (outParamWarnings W block defs) parameters) ->
  errorType d = WARN_UNINITIALIZED_OUT_PARAM.
Proof.
  rewrite in_flat_map. intros [p [_ Hd]]. unfold outParamWarnings in Hd.
  destruct (isOutOrInOut (direction p)); [|destruct Hd].
  destruct (getStorage W (param_id p)); [|destruct Hd].
  destruct (_ && _); [|destruct Hd].
  destruct Hd as [<-|[]]. reflexivity.
Qed.

(** C3, amended.  For a parameter of direction out or inout that has
    storage, [checkOutParameters] adds the points reaching the whole storage
    to [HasUses], and emits WARN_UNINITIALIZED_OUT_PARAM, naming the parameter
    and the block, if and only if the type of the storage is not empty and
    the points reaching the storage without its headers contain
    before-start; the loop over a parameter list containing it then emits
    that warning.  Adding the points puts into the set the last node of
    every point the tracker does not skip, and nothing else. *)
Theorem checkOutParameter_warns_iff (W : World) (block : string)
  (defs : Definitions W) (p : IRParameter) (st : FindUninitialized W)
  (storage : StorageLocation W) :
  isOutOrInOut (direction p) = true ->
  getStorage W (param_id p) = Some storage ->
  exists st' ds,
    checkOutParameter W block defs p st = Ok (tt, st')
    /\ hasUses W st' =
       HasUsesOps.add (hasUses W st) (getPoints W defs (LocationSet_of W storage))
    /\ diagnostics W st' = diagnostics W st ++ ds
    /\ (forall d, In d ds -> d = outParamWarning block p)
    /\ (In (outParamWarning block p) ds <->
        typeIsEmpty W (storage_type W storage) = false
        /\ containsBeforeStart
             (getPoints W defs (removeHeaders W storage)) = true)
    /\ (forall parameters,
         In p parameters ->
         typeIsEmpty W (storage_type W storage) = false ->
         containsBeforeStart
           (getPoints W defs (removeHeaders W storage)) = true ->
         exists st'' ds',
           checkOutParameters W block parameters defs st = Ok (tt, st'')
           /\ diagnostics W st'' = diagnostics W st ++ ds'
           /\ In (outParamWarning block p) ds')
    /\ (add_returns (hasUses W st)
          (getPoints W defs (LocationSet_of W storage)) ->
        forall x,
          x ∈ used (hasUses W st') <->
          x ∈ used (hasUses W st)
          \/ added (tracker (hasUses W st))
               (getPoints W defs (LocationSet_of W storage)) x).
Proof.
  intros Hdir Hst. rewrite checkOutParameter_unfold.
  eexists. exists (outParamWarnings W block defs p).
  split; [reflexivity|].
  assert (Hmem : forall x,
    x ∈ used (HasUsesOps.add (hasUses W st)
                (getPoints W defs (LocationSet_of W storage))) <->
    x ∈ used (hasUses W st)
    \/ added (tracker (hasUses W st))
         (getPoints W defs (LocationSet_of W storage)) x)
    by (intros x; apply add_used_iff).
  assert (Hloop : forall parameters,
    In p parameters ->
    typeIsEmpty W (storage_type W storage) = false ->
    containsBeforeStart (getPoints W defs (removeHeaders W storage)) = true ->
    exists st'' ds',
      checkOutParameters W block parameters defs st = Ok (tt, st'')
      /\ diagnostics W st'' = diagnostics W st ++ ds'
      /\ In (outParamWarning block p) ds').
  { intros parameters Hin Hempty Hbefore. rewrite checkOutParameters_unfold.
    eexists. eexists. split; [reflexivity|]. split; [reflexivity|].
    apply in_flat_map. exists p. split; [exact Hin|].
    unfold outParamWarnings. rewrite Hdir, Hst, Hempty, Hbefore.
    left. reflexivity. }
  unfold outParamWarnings, outParamUses.
  rewrite Hdir, Hst. simpl. split; [reflexivity|]. split; [reflexivity|].
  destruct (typeIsEmpty W (storage_type W storage)); simpl.
  - split; [intros d []|].
    split; [split; [intros []|intros [H _]; discriminate H]|].
    split; [exact Hloop|intros _; exact Hmem].
  - destruct (containsBeforeStart _); simpl.
    + split; [intros d [<-|[]]; reflexivity|].
      split; [split; [auto|intros _; left; reflexivity]|].
      split; [exact Hloop|intros _; exact Hmem].
    + split; [intros d []|].
      split; [split; [intros []|intros [_ H]; discriminate H]|].
      split; [exact Hloop|intros _; exact Hmem].
Qed.

(** The parameter [y] of type [bit<8>] is reported, and its writer at node
    8 is in the set afterwards. *)
Lemma checkOutParameter_warns_iff_witness :
  exists st' ds,
    checkOutParameter OutParamExample.W "c" OutParamExample.defs
      OutParamExample.py OutParamExample.st = Ok (tt, st')
    /\ hasUses OutParamExample.W st' =
       HasUsesOps.add (hasUses OutParamExample.W OutParamExample.st)
         (getPoints OutParamExample.W OutParamExample.defs ["y"])
    /\ diagnostics OutParamExample.W st' = [] ++ ds
    /\ (forall d, In d ds -> d = outParamWarning "c" OutParamExample.py)
    /\ (In (outParamWarning "c" OutParamExample.py) ds <->
        false = false /\ true = true)
    /\ (forall parameters,
         In OutParamExample.py parameters ->
         false = false -> true = true ->
         exists st'' ds',
           checkOutParameters OutParamExample.W "c" parameters
             OutParamExample.defs OutParamExample.st = Ok (tt, st'')
           /\ diagnostics OutParamExample.W st'' = [] ++ ds'
           /\ In (outParamWarning "c" OutParamExample.py) ds')
    /\ 8 ∈ used (hasUses OutParamExample.W st')
    /\ (8 ∉ used (hasUses OutParamExample.W OutParamExample.st)).
Proof.
  destruct (checkOutParameter_warns_iff OutParamExample.W "c"
              OutParamExample.defs OutParamExample.py OutParamExample.st
              ("y", Type_Bits 8 false) eq_refl eq_refl)
    as [st' [ds [Hrun [Hhu [Hds [Honly [Hiff [Hloop Hmem]]]]]]]].
  exists st', ds.
  split; [exact Hrun|]. split; [exact Hhu|]. split; [exact Hds|].
  split; [exact Honly|]. split; [exact Hiff|]. split; [exact Hloop|].
  split; [|apply not_elem_of_empty].
  apply (Hmem ltac:(intros Hactive; discriminate Hactive)).
  right. exists [Some (NodeOther 8)], (NodeOther 8).
  split; [right; left; reflexivity|]. repeat split.
Defined.

(** The parameter [x] of type [bit<0>] is not written, the points reaching
    it contain before-start, and no warning is emitted. *)
Lemma out_param_warning_counterexample :
  ~ out_param_warning_as_stated OutParamExample.W "c" OutParamExample.defs
      OutParamExample.px OutParamExample.st.
Proof.
  intros H.
  destruct (H ("x", Type_Bits 0 false) eq_refl eq_refl)
    as [ds [[a [st' [Hrun Hds]]] [_ Hiff]]].
  rewrite checkOutParameter_unfold in Hrun. inversion Hrun; subst st'.
  simpl in Hds. symmetry in Hds. destruct ds; [|discriminate Hds].
  apply (Hiff eq_refl).
Qed.

(** C9.  A parameter of direction out or inout whose storage has an empty
    type is never reported, whatever the points reaching it; the points
    reaching its whole storage are added to [HasUses] all the same: the set
    then holds the last node of every such point the tracker does not
    skip, and nothing new besides.  The parameter contributes nothing to
    what the loop over a parameter list emits. *)
Theorem checkOutParameter_empty_type (W : World) (block : string)
  (defs : Definitions W) (p : IRParameter) (st : FindUninitialized W)
  (storage : StorageLocation W) :
  isOutOrInOut (direction p) = true ->
  getStorage W (param_id p) = Some storage ->
  typeIsEmpty W (storage_type W storage) = true ->
  checkOutParameter W block defs p st =
  Ok (tt,
      set_hasUses W
        (HasUsesOps.add (hasUses W st)
           (getPoints W defs (LocationSet_of W storage))) st)
  /\ (forall ds, emitted (checkOutParameter W block defs p) st ds -> ds = [])
  /\ outParamWarnings W block defs p = []
  /\ (forall parameters,
       emitted (checkOutParameters W block parameters defs) st
         (flat_map (outParamWarnings W block defs) parameters))
  /\ (add_returns (hasUses W st)
        (getPoints W defs (LocationSet_of W storage)) ->
      forall st',
        checkOutParameter W block defs p st = Ok (tt, st') ->
        forall x,
          x ∈ used (hasUses W st') <->
          x ∈ used (hasUses W st)
          \/ added (tracker (hasUses W st))
               (getPoints W defs (LocationSet_of W storage)) x).
Proof.
  intros Hdir Hst Hempty.
  assert (Hrun : checkOutParameter W block defs p st =
    Ok (tt, set_hasUses W (HasUsesOps.add (hasUses W st)
              (getPoints W defs (LocationSet_of W storage))) st)).
  { rewrite checkOutParameter_unfold. unfold outParamWarnings, outParamUses.
    rewrite Hdir, Hst, Hempty. simpl. destruct st.
    unfold set_diagnostics, set_hasUses. simpl. rewrite app_nil_r.
    reflexivity. }
  split; [exact Hrun|]. split; [|split; [|split]].
  - intros ds [a [st' [Hrun' Hds]]]. rewrite Hrun in Hrun'.
    inversion Hrun'; subst st'. simpl in Hds.
    rewrite <- (app_nil_r (diagnostics W st)) in Hds at 1.
    apply app_inv_head in Hds. symmetry. exact Hds.
  - unfold outParamWarnings. rewrite Hdir, Hst, Hempty. reflexivity.
  - intros parameters. exists tt. eexists.
    rewrite checkOutParameters_unfold. split; reflexivity.
  - intros _ st' Hrun' x. rewrite Hrun in Hrun'. inversion Hrun'.
    apply add_used_iff.
Qed.

(** The parameter [x] of type [bit<0>]: no warning although before-start
    reaches it, and its writer at node 7 is in the set afterwards. *)
Lemma checkOutParameter_empty_type_witness :
  containsBeforeStart
    (getPoints OutParamExample.W OutParamExample.defs
       (removeHeaders OutParamExample.W ("x", Type_Bits 0 false))) = true
  /\ exists st',
       checkOutParameter OutParamExample.W "c" OutParamExample.defs
         OutParamExample.px OutParamExample.st = Ok (tt, st')
       /\ diagnostics OutParamExample.W st' = []
       /\ 7 ∈ used (hasUses OutParamExample.W st')
       /\ (7 ∉ used (hasUses OutParamExample.W OutParamExample.st)).
Proof.
  split; [reflexivity|].
  pose proof (checkOutParameter_empty_type OutParamExample.W "c"
                OutParamExample.defs OutParamExample.px OutParamExample.st
                ("x", Type_Bits 0 false) eq_refl eq_refl eq_refl)
    as [Hrun [_ [_ [_ Hmem]]]].
  eexists. split; [exact Hrun|]. split; [reflexivity|].
  split; [|apply not_elem_of_empty].
  apply (Hmem ltac:(intros Hactive; discriminate Hactive) _ Hrun).
  right. exists [Some (NodeOther 7)], (NodeOther 7).
  split; [right; left; reflexivity|]. repeat split.
Defined.

(** ** RemoveUnused *)

(** C1.  An assignment whose original node is in [HasUses] is returned as it
    is.  One whose original node is not is replaced: by an empty statement
    when the side-effect analysis of its right-hand side finds no node;
    otherwise the analysis must have counted exactly one side effect and
    found a method call (else the pass fails with an internal error), and the
    assignment becomes a method call statement carrying that call and the
    source info of the assignment. *)
Theorem RemoveUnused_assignment (W : World) (hu : HasUses) (original : Node)
  (id : NodeId) (si : SourceInfo) (lhs rhs : Expression) (fresh : NodeId) :
  let statement := AssignmentStatement id si lhs rhs in
  let se := sideEffects W rhs in
  let result :=
    RemoveUnused.postorder_AssignmentStatement W hu original statement fresh in
  (node_id original ∈ used hu -> result = Ok statement)
  /\ (node_id original ∉ used hu ->
      nodeWithSideEffect se = None ->
      result = Ok (EmptyStatement fresh NoSourceInfo))
  /\ (node_id original ∉ used hu ->
      forall node, nodeWithSideEffect se = Some node ->
        match result with
        | Ok s =>
            sideEffectCount se = 1
            /\ exists mid method arguments,
                 node = NodeExpression
                          (MethodCallExpression mid method arguments)
                 /\ s = MethodCallStatement fresh si
                          (MethodCallExpression mid method arguments)
        | Bug _ =>
            sideEffectCount se <> 1
            \/ forall mid method arguments,
                 node <> NodeExpression
                           (MethodCallExpression mid method arguments)
        | OutOfFuel => False
        end).
Proof.
  intros statement se result. subst statement se result.
  unfold RemoveUnused.postorder_AssignmentStatement, HasUsesOps.hasUses.
  split; [|split].
  - intros Hin. rewrite bool_decide_eq_true_2 by exact Hin. reflexivity.
  - intros Hnin Hnone. rewrite bool_decide_eq_false_2 by exact Hnin.
    simpl. rewrite Hnone. reflexivity.
  - intros Hnin node Hsome. rewrite bool_decide_eq_false_2 by exact Hnin.
    simpl. rewrite Hsome.
    destruct (Nat.eqb (sideEffectCount (sideEffects W rhs)) 1) eqn:Hcount;
      simpl.
    + apply Nat.eqb_eq in Hcount.
      destruct node as [e| | | | | | | | |];
        try (right; intros mid method arguments; discriminate).
      destruct e;
        try (right; intros mid method arguments; discriminate).
      split; [exact Hcount|]. eauto.
    + apply Nat.eqb_neq in Hcount. left. exact Hcount.
Qed.

(** [x = f();] becomes [f();] at the position of the assignment when [x] is
    never read and stays when it is; [x = 1;] with [x] never read goes. *)
Lemma RemoveUnused_assignment_witness :
  ((4 ∉ used HasUsesOps.empty)
   /\ sideEffectCount (sideEffects DeadCallExample.W DeadCallExample.call) = 1
   /\ exists mid method arguments,
        NodeExpression DeadCallExample.call =
        NodeExpression (MethodCallExpression mid method arguments)
        /\ MethodCallStatement 9 (SourcePosition "t.p4" 7)
             DeadCallExample.call =
           MethodCallStatement 9 (SourcePosition "t.p4" 7)
             (MethodCallExpression mid method arguments))
  /\ RemoveUnused.postorder_AssignmentStatement DeadCallExample.W
       {| used := {[4]}; tracker := SliceTracker.default |}
       (NodeStatement DeadCallExample.assign) DeadCallExample.assign 9 =
     Ok DeadCallExample.assign
  /\ RemoveUnused.postorder_AssignmentStatement DeadCallExample.W
       HasUsesOps.empty (NodeStatement DeadCallExample.dead)
       DeadCallExample.dead 9 =
     Ok (EmptyStatement 9 NoSourceInfo).
Proof.
  assert (Hnin4 : 4 ∉ used HasUsesOps.empty) by apply not_elem_of_empty.
  assert (Hnin6 : 6 ∉ used HasUsesOps.empty) by apply not_elem_of_empty.
  assert (Hin : 4 ∈ used {| used := {[4]}; tracker := SliceTracker.default |})
    by (simpl; apply elem_of_singleton_2; reflexivity).
  split; [split; [exact Hnin4|]|split].
  - exact (proj2 (proj2 (RemoveUnused_assignment DeadCallExample.W
      HasUsesOps.empty (NodeStatement DeadCallExample.assign) 4
      (SourcePosition "t.p4" 7) (PathExpression 1 "x") DeadCallExample.call
      9)) Hnin4 (NodeExpression DeadCallExample.call) eq_refl).
  - exact (proj1 (RemoveUnused_assignment DeadCallExample.W
      {| used := {[4]}; tracker := SliceTracker.default |}
      (NodeStatement DeadCallExample.assign) 4
      (SourcePosition "t.p4" 7) (PathExpression 1 "x") DeadCallExample.call
      9) Hin).
  - exact (proj1 (proj2 (RemoveUnused_assignment DeadCallExample.W
      HasUsesOps.empty (NodeStatement DeadCallExample.dead) 6
      NoSourceInfo (PathExpression 1 "x") (Constant 5 1) 9)) Hnin6 eq_refl).
Defined.

(** ** Functions *)

(** C5.  Once the body of a function has been visited, the pass emits
    ERR_INSUFFICIENT for the function if and only if its return type is not
    void and the definitions holding after the body are not marked
    unreachable; a function of void return type never produces the error. *)
Theorem Function_insufficient_return (W : World) (visit0 : Visit W)
  (ctx : list Node) (id : NodeId) (name : string) (returnType : IRType)
  (parameters : list IRParameter) (body : Statement)
  (st st1 : FindUninitialized W) :
  let func := Function id name returnType parameters body in
  visit0 (NodeStatement func :: ctx) (NodeStatement body)
    (Function_entry W func st) = Ok (tt, st1) ->
  let defs := getDefinitions W (currentPoint W st1) in
  exists st2 ds,
    preorder_Function W visit0 ctx func name returnType parameters body st =
    Ok (tt, st2)
    /\ diagnostics W st2 = diagnostics W st1 ++ ds
    /\ (In (insufficientReturn id) ds <->
        is_Type_Void returnType = false /\ isUnreachable W defs = false)
    /\ (forall d, In d ds -> errorType d = ERR_INSUFFICIENT ->
          d = insufficientReturn id /\ is_Type_Void returnType = false).
Proof.
  intros func Hbody defs. subst defs. unfold preorder_Function.
  unfold Function_entry in Hbody.
  assert (Hwarn : forall block ps dfs d,
            In d (flat_map (outParamWarnings W block dfs) ps) ->
            errorType d <> ERR_INSUFFICIENT).
  { intros block ps dfs d Hd. rewrite (outParamWarnings_kind _ _ _ _ _ Hd).
    discriminate. }
  run_monad.
  destruct (virtualMethod W st); simpl in *; fold func; rewrite Hbody;
    (destruct (is_Type_Void returnType) eqn:Hvoid; simpl;
     [|destruct (isUnreachable W (getDefinitions W (currentPoint W st1)))
         eqn:Hunr; simpl]);
    unfold ret, modify; rewrite checkOutParameters_unfold; simpl;
    eexists; eexists; (split; [reflexivity|]); simpl;
    try rewrite <- app_assoc; (split; [reflexivity|]); split.
  all: try (split; [intros Hin; exfalso; exact (Hwarn _ _ _ _ Hin eq_refl)
                   |intros [H1 H2]; congruence]).
  all: try (intros d Hin Hty; exfalso; exact (Hwarn _ _ _ _ Hin Hty)).
  all: try (split; [auto|intros _; left; reflexivity]).
  all: intros d [<-|Hin] Hty; [split; reflexivity|];
    exfalso; exact (Hwarn _ _ _ _ Hin Hty).
Qed.

(** [g] is reported: its return type is [bit<8>] and the definitions after
    its body are reachable. *)
Lemma Function_insufficient_return_witness :
  exists st2 ds,
    preorder_Function MissingReturnExample.W (visit MissingReturnExample.W 10)
      [] MissingReturnExample.g "g" (Type_Bits 8 false) []
      MissingReturnExample.body MissingReturnExample.st = Ok (tt, st2)
    /\ diagnostics MissingReturnExample.W st2 =
       diagnostics MissingReturnExample.W MissingReturnExample.after_body ++ ds
    /\ (In (insufficientReturn 20) ds <-> false = false /\ false = false)
    /\ (forall d, In d ds -> errorType d = ERR_INSUFFICIENT ->
          d = insufficientReturn 20 /\ false = false).
Proof.
  assert (Hbody :
    visit MissingReturnExample.W 10 [NodeStatement MissingReturnExample.g]
      (NodeStatement MissingReturnExample.body)
      (Function_entry MissingReturnExample.W MissingReturnExample.g
         MissingReturnExample.st) =
    Ok (tt, MissingReturnExample.after_body)) by (vm_compute; reflexivity).
  exact (Function_insufficient_return MissingReturnExample.W
           (visit MissingReturnExample.W 10) [] 20 "g" (Type_Bits 8 false) []
           MissingReturnExample.body MissingReturnExample.st
           MissingReturnExample.after_body Hbody).
Defined.

(** ** Parsers *)

(** C6.  Once the states of a parser have been visited, its out parameters
    are checked against the join of the definitions at its accept state and
    the definitions at its reject state.  Hence, when the join keeps the
    before-start of either side, a parameter whose storage is not written on
    one of the two terminal paths is reported. *)
Theorem Parser_out_parameters_join (W : World) (visit0 : Visit W)
  (ctx : list Node) (parser : P4Parser) (st st1 : FindUninitialized W)
  (acceptState rejectState : ParserState) :
  Parser_visit_states W visit0 ctx parser st = Ok (tt, st1) ->
  getDeclByName parser Names.accept = Some acceptState ->
  getDeclByName parser Names.reject = Some rejectState ->
  let acceptdefs :=
    getDefinitions W (ProgramPoint_of (NodeParserState acceptState)) in
  let rejectdefs :=
    getDefinitions W (ProgramPoint_of (NodeParserState rejectState)) in
  let outputDefs := joinDefinitions W acceptdefs rejectdefs in
  preorder_P4Parser W visit0 ctx parser st =
  checkOutParameters W (parser_name parser) (parser_applyParameters parser)
    outputDefs (set_unreachable W false st1)
  /\
  forall p storage,
    In p (parser_applyParameters parser) ->
    isOutOrInOut (direction p) = true ->
    getStorage W (param_id p) = Some storage ->
    typeIsEmpty W (storage_type W storage) = false ->
    let loc := removeHeaders W storage in
    (containsBeforeStart (getPoints W acceptdefs loc)
     || containsBeforeStart (getPoints W rejectdefs loc) = true ->
     containsBeforeStart (getPoints W outputDefs loc) = true) ->
    containsBeforeStart (getPoints W acceptdefs loc) = true
    \/ containsBeforeStart (getPoints W rejectdefs loc) = true ->
    exists st2 ds,
      preorder_P4Parser W visit0 ctx parser st = Ok (tt, st2)
      /\ diagnostics W st2 = diagnostics W st1 ++ ds
      /\ In (outParamWarning (parser_name parser) p) ds.
Proof.
  intros Hstates Haccept Hreject acceptdefs rejectdefs outputDefs.
  assert (Hrun : preorder_P4Parser W visit0 ctx parser st =
    checkOutParameters W (parser_name parser) (parser_applyParameters parser)
      outputDefs (set_unreachable W false st1)).
  { unfold preorder_P4Parser. unfold Parser_visit_states in Hstates.
    unfold bind in *.
    destruct (modify (set_currentPoint W
                (ProgramPoint_of (NodeP4Parser parser))) st)
      as [[[] s0]| |]; try discriminate Hstates.
    destruct (visitVirtualMethods W visit0 ctx (NodeP4Parser parser)
                (parserLocals parser) s0)
      as [[[] s1]| |]; try discriminate Hstates.
    rewrite Hstates. unfold modify. rewrite Haccept, Hreject. reflexivity. }
  split; [exact Hrun|].
  intros p storage Hin Hdir Hstorage Hempty loc Hjoin Hbefore.
  rewrite Hrun, checkOutParameters_unfold. simpl.
  eexists. eexists. split; [reflexivity|]. simpl. split; [reflexivity|].
  apply in_flat_map. exists p. split; [exact Hin|].
  unfold outParamWarnings. rewrite Hdir, Hstorage, Hempty. simpl.
  fold loc. rewrite Hjoin; [left; reflexivity|].
  destruct Hbefore as [-> | ->]; [reflexivity|apply orb_true_r].
Qed.

(** [md] is written on the way to accept only, and is reported. *)
Lemma Parser_out_parameters_join_witness :
  containsBeforeStart
    (getPoints ParserJoinExample.W
       (getDefinitions ParserJoinExample.W
          (ProgramPoint_of (NodeParserState ParserJoinExample.accept)))
       ["md"]) = false
  /\ exists st2 ds,
       preorder_P4Parser ParserJoinExample.W (visit ParserJoinExample.W 10) []
         ParserJoinExample.p ParserJoinExample.st = Ok (tt, st2)
       /\ diagnostics ParserJoinExample.W st2 =
          diagnostics ParserJoinExample.W ParserJoinExample.after_states ++ ds
       /\ In (outParamWarning "p" ParserJoinExample.md) ds.
Proof.
  split; [reflexivity|].
  assert (Hstates :
    Parser_visit_states ParserJoinExample.W (visit ParserJoinExample.W 10) []
      ParserJoinExample.p ParserJoinExample.st =
    Ok (tt, ParserJoinExample.after_states)) by (vm_compute; reflexivity).
  exact (proj2 (Parser_out_parameters_join ParserJoinExample.W
                  (visit ParserJoinExample.W 10) [] ParserJoinExample.p
                  ParserJoinExample.st ParserJoinExample.after_states
                  ParserJoinExample.accept ParserJoinExample.reject
                  Hstates eq_refl eq_refl)
           ParserJoinExample.md ("md", Type_Bits 8 false)
           (or_introl eq_refl) eq_refl eq_refl eq_refl
           (fun _ => eq_refl) (or_intror eq_refl)).
Defined.

(** ** Members of a stack *)

(** With reporting off, [registerUses] only ever changes [hasUses]. *)
Lemma registerUses_suppressed (W : World) (ctx : list Node) (e : Expression)
  (st : FindUninitialized W) :
  exists hu, registerUses W ctx e false st = Ok (tt, set_hasUses W hu st).
Proof.
  rewrite registerUses_unfold. simpl.
  assert (Hsame : Ok (tt, st) = Ok (tt, set_hasUses W (hasUses W st) st))
    by (destruct st; reflexivity).
  destruct (negb (isFinalRead ctx e)); [eauto|].
  destruct (isUnreachable W _); [eauto|].
  destruct (readLocations W st !! expr_id e) as [read|]; [|eauto].
  destruct (isEmpty W read); eauto.
Qed.

(** C7.  For a member of an expression of stack type, once the base has been
    visited: for [next] and [last] the read set is the read set of the base,
    and it is registered as a use without the uninitialized-use warning;
    WARN_UNINITIALIZED is emitted in addition exactly for [next] outside a
    left-hand side, so [last] never warns; for [lastIndex] the read set is
    the last-index projection of the read set of the base, registered
    without warning.  Registered as a use: when the member is a final read,
    the current definitions are reachable and the read set is not empty,
    the set holds afterwards the last node of every point that reaches the
    read set and that the tracker does not skip, and nothing new besides. *)
Theorem Member_of_stack (W : World) (visit0 : Visit W) (ctx : list Node)
  (id : NodeId) (expr : Expression) (member : string)
  (st st1 : FindUninitialized W) (storage : LocationSet W)
  (type basetype : IRType) :
  let expression := Member id expr member in
  visit0 (NodeExpression expression :: ctx) (NodeExpression expr) st
    = Ok (tt, st1) ->
  (forall tid tn, expr <> TypeNameExpression tid tn) ->
  isHit W expression = false ->
  isActionRun W expression = false ->
  getType W id = Some type -> is_Type_Method type = false ->
  readLocations W st1 !! expr_id expr = Some storage ->
  getType W (expr_id expr) = Some basetype ->
  is_Type_Stack basetype = true ->
  unreachable W st1 = false ->
  let recorded (loc : LocationSet W) :=
    set_readLocations W (<[id := loc]> (readLocations W st1)) st1 in
  let defs := getDefinitions W (currentPoint W st1) in
  let uses (loc : LocationSet W) (hu : HasUses) :=
    isFinalRead ctx expression = true ->
    isUnreachable W defs = false ->
    isEmpty W loc = false ->
    add_returns (hasUses W st1) (getPoints W defs loc) ->
    forall x,
      x ∈ used hu <->
      x ∈ used (hasUses W st1)
      \/ added (tracker (hasUses W st1)) (getPoints W defs loc) x in
  (member = Names.next \/ member = Names.last ->
   exists st2 hu,
     preorder_Member W visit0 ctx expression expr member st = Ok (tt, st2)
     /\ readLocations W st2 !! id = Some storage
     /\ registerUses W ctx expression false (recorded storage) =
        Ok (tt, set_hasUses W hu (recorded storage))
     /\ hasUses W st2 = hu
     /\ diagnostics W st2 =
        diagnostics W st1 ++
        (if negb (lhs W st1) && String.eqb member Names.next
         then [readingNext id] else [])
     /\ uses storage hu)
  /\
  (member = Names.lastIndex ->
   exists st2 hu,
     preorder_Member W visit0 ctx expression expr member st = Ok (tt, st2)
     /\ readLocations W st2 !! id = Some (getArrayLastIndex W storage)
     /\ registerUses W ctx expression false
          (recorded (getArrayLastIndex W storage)) =
        Ok (tt, set_hasUses W hu (recorded (getArrayLastIndex W storage)))
     /\ hasUses W st2 = hu
     /\ diagnostics W st2 = diagnostics W st1
     /\ uses (getArrayLastIndex W storage) hu).
Proof.
  intros expression Hvisit Hname Hhit Hrun Htype Hmethod Hreads Hbase Hstack
    Hreach recorded defs uses.
  assert (Huses : forall loc hu,
    registerUses W ctx expression false (recorded loc) =
    Ok (tt, set_hasUses W hu (recorded loc)) ->
    uses loc hu).
  { intros loc hu Hreg Hfinal Hdefs Hloc _ x.
    rewrite registerUses_unfold in Hreg. rewrite Hfinal in Hreg.
    subst recorded. cbv beta in Hreg.
    cbn [negb currentPoint set_readLocations readLocations] in Hreg.
    fold defs in Hreg. rewrite Hdefs in Hreg.
    subst expression. cbn [expr_id] in Hreg.
    rewrite lookup_insert_eq, Hloc in Hreg.
    cbn [andb hasUses lhs] in Hreg.
    assert (Hhu : hu = HasUsesOps.add (hasUses W st1) (getPoints W defs loc)).
    { inversion Hreg. reflexivity. }
    rewrite Hhu. apply add_used_iff. }
  subst expression recorded uses. cbv beta in Huses. cbv beta.
  assert (Hnot : forall (A : Type) (a b : A),
    match expr with TypeNameExpression _ _ => a | _ => b end = b).
  { intros A a b. destruct expr; try reflexivity.
    exfalso. eapply Hname. reflexivity. }
  assert (Hstep : preorder_Member W visit0 ctx (Member id expr member) expr
                    member st =
    (if String.eqb member Names.next || String.eqb member Names.last
     then
       bind (reads W (Member id expr member) storage) (fun _ =>
       bind (registerUses W ctx (Member id expr member) false) (fun _ =>
       bind (gets (lhs W)) (fun isLhs =>
         when (negb isLhs && String.eqb member Names.next)
           (warning W WARN_UNINITIALIZED "%1%: reading uninitialized value"
              [ArgNode id]))))
     else if String.eqb member Names.lastIndex
     then
       bind (reads W (Member id expr member) (getArrayLastIndex W storage))
         (fun _ => registerUses W ctx (Member id expr member) false)
     else
       bind (reads W (Member id expr member) (getField W storage member))
         (fun _ => registerUses W ctx (Member id expr member) true)) st1).
  { unfold preorder_Member. unfold bind at 1. rewrite Hvisit.
    rewrite Hnot. rewrite Hhit, Hrun. simpl. rewrite Htype, Hmethod.
    unfold bind at 1. unfold getReadsNonNull, getReads. unfold bind at 1.
    rewrite Hreads. unfold ret at 1. rewrite Hbase, Hstack. reflexivity. }
  rewrite Hstep. clear Hstep.
  split.
  - intros Hmember.
    assert (Hnl : String.eqb member Names.next || String.eqb member Names.last
                  = true).
    { destruct Hmember as [-> | ->]; reflexivity. }
    rewrite Hnl.
    destruct (registerUses_suppressed W ctx (Member id expr member)
                (set_readLocations W (<[id := storage]> (readLocations W st1))
                   st1)) as [hu Hreg].
    unfold bind, reads. rewrite Hreach. simpl expr_id. rewrite Hreg.
    unfold gets, when, warning, modify, ret. simpl.
    destruct (negb (lhs W st1) && String.eqb member Names.next); simpl.
    + eexists. exists hu. split; [reflexivity|]. simpl.
      split; [apply lookup_insert_eq|]. split; [reflexivity|].
      split; [reflexivity|]. split; [reflexivity|].
      exact (Huses storage hu Hreg).
    + eexists. exists hu. split; [reflexivity|]. simpl.
      split; [apply lookup_insert_eq|]. split; [reflexivity|].
      split; [reflexivity|].
      split; [rewrite app_nil_r; reflexivity|].
      exact (Huses storage hu Hreg).
  - intros ->.
    change (String.eqb Names.lastIndex Names.next
            || String.eqb Names.lastIndex Names.last) with false.
    change (String.eqb Names.lastIndex Names.lastIndex) with true.
    cbv iota.
    destruct (registerUses_suppressed W ctx (Member id expr Names.lastIndex)
                (set_readLocations W
                   (<[id := getArrayLastIndex W storage]> (readLocations W st1))
                   st1)) as [hu Hreg].
    unfold bind, reads. rewrite Hreach. simpl expr_id. rewrite Hreg.
    eexists. exists hu. split; [reflexivity|]. simpl.
    split; [apply lookup_insert_eq|]. split; [reflexivity|].
    split; [reflexivity|]. split; [reflexivity|].
    exact (Huses (getArrayLastIndex W storage) hu Hreg).
Qed.

(** On a right-hand side [hs.next] reads [hs] and warns, [hs.last] reads
    [hs] and does not, [hs.lastIndex] reads the last index of [hs]; the
    writer of [hs] at node 10, and that of its last index at node 11, are in
    the set afterwards. *)
Lemma Member_of_stack_witness :
  (exists st2,
     preorder_Member StackNextExample.W (visit StackNextExample.W 5) []
       StackNextExample.next StackNextExample.hs "next" StackNextExample.st
     = Ok (tt, st2)
     /\ readLocations StackNextExample.W st2 !! 2 = Some ["hs"]
     /\ diagnostics StackNextExample.W st2 = [readingNext 2]
     /\ 10 ∈ used (hasUses StackNextExample.W st2))
  /\ (exists st2,
        preorder_Member StackNextExample.W (visit StackNextExample.W 5) []
          StackNextExample.last StackNextExample.hs "last" StackNextExample.st
        = Ok (tt, st2)
        /\ readLocations StackNextExample.W st2 !! 3 = Some ["hs"]
        /\ diagnostics StackNextExample.W st2 = []
        /\ 10 ∈ used (hasUses StackNextExample.W st2))
  /\ (exists st2,
        preorder_Member StackNextExample.W (visit StackNextExample.W 5) []
          StackNextExample.lastIndex StackNextExample.hs "lastIndex"
          StackNextExample.st
        = Ok (tt, st2)
        /\ readLocations StackNextExample.W st2 !! 4 = Some ["hs.$lastIndex"]
        /\ diagnostics StackNextExample.W st2 = []
        /\ 11 ∈ used (hasUses StackNextExample.W st2))
  /\ (10 ∉ used (hasUses StackNextExample.W StackNextExample.after_base))
  /\ (11 ∉ used (hasUses StackNextExample.W StackNextExample.after_base)).
Proof.
  assert (Hbase : forall e,
    In e [StackNextExample.next; StackNextExample.last;
          StackNextExample.lastIndex] ->
    visit StackNextExample.W 5 [NodeExpression e]
      (NodeExpression StackNextExample.hs) StackNextExample.st =
    Ok (tt, StackNextExample.after_base))
    by (intros e [<-|[<-|[<-|[]]]]; vm_compute; reflexivity).
  assert (Hname : forall tid tn,
            StackNextExample.hs <> TypeNameExpression tid tn)
    by (intros tid tn; discriminate).
  assert (Hreads :
    readLocations StackNextExample.W StackNextExample.after_base !! 1 =
    Some ["hs"]) by (vm_compute; reflexivity).
  assert (Hidle :
    SliceTracker.isActive
      (tracker (hasUses StackNextExample.W StackNextExample.after_base))
    = false) by (vm_compute; reflexivity).
  assert (Hreturns : forall points,
    add_returns (hasUses StackNextExample.W StackNextExample.after_base)
      points).
  { intros points Hactive. rewrite Hidle in Hactive. discriminate Hactive. }
  assert (Hempty :
    used (hasUses StackNextExample.W StackNextExample.after_base) = ∅)
    by (vm_compute; reflexivity).
  split; [|split; [|split; [|split]]].
  - destruct (proj1 (Member_of_stack StackNextExample.W
                       (visit StackNextExample.W 5) [] 2 StackNextExample.hs
                       "next" StackNextExample.st StackNextExample.after_base
                       ["hs"] (Type_Header "H") StackNextExample.stack
                       (Hbase _ (or_introl eq_refl)) Hname eq_refl eq_refl
                       eq_refl eq_refl Hreads eq_refl eq_refl eq_refl)
                (or_introl eq_refl))
      as [st2 [hu [Hrun [Hrl [_ [Hhu [Hd Huses]]]]]]].
    exists st2. split; [exact Hrun|]. split; [exact Hrl|].
    split; [exact Hd|]. rewrite Hhu.
    apply (Huses eq_refl eq_refl eq_refl (Hreturns _)).
    right. exists [Some (NodeOther 10)], (NodeOther 10).
    split; [left; reflexivity|]. repeat split.
  - destruct (proj1 (Member_of_stack StackNextExample.W
                       (visit StackNextExample.W 5) [] 3 StackNextExample.hs
                       "last" StackNextExample.st StackNextExample.after_base
                       ["hs"] (Type_Header "H") StackNextExample.stack
                       (Hbase _ (or_intror (or_introl eq_refl))) Hname eq_refl
                       eq_refl eq_refl eq_refl Hreads eq_refl eq_refl eq_refl)
                (or_intror eq_refl))
      as [st2 [hu [Hrun [Hrl [_ [Hhu [Hd Huses]]]]]]].
    exists st2. split; [exact Hrun|]. split; [exact Hrl|].
    split; [exact Hd|]. rewrite Hhu.
    apply (Huses eq_refl eq_refl eq_refl (Hreturns _)).
    right. exists [Some (NodeOther 10)], (NodeOther 10).
    split; [left; reflexivity|]. repeat split.
  - destruct (proj2 (Member_of_stack StackNextExample.W
                       (visit StackNextExample.W 5) [] 4 StackNextExample.hs
                       "lastIndex" StackNextExample.st
                       StackNextExample.after_base
                       ["hs"] (Type_Bits 32 false) StackNextExample.stack
                       (Hbase _ (or_intror (or_intror (or_introl eq_refl))))
                       Hname eq_refl eq_refl eq_refl eq_refl Hreads eq_refl
                       eq_refl eq_refl)
                eq_refl)
      as [st2 [hu [Hrun [Hrl [_ [Hhu [Hd Huses]]]]]]].
    exists st2. split; [exact Hrun|]. split; [exact Hrl|].
    split; [exact Hd|]. rewrite Hhu.
    apply (Huses eq_refl eq_refl eq_refl (Hreturns _)).
    right. exists [Some (NodeOther 11)], (NodeOther 11).
    split; [left; reflexivity|]. repeat split.
  - rewrite Hempty. apply not_elem_of_empty.
  - rewrite Hempty. apply not_elem_of_empty.
Defined.

(** ** Slice overwrites

    The visit of [x[h:l] = e] with [x] a path, step by step; the statement
    about covering slice writes closes the file, after the lemmas on what a
    visit keeps. *)







(** ** The tracker after a slice *)

Lemma bind_Ok_inv (W : World) (A B : Type) (c : M W A) (k : A -> M W B)
  (st st' : FindUninitialized W) (b : B) :
  bind c k st = Ok (b, st') ->
  exists a s, c st = Ok (a, s) /\ k a s = Ok (b, st').
Proof.
  unfold bind. destruct (c st) as [[a s]| |]; try discriminate. eauto.
Qed.

(** C10.  When the visit of a slice returns, the tracker is idle:
    [doneWatching] ends the visit whether or not the slice started the
    tracker.  So a slice that is the base of the slice on the left of an
    assignment leaves the tracker idle while the visit of the outer slice,
    which started it, still has its own uses to register. *)
Theorem Slice_leaves_tracker_idle (W : World) (visit0 : Visit W)
  (fuel : nat) (ctx : list Node) (id : NodeId) (e0 : Expression) (h l : N)
  (st st' : FindUninitialized W) :
  let expression := Slice id e0 h l in
  (preorder_Slice W visit0 ctx expression e0 st = Ok (tt, st') ->
   SliceTracker.isActive (tracker (hasUses W st')) = false)
  /\
  (forall iid e00 h2 l2 enclosing,
     e0 = Slice iid e00 h2 l2 ->
     findContext_AssignmentStatement ctx = Some enclosing ->
     lhs W st = true ->
     SliceTracker.isActive (tracker (hasUses W st)) = false ->
     preorder_Slice W (visit W (S fuel)) ctx expression e0 st = Ok (tt, st') ->
     exists st1 st2,
       tracker (hasUses W st1) = SliceTracker.tracking expression
       /\ visit W (S fuel) (NodeExpression expression :: ctx)
            (NodeExpression e0) st1 = Ok (tt, st2)
       /\ SliceTracker.isActive (tracker (hasUses W st2)) = false
       /\ Slice_after_base W ctx expression e0 true st2 = Ok (tt, st')).
Proof.
  intros expression.
  assert (Hidle : forall (v : Visit W) c e b s s',
            preorder_Slice W v c e b s = Ok (tt, s') ->
            SliceTracker.isActive (tracker (hasUses W s')) = false).
  { intros v c e b s s' Hrun. unfold preorder_Slice in Hrun.
    repeat (apply bind_Ok_inv in Hrun; destruct Hrun as [? [? [_ Hrun]]]).
    unfold doneWatching, modify in Hrun. inversion Hrun. reflexivity. }
  split; [apply Hidle|].
  intros iid e00 h2 l2 enclosing -> Hctx Hlhs Hinactive Hrun.
  unfold preorder_Slice in Hrun. rewrite Hctx in Hrun.
  unfold bind at 1 in Hrun. unfold gets at 1 in Hrun. rewrite Hlhs in Hrun.
  simpl andb in Hrun. unfold when at 1 in Hrun.
  unfold bind at 1 in Hrun. unfold watchForOverwrites at 1 in Hrun.
  unfold HasUsesOps.watchForOverwrites in Hrun. rewrite Hinactive in Hrun.
  unfold bind at 1 in Hrun. unfold gets at 1 in Hrun.
  unfold bind at 1 in Hrun. unfold modify at 1 in Hrun.
  cbn [lhs set_hasUses] in Hrun. rewrite Hlhs in Hrun.
  apply bind_Ok_inv in Hrun. destruct Hrun as [[] [st2 [Hinner Hrest]]].
  eexists. exists st2. split; [|split; [exact Hinner|split]].
  - reflexivity.
  - exact (Hidle (visit W fuel) _ _ _ _ _ Hinner).
  - exact Hrest.
Qed.

(** In [a[7:0][7:0] = 1] the inner slice ends the tracking the outer slice
    began, and the uses of the outer slice are registered unfiltered: the
    earlier write [a[7:4] = 0xA], although covered, is recorded as used. *)
Lemma Slice_leaves_tracker_idle_witness :
  preorder_Slice NestedSliceExample.W (visit NestedSliceExample.W 5)
    [NodeStatement NestedSliceExample.later] NestedSliceExample.outer
    NestedSliceExample.inner NestedSliceExample.st =
  Ok (tt, NestedSliceExample.after_outer)
  /\ SliceTracker.isActive
       (tracker (hasUses NestedSliceExample.W NestedSliceExample.after_outer))
     = false
  /\ (exists st1 st2,
        tracker (hasUses NestedSliceExample.W st1) =
        SliceTracker.tracking NestedSliceExample.outer
        /\ visit NestedSliceExample.W 5
             [NodeExpression NestedSliceExample.outer;
              NodeStatement NestedSliceExample.later]
             (NodeExpression NestedSliceExample.inner) st1 = Ok (tt, st2)
        /\ SliceTracker.isActive (tracker (hasUses NestedSliceExample.W st2))
           = false
        /\ Slice_after_base NestedSliceExample.W
             [NodeStatement NestedSliceExample.later] NestedSliceExample.outer
             NestedSliceExample.inner true st2 =
           Ok (tt, NestedSliceExample.after_outer))
  /\ HasUsesOps.hasUses
       (hasUses NestedSliceExample.W NestedSliceExample.after_outer) 10 = true.
Proof.
  assert (Hrun :
    preorder_Slice NestedSliceExample.W (visit NestedSliceExample.W 5)
      [NodeStatement NestedSliceExample.later] NestedSliceExample.outer
      NestedSliceExample.inner NestedSliceExample.st =
    Ok (tt, NestedSliceExample.after_outer)) by (vm_compute; reflexivity).
  split; [exact Hrun|]. split; [|split].
  - exact (proj1 (Slice_leaves_tracker_idle NestedSliceExample.W
                    (visit NestedSliceExample.W 5) 4
                    [NodeStatement NestedSliceExample.later] 12
                    NestedSliceExample.inner 7 0 NestedSliceExample.st
                    NestedSliceExample.after_outer) Hrun).
  - exact (proj2 (Slice_leaves_tracker_idle NestedSliceExample.W
                    (visit NestedSliceExample.W 5) 4
                    [NodeStatement NestedSliceExample.later] 12
                    NestedSliceExample.inner 7 0 NestedSliceExample.st
                    NestedSliceExample.after_outer)
             13 (PathExpression 1 "a") 7%N 0%N NestedSliceExample.later
             eq_refl eq_refl eq_refl eq_refl Hrun).
  - vm_compute. reflexivity.
Defined.

(** ** Writes to header fields *)


Lemma headerTest_skipped (W : World) (ctx : list Node)
  (expr parent : Expression) (loc loc' : LocationSet W)
  (st st' : FindUninitialized W) :
  (isHeader W parent = true -> same_expr expr parent = true) ->
  headerTest W ctx expr parent loc st = Ok (loc', st') ->
  st' = st /\ loc' = loc.
Proof.
  unfold headerTest, isHeader. intros Hskip.
  destruct (getType W (expr_id parent)) as [type|];
    [|unfold bug; discriminate].
  destruct (is_Type_Header type).
  - rewrite (Hskip eq_refl). simpl. unfold ret. intros H; inversion H; auto.
  - unfold ret. intros H; inversion H; auto.
Qed.



(** The function, one level at a time. *)
Lemma checkHeaderFieldWrite_unfold (W : World) (ctx : list Node)
  (expr parent : Expression) :
  checkHeaderFieldWrite W ctx expr parent =
  bind
    (match parent with
     | Member _ mem_expr member =>
         bind (checkHeaderFieldWrite W ctx expr mem_expr) (fun loc =>
         ret (getField W loc member))
     | ArrayIndex _ ai_left ai_right =>
         bind (checkHeaderFieldWrite W ctx expr ai_left) (fun loc =>
         match ai_right with
         | Constant _ index => ret (getIndex W loc index)
         | _ => ret loc
         end)
     | PathExpression pe _ =>
         match getDeclaration W pe with
         | None => bug "Could not find declaration for %1%"
         | Some decl =>
             match getStorage W decl with
             | Some storage => ret (LocationSet_of W storage)
             | None => ret (LocationSet_empty W)
             end
         end
     | Slice _ e0 _ _ => checkHeaderFieldWrite W ctx expr e0
     | _ => bug "%1%: unexpected expression on LHS"
     end)
    (headerTest W ctx expr parent).
Proof.
  destruct parent; reflexivity.
Qed.

(** No walked expression is a header other than [expr]: nothing happens. *)
Lemma checkHeaderFieldWrite_unchanged (W : World) (ctx : list Node)
  (expr parent : Expression) :
  forall (st st' : FindUninitialized W) (loc : LocationSet W),
    checkHeaderFieldWrite W ctx expr parent st = Ok (loc, st') ->
    (forall p, In p (walked parent) -> isHeader W p = true ->
               same_expr expr p = true) ->
    st' = st.
Proof.
  induction parent; intros st st' loc Hrun Hnone;
    rewrite checkHeaderFieldWrite_unfold in Hrun;
    apply bind_Ok_inv in Hrun; destruct Hrun as [loc0 [s0 [Hdown Htest]]];
    (apply headerTest_skipped in Htest;
     [destruct Htest as [-> _]|apply Hnone; left; reflexivity]);
    try (unfold bug in Hdown; discriminate Hdown).
  - (* PathExpression *)
    destruct (getDeclaration W id); [|discriminate Hdown].
    destruct (getStorage W n); inversion Hdown; reflexivity.
  - (* Member *)
    apply bind_Ok_inv in Hdown. destruct Hdown as [loc1 [s1 [Hdown Hret]]].
    inversion Hret; subst. eapply IHparent; [exact Hdown|].
    intros p Hp. apply Hnone. right. exact Hp.
  - (* ArrayIndex *)
    apply bind_Ok_inv in Hdown. destruct Hdown as [loc1 [s1 [Hdown Hret]]].
    assert (s0 = s1) by (destruct parent2; inversion Hret; reflexivity).
    subst. eapply IHparent1; [exact Hdown|].
    intros p Hp. apply Hnone. right. exact Hp.
  - (* Slice *)
    eapply IHparent; [exact Hdown|].
    intros p Hp. apply Hnone. right. exact Hp.
Qed.












(** * Further properties of the pass *)

(** ** HasUses.add *)

(** X1.  Where [add] returns (while the tracker is active, every point is
    before start or has a last node, so that [overwrites] has a node to look
    at), it inserts exactly the last nodes of the points the tracker does not
    skip: a node is in the set afterwards if and only if it was there before
    or it is the last node of such a point.  Points before start add
    nothing, nothing is ever removed, and the tracker is left as it is. *)
Theorem add_elem_of (points : ProgramPoints) (hu : HasUses) (x : NodeId) :
  add_returns hu points ->
  (x ∈ used (HasUsesOps.add hu points) <->
   x ∈ used hu
   \/ exists e n, In e points
                  /\ SliceTracker.overwrites (tracker hu) e = false
                  /\ pp_last e = Some n /\ node_id n = x)
  /\ tracker (HasUsesOps.add hu points) = tracker hu
  /\ HasUsesOps.add hu (beforeStart :: points) = HasUsesOps.add hu points.
Proof.
  intros _. split; [|split; [apply add_tracker|]].
  - exact (add_used_iff points hu x).
  - unfold HasUsesOps.add. simpl. unfold HasUsesOps.add_point at 2.
    unfold SliceTracker.overwrites. simpl.
    destruct (negb (SliceTracker.isActive (tracker hu))); reflexivity.
Qed.

(** While [a[7:0]] is tracked, of the points before start, [a[7:4] = 0xA]
    and node 9, [add] inserts node 9 only. *)
Lemma add_elem_of_witness :
  add_returns SliceOverwriteExample.tracking SliceOverwriteExample.points
  /\ 9 ∈ used (HasUsesOps.add SliceOverwriteExample.tracking
                 SliceOverwriteExample.points)
  /\ (10 ∉ used (HasUsesOps.add SliceOverwriteExample.tracking
                   SliceOverwriteExample.points)).
Proof.
  assert (Hreturns : add_returns SliceOverwriteExample.tracking
                       SliceOverwriteExample.points).
  { intros _ e [<-|[<-|[<-|[]]]];
      [left; reflexivity|right; discriminate|right; discriminate]. }
  split; [exact Hreturns|]. split.
  - apply (proj1 (add_elem_of SliceOverwriteExample.points
                    SliceOverwriteExample.tracking 9 Hreturns)).
    right. exists [Some (NodeOther 9)], (NodeOther 9).
    repeat split. right. right. left. reflexivity.
  - intros Hin.
    apply (proj1 (add_elem_of SliceOverwriteExample.points
                    SliceOverwriteExample.tracking 10 Hreturns)) in Hin.
    destruct Hin as [Hin|[e [n [Hin [Hov [Hlast Hid]]]]]].
    + exact (not_elem_of_empty 10 Hin).
    + destruct Hin as [<-|[<-|[<-|[]]]].
      * discriminate Hlast.
      * discriminate Hov.
      * inversion Hlast. subst n. discriminate Hid.
Defined.

(** ** The read sets *)

(** X3.  [reads] followed by [getReads]: while the visitor is reachable,
    [reads] records the location set under the expression, replacing what
    was recorded for it and nothing else, and [getReads] returns it; once
    unreachable, [reads] is an internal error.  [getReads] of an expression
    nothing was recorded for is null, an internal error when the caller
    asked for a non-null result. *)
Theorem reads_then_getReads (W : World) (expression : Expression)
  (loc : LocationSet W) (st : FindUninitialized W) :
  (unreachable W st = false ->
   exists st1,
     reads W expression loc st = Ok (tt, st1)
     /\ (forall nonNull,
           getReads W expression nonNull st1 = Ok (Some loc, st1))
     /\ (forall other nonNull,
           expr_id other <> expr_id expression ->
           getReads W other nonNull st1 =
           match getReads W other nonNull st with
           | Ok (r, _) => Ok (r, st1)
           | Bug msg => Bug msg
           | OutOfFuel => OutOfFuel
           end)
     /\ hasUses W st1 = hasUses W st
     /\ diagnostics W st1 = diagnostics W st)
  /\ (unreachable W st = true ->
      exists msg, reads W expression loc st = Bug msg)
  /\ (readLocations W st !! expr_id expression = None ->
      getReads W expression false st = Ok (None, st)
      /\ exists msg, getReads W expression true st = Bug msg).
Proof.
  unfold reads, getReads. split; [|split].
  - intros ->. eexists. split; [reflexivity|]. simpl.
    split; [intros nonNull; rewrite lookup_insert_eq; reflexivity|].
    split; [|split; reflexivity].
    intros other nonNull Hne. rewrite lookup_insert_ne by auto.
    destruct (readLocations W st !! expr_id other); [reflexivity|].
    destruct nonNull; reflexivity.
  - intros ->. eauto.
  - intros ->. split; [reflexivity|eauto].
Qed.

Lemma reads_then_getReads_witness :
  (exists st1,
     reads ReadsExample.W ReadsExample.x ["x"] ReadsExample.st = Ok (tt, st1)
     /\ (forall nonNull,
           getReads ReadsExample.W ReadsExample.x nonNull st1
           = Ok (Some ["x"], st1))
     /\ (forall other nonNull,
           expr_id other <> 1 ->
           getReads ReadsExample.W other nonNull st1 =
           match getReads ReadsExample.W other nonNull ReadsExample.st with
           | Ok (r, _) => Ok (r, st1)
           | Bug msg => Bug msg
           | OutOfFuel => OutOfFuel
           end)
     /\ hasUses ReadsExample.W st1 = HasUsesOps.empty
     /\ diagnostics ReadsExample.W st1 = [])
  /\ (exists msg,
        reads ReadsExample.W ReadsExample.x ["x"]
          (set_unreachable ReadsExample.W true ReadsExample.st) = Bug msg)
  /\ (getReads ReadsExample.W ReadsExample.x false ReadsExample.st
      = Ok (None, ReadsExample.st)
      /\ exists msg,
           getReads ReadsExample.W ReadsExample.x true ReadsExample.st
           = Bug msg).
Proof.
  split; [|split].
  - exact (proj1 (reads_then_getReads ReadsExample.W ReadsExample.x ["x"]
                    ReadsExample.st) eq_refl).
  - exact (proj1 (proj2 (reads_then_getReads ReadsExample.W ReadsExample.x
                           ["x"]
                           (set_unreachable ReadsExample.W true
                              ReadsExample.st))) eq_refl).
  - exact (proj2 (proj2 (reads_then_getReads ReadsExample.W ReadsExample.x
                           ["x"] ReadsExample.st)) eq_refl).
Defined.

(** ** checkOutParameters as a whole *)



(** ** RemoveUnused on call statements *)

(** X11.  A method call statement is returned as it is when its original
    node is in [HasUses] or the call has a side effect, and is replaced by
    an empty statement otherwise: the transform never fails on it and never
    drops a call with a side effect. *)
Theorem RemoveUnused_call_statement (W : World) (hu : HasUses)
  (original : Node) (id : NodeId) (si : SourceInfo) (call : Expression)
  (fresh : NodeId) :
  let mcs := MethodCallStatement id si call in
  let result :=
    RemoveUnused.postorder_MethodCallStatement W hu original mcs fresh in
  (result = Ok mcs \/ result = Ok (EmptyStatement fresh NoSourceInfo))
  /\ (result = Ok (EmptyStatement fresh NoSourceInfo) <->
      (node_id original ∉ used hu) /\ hasSideEffect W call = false).
Proof.
  intros mcs result. subst mcs result.
  unfold RemoveUnused.postorder_MethodCallStatement, HasUsesOps.hasUses.
  destruct (decide (node_id original ∈ used hu)) as [Hin|Hnin].
  - rewrite bool_decide_eq_true_2 by exact Hin. simpl.
    split; [left; reflexivity|].
    split; [intros H; discriminate H|intros [H _]; contradiction].
  - rewrite bool_decide_eq_false_2 by exact Hnin. simpl.
    destruct (hasSideEffect W call).
    + split; [left; reflexivity|].
      split; [intros H; discriminate H|intros [_ H]; discriminate H].
    + split; [right; reflexivity|]. split; auto.
Qed.

(** ** Nested tracking *)

(** X2.  A slice visited as a left-hand side inside an assignment while the
    tracker is already watching a slice makes the pass fail with the
    internal error of [watchForOverwrites], before anything is visited. *)
Theorem Slice_while_watching_fails (W : World) (visit0 : Visit W)
  (ctx : list Node) (expression e0 : Expression) (enclosing : Statement)
  (st : FindUninitialized W) :
  findContext_AssignmentStatement ctx = Some enclosing ->
  lhs W st = true ->
  SliceTracker.isActive (tracker (hasUses W st)) = true ->
  preorder_Slice W visit0 ctx expression e0 st =
  Bug "Call to SliceTracker, but it's already active".
Proof.
  intros Hctx Hlhs Hactive. unfold preorder_Slice. rewrite Hctx.
  unfold bind at 1. unfold gets at 1. rewrite Hlhs. simpl andb.
  unfold when at 1. unfold bind at 1. unfold watchForOverwrites.
  unfold HasUsesOps.watchForOverwrites. rewrite Hactive. reflexivity.
Qed.

(** The failure is reached by the traversal of
    [a[g(b[3:0])][7:0] = 1;]. *)
Lemma Slice_while_watching_fails_witness :
  preorder_Slice NestedWatchExample.W (visit NestedWatchExample.W 5)
    [NodeExpression NestedWatchExample.call;
     NodeStatement NestedWatchExample.later] NestedWatchExample.arg
    (PathExpression 17 "b") NestedWatchExample.watching =
  Bug "Call to SliceTracker, but it's already active"
  /\ visit NestedWatchExample.W 10 [] (NodeStatement NestedWatchExample.later)
       NestedWatchExample.st =
     Bug "Call to SliceTracker, but it's already active".
Proof.
  split.
  - exact (Slice_while_watching_fails NestedWatchExample.W
             (visit NestedWatchExample.W 5)
             [NodeExpression NestedWatchExample.call;
              NodeStatement NestedWatchExample.later]
             NestedWatchExample.arg (PathExpression 17 "b")
             NestedWatchExample.later NestedWatchExample.watching
             eq_refl eq_refl eq_refl).
  - vm_compute. reflexivity.
Defined.

(** ** Reachability after a switch *)

Lemma switchCases_without_bodies (W : World) (visit0 : Visit W)
  (ctx : list Node) (self : Node) (saveCurrent : ProgramPoint)
  (saveUnreachable : bool) (cases : list SwitchCase) (final : bool)
  (st : FindUninitialized W) :
  Forall (fun c => match c with MkSwitchCase _ _ s => s = None end) cases ->
  switchCases W visit0 ctx self saveCurrent saveUnreachable cases final st =
  Ok (final, st).
Proof.
  induction 1 as [|c cases Hc _ IH]; [reflexivity|].
  destruct c as [id label s]. simpl in Hc. subst s. exact IH.
Qed.

(** X10.  A switch statement none of whose cases has a body, an empty
    switch in particular, leaves the visitor unreachable: [finalUnreachable]
    starts out true and only the cases with a body can clear it.  The
    statements that follow in the block are then not looked at. *)
Theorem Switch_without_bodies (W : World) (visit0 : Visit W)
  (ctx : list Node) (id : NodeId) (expression : Expression)
  (cases : list SwitchCase) (st st' : FindUninitialized W) :
  unreachable W st = false ->
  Forall (fun c => match c with MkSwitchCase _ _ s => s = None end) cases ->
  preorder_SwitchStatement W visit0 ctx (SwitchStatement id expression cases)
    expression cases st = Ok (tt, st') ->
  unreachable W st' = true.
Proof.
  intros Hreach Hcases Hrun. unfold preorder_SwitchStatement in Hrun.
  unfold bind at 1 in Hrun. unfold gets at 1 in Hrun.
  rewrite Hreach in Hrun. simpl negb in Hrun. unfold when at 1 in Hrun.
  apply bind_Ok_inv in Hrun. destruct Hrun as [[] [s1 [Hrun Hset]]].
  apply bind_Ok_inv in Hrun. destruct Hrun as [[] [s2 [_ Hrun]]].
  unfold bind at 1 in Hrun. unfold gets at 1 in Hrun.
  unfold bind at 1 in Hrun. unfold modify at 1 in Hrun.
  unfold bind at 1 in Hrun. unfold gets at 1 in Hrun.
  unfold bind at 1 in Hrun. unfold gets at 1 in Hrun.
  unfold bind at 1 in Hrun.
  rewrite (switchCases_without_bodies W visit0 ctx _ _ _ cases true _ Hcases)
    in Hrun.
  unfold modify in Hrun. inversion Hrun; subst s1.
  unfold setCurrent, modify in Hset. inversion Hset. reflexivity.
Qed.

(** After [switch (x) { }] the copy [y = z] is skipped: the write of [z] at
    node 90 gets no use, which it gets without the switch. *)
Lemma Switch_without_bodies_witness :
  unreachable EmptySwitchExample.W EmptySwitchExample.after_switch = true
  /\ HasUsesOps.hasUses
       (EmptySwitchExample.usesAfter EmptySwitchExample.with_switch) 90 = false
  /\ HasUsesOps.hasUses
       (EmptySwitchExample.usesAfter EmptySwitchExample.without_switch) 90
     = true.
Proof.
  assert (Hrun :
    preorder_SwitchStatement EmptySwitchExample.W
      (visit EmptySwitchExample.W 5) [] EmptySwitchExample.switch
      (PathExpression 71 "x") [] EmptySwitchExample.st =
    Ok (tt, EmptySwitchExample.after_switch)) by (vm_compute; reflexivity).
  split; [|split; vm_compute; reflexivity].
  exact (Switch_without_bodies EmptySwitchExample.W
           (visit EmptySwitchExample.W 5) [] 70 (PathExpression 71 "x") []
           EmptySwitchExample.st EmptySwitchExample.after_switch
           eq_refl (Forall_nil_2 _) Hrun).
Defined.

(** An unused call without side effects goes; with its node used it stays. *)
Lemma RemoveUnused_call_statement_witness :
  RemoveUnused.postorder_MethodCallStatement CallStatementExample.W
    HasUsesOps.empty (NodeStatement CallStatementExample.stmt)
    CallStatementExample.stmt 9 = Ok (EmptyStatement 9 NoSourceInfo)
  /\ (RemoveUnused.postorder_MethodCallStatement CallStatementExample.W
        {| used := {[4]}; tracker := SliceTracker.default |}
        (NodeStatement CallStatementExample.stmt)
        CallStatementExample.stmt 9 = Ok CallStatementExample.stmt
      \/ RemoveUnused.postorder_MethodCallStatement CallStatementExample.W
           {| used := {[4]}; tracker := SliceTracker.default |}
           (NodeStatement CallStatementExample.stmt)
           CallStatementExample.stmt 9 = Ok (EmptyStatement 9 NoSourceInfo)).
Proof.
  split.
  - apply (proj2 (RemoveUnused_call_statement CallStatementExample.W
                    HasUsesOps.empty (NodeStatement CallStatementExample.stmt)
                    4 NoSourceInfo CallStatementExample.call 9)).
    split; [apply not_elem_of_empty|reflexivity].
  - exact (proj1 (RemoveUnused_call_statement CallStatementExample.W
                    {| used := {[4]}; tracker := SliceTracker.default |}
                    (NodeStatement CallStatementExample.stmt)
                    4 NoSourceInfo CallStatementExample.call 9)).
Defined.


(** ** What a visit keeps

    The rules by which a property [P] of the visitor is kept by the code:
    each rule asks of [P] only what the code it is about may change. *)

Section Preservation.

Variable W : World.
Variable P : FindUninitialized W -> Prop.

Lemma pres_ret (A : Type) (a : A) : preserves P (@ret W A a).
Proof. intros st a' st' HP H. inversion H; subst. exact HP. Qed.

Lemma pres_bug (A : Type) (msg : string) : preserves P (@bug W A msg).
Proof. intros st a st' _ H. discriminate H. Qed.

Lemma pres_gets (A : Type) (f : FindUninitialized W -> A) :
  preserves P (gets f).
Proof. intros st a st' HP H. inversion H; subst. exact HP. Qed.

Lemma pres_bind (A B : Type) (c : M W A) (k : A -> M W B) :
  preserves P c -> (forall a, preserves P (k a)) -> preserves P (bind c k).
Proof.
  intros Hc Hk st b st' HP Hrun. apply bind_Ok_inv in Hrun.
  destruct Hrun as [a [s [H1 H2]]]. exact (Hk a s b st' (Hc st a s HP H1) H2).
Qed.

Lemma pres_when (b : bool) (c : M W unit) :
  preserves P c -> preserves P (when b c).
Proof. intros Hc. destruct b; [exact Hc|apply pres_ret]. Qed.

Lemma pres_forM_ (A : Type) (xs : list A) (f : A -> M W unit) :
  (forall x, preserves P (f x)) -> preserves P (forM_ xs f).
Proof.
  intros Hf. induction xs as [|x xs IH]; simpl; [apply pres_ret|].
  apply pres_bind; [apply Hf|intros _; exact IH].
Qed.

Lemma pres_modify (f : FindUninitialized W -> FindUninitialized W) :
  (forall st, P st -> P (f st)) -> preserves P (modify f).
Proof. intros Hf st a st' HP H. inversion H; subst. apply Hf. exact HP. Qed.

Lemma pres_getReads (e : Expression) (nonNull : bool) :
  preserves P (getReads W e nonNull).
Proof.
  intros st a st' HP H. unfold getReads in H.
  destruct (readLocations W st !! expr_id e); [inversion H; subst; exact HP|].
  destruct nonNull; [discriminate H|inversion H; subst; exact HP].
Qed.

Lemma pres_getReadsNonNull (e : Expression) :
  preserves P (getReadsNonNull W e).
Proof.
  unfold getReadsNonNull. apply pres_bind; [apply pres_getReads|].
  intros [loc|]; [apply pres_ret|apply pres_bug].
Qed.

(** *** The read sets, the uses and the diagnostics *)

Hypothesis P_readLocations :
  forall v st, P st -> P (set_readLocations W v st).
Hypothesis P_add :
  forall points st,
    P st -> P (set_hasUses W (HasUsesOps.add (hasUses W st) points) st).
Hypothesis P_diag :
  forall ds st, P st -> P (set_diagnostics W (diagnostics W st ++ ds) st).

Lemma pres_reads (e : Expression) (loc : LocationSet W) :
  preserves P (reads W e loc).
Proof.
  intros st a st' HP H. unfold reads in H.
  destruct (unreachable W st); [discriminate H|]. inversion H; subst.
  apply P_readLocations. exact HP.
Qed.

Lemma pres_warning (ty : ErrorType) (fmt : string) (a : list DiagArg) :
  preserves P (warning W ty fmt a).
Proof. apply pres_modify. intros st. apply P_diag. Qed.

Lemma pres_error (ty : ErrorType) (fmt : string) (a : list DiagArg) :
  preserves P (error W ty fmt a).
Proof. apply pres_modify. intros st. apply P_diag. Qed.

Lemma pres_hasUses_add (points : ProgramPoints) :
  preserves P (hasUses_add W points).
Proof. apply pres_modify. intros st. apply P_add. Qed.

Ltac preserve_with tac :=
  repeat first
    [ apply pres_ret | apply pres_bug | apply pres_gets
    | apply pres_getReads | apply pres_getReadsNonNull
    | apply pres_reads | apply pres_warning | apply pres_error
    | apply pres_hasUses_add
    | tac
    | apply pres_bind | apply pres_when | apply pres_forM_
    | progress intros
    | match goal with
      | |- preserves _ (match ?x with _ => _ end) => destruct x
      | |- preserves _ (if ?x then _ else _) => destruct x
      end ].

Lemma pres_registerUses (ctx : list Node) (e : Expression) (report : bool) :
  preserves P (registerUses W ctx e report).
Proof.
  unfold registerUses, getCurrentDefinitions. preserve_with fail.
Qed.

Lemma pres_checkOutParameters (block : string) (ps : list IRParameter)
  (defs : Definitions W) :
  preserves P (checkOutParameters W block ps defs).
Proof.
  unfold checkOutParameters, checkOutParameter. preserve_with fail.
Qed.

Lemma pres_checkHeaderFieldWrite (ctx : list Node) (expr parent : Expression) :
  preserves P (checkHeaderFieldWrite W ctx expr parent).
Proof.
  assert (Htest : forall q loc, preserves P (headerTest W ctx expr q loc)).
  { intros q loc. unfold headerTest.
    preserve_with ltac:(apply pres_registerUses). }
  induction parent; rewrite checkHeaderFieldWrite_unfold;
    (apply pres_bind; [|apply Htest]); try apply pres_bug.
  - preserve_with fail.
  - apply pres_bind; [exact IHparent|intros loc; apply pres_ret].
  - apply pres_bind; [exact IHparent1|intros loc].
    destruct parent2; apply pres_ret.
  - exact IHparent.
Qed.

(** *** Expressions *)

Section Expressions.

Variable v : Visit W.
Hypothesis P_expression :
  forall ctx e, preserves P (v ctx (NodeExpression e)).

Lemma pres_PathExpression (ctx : list Node) (e : Expression) :
  preserves P (preorder_PathExpression W ctx e).
Proof.
  unfold preorder_PathExpression.
  preserve_with ltac:(apply pres_registerUses).
Qed.

Lemma pres_Member (ctx : list Node) (e expr : Expression) (member : string) :
  preserves P (preorder_Member W v ctx e expr member).
Proof.
  unfold preorder_Member.
  preserve_with ltac:(first [apply pres_registerUses|apply P_expression]).
Qed.

Lemma pres_visit_children (ctx : list Node) (e : Expression)
  (children : list Expression) :
  preserves P (visit_children W v ctx (NodeExpression e) children).
Proof.
  unfold visit_children. preserve_with ltac:(apply P_expression).
Qed.

Lemma pres_visit_operation (ctx : list Node) (e : Expression)
  (children : list Expression) :
  preserves P (visit_operation W v ctx e children).
Proof.
  unfold visit_operation, otherExpression.
  preserve_with
    ltac:(first [apply pres_registerUses|apply pres_visit_children]).
Qed.

(** The calls of built-in methods; the others are left to [callEffect]. *)
Lemma pres_MethodCallExpression (ctx : list Node) (e method : Expression) :
  preserves P (callEffect W v ctx e (resolve W e)) ->
  preserves P (preorder_MethodCallExpression W v ctx e method).
Proof.
  intros Hcall. unfold preorder_MethodCallExpression.
  apply pres_bind; [apply P_expression|intros _].
  destruct (kind (resolve W e)); try exact Hcall.
  apply pres_bind; [apply pres_getReadsNonNull|intros base].
  destruct (_ || _);
    [preserve_with ltac:(apply pres_registerUses)|].
  destruct (String.eqb _ _);
    [preserve_with ltac:(apply pres_registerUses)|exact Hcall].
Qed.

(** *** Where [lhs] is set *)

Hypothesis P_lhs : forall b st, P st -> P (set_lhs W b st).

Lemma pres_set_lhs (b : bool) : preserves P (modify (set_lhs W b)).
Proof. apply pres_modify. apply P_lhs. Qed.

Lemma pres_ArrayIndex (ctx : list Node) (e ai_left ai_right : Expression) :
  preserves P (preorder_ArrayIndex W v ctx e ai_left ai_right).
Proof.
  unfold preorder_ArrayIndex.
  apply pres_bind; [|intros _; apply pres_registerUses].
  destruct ai_right;
    preserve_with ltac:(first [apply pres_set_lhs|apply P_expression]).
Qed.

Lemma pres_callEffect (ctx : list Node) (e : Expression)
  (mi : MethodInstance) :
  (forall pt, preserves P (analyzeCallees W v (callees mi) pt)) ->
  preserves P (callEffect W v ctx e mi).
Proof.
  intros Hcallees. unfold callEffect.
  preserve_with
    ltac:(first [apply pres_set_lhs|apply P_expression|apply Hcallees]).
Qed.

Hypothesis P_watch :
  forall slice hu st,
    HasUsesOps.watchForOverwrites (hasUses W st) slice = Some hu ->
    P st -> P (set_hasUses W hu st).
Hypothesis P_done :
  forall st,
    P st -> P (set_hasUses W (HasUsesOps.doneWatching (hasUses W st)) st).

Lemma pres_Slice (ctx : list Node) (e e0 : Expression) :
  preserves P (preorder_Slice W v ctx e e0).
Proof.
  assert (Hwatch : preserves P (watchForOverwrites W e)).
  { intros st a st' HP H. unfold watchForOverwrites in H.
    destruct (HasUsesOps.watchForOverwrites (hasUses W st) e) as [hu|] eqn:Hw;
      [|discriminate H].
    inversion H; subst. exact (P_watch e hu st Hw HP). }
  assert (Hdone : preserves P (doneWatching W)).
  { apply pres_modify. apply P_done. }
  unfold preorder_Slice.
  preserve_with
    ltac:(first [apply pres_set_lhs|apply P_expression|apply Hwatch
                |apply Hdone|apply pres_registerUses]).
Qed.

End Expressions.

(** One step of the traversal on an expression, given what lies below. *)
Lemma pres_visit_Expression (v : Visit W) :
  (forall b st, P st -> P (set_lhs W b st)) ->
  (forall ctx e, preserves P (v ctx (NodeExpression e))) ->
  (forall callee pt, preserves P (analyzeCallees W v callee pt)) ->
  (forall ctx e e0, preserves P (preorder_Slice W v ctx e e0)) ->
  forall ctx e, preserves P (visit_Expression W v ctx e).
Proof.
  intros P_lhs Hv Hcallees HSlice ctx e. destruct e; simpl.
  - apply pres_reads.
  - apply pres_reads.
  - apply pres_reads.
  - apply pres_PathExpression.
  - apply pres_Member. exact Hv.
  - apply pres_ArrayIndex; assumption.
  - apply HSlice.
  - apply pres_MethodCallExpression; [exact Hv|].
    apply pres_callEffect; [exact Hv|exact P_lhs|]. intros pt. apply Hcallees.
  - apply pres_visit_operation. exact Hv.
  - apply pres_visit_operation. exact Hv.
  - apply pres_visit_operation. exact Hv.
  - apply pres_visit_children. exact Hv.
Qed.

(** *** Statements and blocks *)

Section Nodes.

Hypothesis P_lhs : forall b st, P st -> P (set_lhs W b st).
Hypothesis P_context : forall c st, P st -> P (set_context W c st).
Hypothesis P_currentPoint : forall p st, P st -> P (set_currentPoint W p st).
Hypothesis P_unreachable : forall b st, P st -> P (set_unreachable W b st).
Hypothesis P_virtualMethod :
  forall b st, P st -> P (set_virtualMethod W b st).

Variable v : Visit W.
Hypothesis P_visit : forall ctx n, preserves P (v ctx n).
Hypothesis P_callees :
  forall callee pt, preserves P (analyzeCallees W v callee pt).
Hypothesis P_Slice :
  forall ctx e e0, preserves P (preorder_Slice W v ctx e e0).

Ltac preserve :=
  preserve_with
    ltac:(first
      [ apply P_visit | apply pres_registerUses
      | apply pres_checkOutParameters | apply pres_checkHeaderFieldWrite
      | apply pres_modify;
        first [ apply P_lhs | apply P_context | apply P_currentPoint
              | apply P_unreachable | apply P_virtualMethod
              | intros ?; apply P_currentPoint ] ]).

Lemma pres_switchCases (ctx : list Node) (self : Node)
  (saveCurrent : ProgramPoint) (saveUnreachable : bool)
  (cases : list SwitchCase) (finalUnreachable : bool) :
  preserves P
    (switchCases W v ctx self saveCurrent saveUnreachable cases
       finalUnreachable).
Proof.
  revert finalUnreachable.
  induction cases as [|c cases IH]; intros fin; simpl; [apply pres_ret|].
  destruct c as [id label [s|]]; [|apply IH].
  preserve. apply IH.
Qed.

Lemma pres_visit_Statement (ctx : list Node) (s : Statement) :
  preserves P (visit_Statement W v ctx s).
Proof.
  destruct s; simpl;
    unfold preorder_AssignmentStatement, preorder_ReturnStatement,
      preorder_ExitStatement, preorder_MethodCallStatement,
      preorder_BlockStatement, preorder_IfStatement,
      preorder_SwitchStatement, preorder_Function, setCurrent,
      getCurrentDefinitions;
    preserve; apply pres_switchCases.
Qed.

Lemma pres_visit_Node (ctx : list Node) (n : Node) :
  preserves P (visit_Node W v ctx n).
Proof.
  destruct n as [e|s|c|ps|a|t|c|p|id objects|id]; simpl.
  - apply pres_visit_Expression; auto.
  - apply pres_visit_Statement.
  - unfold visit_SwitchCase. destruct c. preserve.
  - unfold preorder_ParserState. preserve.
  - unfold preorder_P4Action, getCurrentDefinitions. preserve.
  - unfold preorder_P4Table. preserve.
  - unfold preorder_P4Control, visitVirtualMethods, getCurrentDefinitions.
    preserve.
  - unfold preorder_P4Parser, visitVirtualMethods. preserve.
  - preserve.
  - apply pres_ret.
Qed.

End Nodes.

(** *** The traversal

    A property of the output that [add] and new diagnostics keep, and that
    the visit of a slice keeps whenever the traversal below it does, is kept
    by the whole traversal, the analysis of the callees included: their
    visitor starts from the output of the caller and hands its own back. *)

Hypothesis P_lhs : forall b st, P st -> P (set_lhs W b st).
Hypothesis P_context : forall c st, P st -> P (set_context W c st).
Hypothesis P_currentPoint : forall p st, P st -> P (set_currentPoint W p st).
Hypothesis P_unreachable : forall b st, P st -> P (set_unreachable W b st).
Hypothesis P_virtualMethod :
  forall b st, P st -> P (set_virtualMethod W b st).
Hypothesis P_child : forall st pt, P st -> P (child_visitor W st pt).
Hypothesis P_back :
  forall st fu,
    P fu ->
    P (set_diagnostics W (diagnostics W fu) (set_hasUses W (hasUses W fu) st)).
Hypothesis P_Slice :
  forall v : Visit W,
    (forall ctx e, preserves P (v ctx (NodeExpression e))) ->
    forall ctx e e0, preserves P (preorder_Slice W v ctx e e0).

Lemma pres_analyzeCallees (v : Visit W) (callee : list Node)
  (pt : ProgramPoint) :
  (forall ctx n, preserves P (v ctx n)) ->
  preserves P (analyzeCallees W v callee pt).
Proof.
  intros Hv st a st' HP Hrun. unfold analyzeCallees in Hrun.
  destruct (forM_ callee (apply W v) (child_visitor W st pt))
    as [[[] fu]| |] eqn:Hloop; try discriminate Hrun.
  inversion Hrun; subst. apply P_back.
  assert (Hpres : preserves P (forM_ callee (apply W v))).
  { apply pres_forM_. intros root. unfold apply, init_apply.
    apply pres_bind; [apply pres_modify; apply P_unreachable|intros _].
    apply Hv. }
  exact (Hpres _ _ _ (P_child st pt HP) Hloop).
Qed.

Lemma visit_preserves (fuel : nat) (ctx : list Node) (n : Node) :
  preserves P (visit W fuel ctx n).
Proof.
  revert ctx n. induction fuel as [|fuel IH]; intros ctx n.
  - intros st a st' _ H. discriminate H.
  - change (preserves P (visit_Node W (visit W fuel) ctx n)).
    apply pres_visit_Node; auto.
    intros callee pt. apply pres_analyzeCallees. exact IH.
Qed.

End Preservation.

(** ** The output only grows *)

(** X7.  Whatever node is visited, however deep the analysis of the callees
    goes, a visit that returns has removed no use and no diagnostic: the
    definitions in [hasUses] before are in it after, and the diagnostics
    after are those before followed by the new ones. *)
Theorem visit_only_adds (W : World) (fuel : nat) (ctx : list Node) (n : Node)
  (st st' : FindUninitialized W) :
  visit W fuel ctx n st = Ok (tt, st') ->
  used (hasUses W st) ⊆ used (hasUses W st')
  /\ exists ds, diagnostics W st' = diagnostics W st ++ ds.
Proof.
  intros Hrun.
  set (P := fun s : FindUninitialized W =>
              used (hasUses W st) ⊆ used (hasUses W s)
              /\ exists ds, diagnostics W s = diagnostics W st ++ ds).
  assert (Hadd : forall points s,
            P s -> P (set_hasUses W (HasUsesOps.add (hasUses W s) points) s)).
  { intros points s [Hu Hd]. split; [|exact Hd]. simpl.
    etrans; [exact Hu|apply add_mono]. }
  assert (Hdiag : forall ds s,
            P s -> P (set_diagnostics W (diagnostics W s ++ ds) s)).
  { intros ds s [Hu [ds0 Hd]]. split; [exact Hu|]. exists (ds0 ++ ds).
    simpl. rewrite Hd, app_assoc. reflexivity. }
  assert (Hpres : preserves P (visit W fuel ctx n)).
  { apply visit_preserves; try exact Hadd; try exact Hdiag;
      try (intros ? s HP; exact HP).
    intros v Hv c e e0. apply pres_Slice; try assumption;
      try (intros ? s HP; exact HP); [|intros s HP; exact HP].
    intros slice hu s Hw [Hu Hd]. split; [|exact Hd].
    unfold HasUsesOps.watchForOverwrites in Hw.
    destruct (SliceTracker.isActive _); [discriminate Hw|].
    inversion Hw. exact Hu. }
  apply (Hpres st tt st'); [|exact Hrun].
  split; [reflexivity|]. exists []. rewrite app_nil_r. reflexivity.
Qed.

(** The table application and the copy add the writers of [k], [w] and [z]
    to the use on record, and a warning for [w] to the diagnostic. *)
Lemma visit_only_adds_witness :
  (used (hasUses TableApplyExample.W TableApplyExample.st)
   ⊆ used (hasUses TableApplyExample.W TableApplyExample.after_body)
   /\ exists ds,
        diagnostics TableApplyExample.W TableApplyExample.after_body =
        diagnostics TableApplyExample.W TableApplyExample.st ++ ds)
  /\ map (HasUsesOps.hasUses
            (hasUses TableApplyExample.W TableApplyExample.after_body))
       [7; 90; 92; 93; 35] = [true; true; true; true; false]
  /\ List.length
       (diagnostics TableApplyExample.W TableApplyExample.after_body) = 2.
Proof.
  assert (Hrun :
    visit TableApplyExample.W 12 [] (NodeStatement TableApplyExample.body)
      TableApplyExample.st = Ok (tt, TableApplyExample.after_body))
    by (vm_compute; reflexivity).
  split; [|split; vm_compute; reflexivity].
  exact (visit_only_adds TableApplyExample.W 12 []
           (NodeStatement TableApplyExample.body) TableApplyExample.st
           TableApplyExample.after_body Hrun).
Defined.

(** ** The tracker between visits *)

(** X6.  A visit begun with the tracker idle ends with the tracker idle,
    whatever the node: only the visit of a slice starts the tracker, and it
    stops it before it returns.  So no use found by a later visit is
    filtered by a slice of an earlier one. *)
Theorem visit_leaves_tracker_idle (W : World) (fuel : nat) (ctx : list Node)
  (n : Node) (st st' : FindUninitialized W) :
  SliceTracker.isActive (tracker (hasUses W st)) = false ->
  visit W fuel ctx n st = Ok (tt, st') ->
  SliceTracker.isActive (tracker (hasUses W st')) = false.
Proof.
  intros Hidle Hrun.
  set (P := fun s : FindUninitialized W =>
              SliceTracker.isActive (tracker (hasUses W s)) = false).
  assert (Hpres : preserves P (visit W fuel ctx n)).
  { apply visit_preserves; try (intros ? s HP; exact HP).
    - intros points s HP. unfold P. simpl. rewrite add_tracker. exact HP.
    - intros v _ c e e0 s x s' _ Hslice. unfold preorder_Slice in Hslice.
      repeat (apply bind_Ok_inv in Hslice;
              destruct Hslice as [? [? [_ Hslice]]]).
      unfold doneWatching, modify in Hslice. inversion Hslice. reflexivity. }
  exact (Hpres st tt st' Hidle Hrun).
Qed.

(** After [a[7:0] = 0xBC;], whose left-hand side is watched. *)
Lemma visit_leaves_tracker_idle_witness :
  exists st',
    visit SliceOverwriteExample.W 6 []
      (NodeStatement SliceOverwriteExample.later) SliceOverwriteExample.st
    = Ok (tt, st')
    /\ SliceTracker.isActive (tracker (hasUses SliceOverwriteExample.W st'))
       = false.
Proof.
  destruct (visit SliceOverwriteExample.W 6 []
              (NodeStatement SliceOverwriteExample.later)
              SliceOverwriteExample.st) as [[[] st']| |] eqn:Hrun;
    [|vm_compute in Hrun; discriminate Hrun
     |vm_compute in Hrun; discriminate Hrun].
  exists st'. split; [reflexivity|].
  exact (visit_leaves_tracker_idle SliceOverwriteExample.W 6 []
           (NodeStatement SliceOverwriteExample.later)
           SliceOverwriteExample.st st' eq_refl Hrun).
Defined.

(** ** What the visit of an expression leaves alone *)

(** The analysis of the callees gives the caller new uses and diagnostics
    and nothing else. *)
Lemma analyzeCallees_frame (W : World) (v : Visit W) (callee : list Node)
  (pt : ProgramPoint) (st st' : FindUninitialized W) (a : unit) :
  analyzeCallees W v callee pt st = Ok (a, st') ->
  st' = set_diagnostics W (diagnostics W st')
          (set_hasUses W (hasUses W st') st).
Proof.
  unfold analyzeCallees.
  destruct (forM_ callee (apply W v) (child_visitor W st pt))
    as [[[] fu]| |]; intros H; inversion H. reflexivity.
Qed.

Lemma visit_Expression_control (W : World) (c p : ProgramPoint)
  (u vm : bool) (fuel : nat) :
  forall ctx e,
    preserves
      (fun s => context W s = c /\ currentPoint W s = p
                /\ unreachable W s = u /\ virtualMethod W s = vm)
      (visit W fuel ctx (NodeExpression e)).
Proof.
  induction fuel as [|fuel IH]; intros ctx e.
  - intros s x s' _ H. discriminate H.
  - change (visit W (S fuel) ctx (NodeExpression e))
      with (visit_Expression W (visit W fuel) ctx e).
    apply pres_visit_Expression; try (intros ? s HP; exact HP);
      [exact IH| |].
    + intros callee pt s x s' HP Hrun. apply analyzeCallees_frame in Hrun.
      rewrite Hrun. exact HP.
    + intros ctx' e' e0. apply pres_Slice; try (intros ? s HP; exact HP);
        [exact IH| |].
      * intros slice hu s _ HP. exact HP.
      * intros s HP. exact HP.
Qed.

Lemma lhs_restored (W : World) (b b' : bool) (c : M W unit) :
  preserves (fun s => lhs W s = b)
    (bind (gets (lhs W)) (fun save =>
     bind (modify (set_lhs W b')) (fun _ =>
     bind c (fun _ => modify (set_lhs W save))))).
Proof.
  intros s x s' HP Hrun.
  apply bind_Ok_inv in Hrun. destruct Hrun as [save [s1 [Hg Hrun]]].
  inversion Hg; subst.
  do 2 (apply bind_Ok_inv in Hrun; destruct Hrun as [? [? [_ Hrun]]]).
  inversion Hrun. reflexivity.
Qed.

Lemma visit_Expression_lhs (W : World) (b : bool) (fuel : nat) :
  forall ctx e,
    preserves (fun s => lhs W s = b) (visit W fuel ctx (NodeExpression e)).
Proof.
  induction fuel as [|fuel IH]; intros ctx e.
  - intros s x s' _ H. discriminate H.
  - change (visit W (S fuel) ctx (NodeExpression e))
      with (visit_Expression W (visit W fuel) ctx e).
    assert (Hreg : forall c' e' r,
              preserves (fun s => lhs W s = b) (registerUses W c' e' r)).
    { intros c' e' r. apply pres_registerUses; intros ? s HP; exact HP. }
    destruct e; simpl.
    + apply pres_reads. intros ? s HP; exact HP.
    + apply pres_reads. intros ? s HP; exact HP.
    + apply pres_reads. intros ? s HP; exact HP.
    + apply pres_PathExpression; intros ? s HP; exact HP.
    + apply pres_Member; try (intros ? s HP; exact HP). exact IH.
    + unfold preorder_ArrayIndex.
      apply pres_bind; [|intros _; apply Hreg].
      assert (Hvar :
        preserves (fun s => lhs W s = b)
          (bind (gets (lhs W)) (fun save =>
           bind (modify (set_lhs W false)) (fun _ =>
           bind (visit W fuel (NodeExpression (ArrayIndex id e1 e2) :: ctx)
                   (NodeExpression e2)) (fun _ =>
           bind (visit W fuel (NodeExpression (ArrayIndex id e1 e2) :: ctx)
                   (NodeExpression e1)) (fun _ =>
           bind (getReadsNonNull W e1) (fun storage =>
           bind (modify (set_lhs W save)) (fun _ =>
           reads W (ArrayIndex id e1 e2) storage)))))))).
      { intros s x s' HP Hrun.
        apply bind_Ok_inv in Hrun. destruct Hrun as [save [s1 [Hg Hrun]]].
        inversion Hg; subst.
        do 4 (apply bind_Ok_inv in Hrun; destruct Hrun as [? [? [_ Hrun]]]).
        apply bind_Ok_inv in Hrun. destruct Hrun as [[] [s6 [Hm Hrun]]].
        inversion Hm; subst. unfold reads in Hrun.
        destruct (unreachable W _); [discriminate Hrun|].
        inversion Hrun. reflexivity. }
      destruct e2; try exact Hvar.
      apply pres_bind; [apply pres_gets|intros isLhs].
      destruct isLhs; [apply pres_reads; intros ? s HP; exact HP|].
      apply pres_bind; [apply IH|intros _].
      apply pres_bind; [apply pres_getReadsNonNull|intros storage].
      apply pres_reads. intros ? s HP; exact HP.
    + intros s x s' HP Hrun. unfold preorder_Slice in Hrun.
      apply bind_Ok_inv in Hrun. destruct Hrun as [isLhs [s1 [Hg Hrun]]].
      inversion Hg; subst.
      apply bind_Ok_inv in Hrun. destruct Hrun as [[] [s2 [Hw Hrun]]].
      assert (Hs2 : lhs W s2 = lhs W s1).
      { destruct (_ && _); simpl in Hw; [|inversion Hw; reflexivity].
        unfold watchForOverwrites in Hw.
        destruct (HasUsesOps.watchForOverwrites _ _); [|discriminate Hw].
        inversion Hw. reflexivity. }
      apply bind_Ok_inv in Hrun. destruct Hrun as [save [s3 [Hg' Hrun]]].
      inversion Hg'; subst.
      do 5 (apply bind_Ok_inv in Hrun; destruct Hrun as [? [? [_ Hrun]]]).
      apply bind_Ok_inv in Hrun. destruct Hrun as [[] [s9 [Hm Hrun]]].
      inversion Hm; subst. inversion Hrun. simpl. exact Hs2.
    + apply pres_MethodCallExpression; try (intros ? s HP; exact HP);
        [exact IH|].
      unfold callEffect.
      apply pres_bind;
        [apply pres_forM_; intros pe; apply pres_when; apply IH|intros _].
      apply pres_bind; [apply pres_when|intros _].
      { apply pres_bind; [apply pres_gets|intros c'].
        intros s x s' HP Hrun. apply analyzeCallees_frame in Hrun.
        rewrite Hrun. exact HP. }
      apply pres_bind;
        [apply pres_forM_; intros pe; apply pres_when; apply lhs_restored|].
      intros _. apply pres_reads. intros ? s HP; exact HP.
    + apply pres_visit_operation; try (intros ? s HP; exact HP). exact IH.
    + apply pres_visit_operation; try (intros ? s HP; exact HP). exact IH.
    + apply pres_visit_operation; try (intros ? s HP; exact HP). exact IH.
    + apply pres_visit_children. exact IH.
Qed.

(** X5.  The visit of an expression, whatever it calls, leaves the control
    state of the visitor as it found it: the context, the current point,
    the reachability and virtual-method flags, and [lhs], which the visits
    of slices, indexes and call arguments set and restore.  Only the read
    sets, the uses and the diagnostics change. *)
Theorem visit_Expression_frame (W : World) (fuel : nat) (ctx : list Node)
  (e : Expression) (st st' : FindUninitialized W) :
  visit W fuel ctx (NodeExpression e) st = Ok (tt, st') ->
  context W st' = context W st
  /\ currentPoint W st' = currentPoint W st
  /\ unreachable W st' = unreachable W st
  /\ virtualMethod W st' = virtualMethod W st
  /\ lhs W st' = lhs W st.
Proof.
  intros Hrun.
  destruct (visit_Expression_control W (context W st) (currentPoint W st)
              (unreachable W st) (virtualMethod W st) fuel ctx e st tt st')
    as [Hc [Hp [Hu Hv]]]; [auto|exact Hrun|].
  pose proof (visit_Expression_lhs W (lhs W st) fuel ctx e st tt st'
                eq_refl Hrun) as Hl.
  auto.
Qed.

(** The application of the table, seen from the statement that calls it. *)
Lemma visit_Expression_frame_witness :
  exists st',
    visit TableApplyExample.W 11 [NodeStatement TableApplyExample.apply_t]
      (NodeExpression TableApplyExample.call) TableApplyExample.st
    = Ok (tt, st')
    /\ context TableApplyExample.W st' = beforeStart
    /\ currentPoint TableApplyExample.W st' = beforeStart
    /\ unreachable TableApplyExample.W st' = false
    /\ virtualMethod TableApplyExample.W st' = false
    /\ lhs TableApplyExample.W st' = false
    /\ HasUsesOps.hasUses (hasUses TableApplyExample.W st') 92 = true.
Proof.
  destruct (visit TableApplyExample.W 11
              [NodeStatement TableApplyExample.apply_t]
              (NodeExpression TableApplyExample.call) TableApplyExample.st)
    as [[[] st']| |] eqn:Hrun;
    [|vm_compute in Hrun; discriminate Hrun
     |vm_compute in Hrun; discriminate Hrun].
  exists st'. split; [reflexivity|].
  destruct (visit_Expression_frame TableApplyExample.W 11
              [NodeStatement TableApplyExample.apply_t]
              TableApplyExample.call TableApplyExample.st st' Hrun)
    as [Hc [Hp [Hu [Hv Hl]]]].
  repeat (split; [assumption|]).
  vm_compute in Hrun. inversion Hrun. vm_compute. reflexivity.
Defined.

(** Any property of the control state is kept by the visit of an
    expression. *)
Lemma visit_Expression_state (W : World)
  (R : ProgramPoint -> ProgramPoint -> bool -> bool -> bool -> Prop)
  (fuel : nat) (ctx : list Node) (e : Expression) :
  preserves
    (fun s => R (context W s) (currentPoint W s) (unreachable W s)
                (virtualMethod W s) (lhs W s))
    (visit W fuel ctx (NodeExpression e)).
Proof.
  intros s x s' HP Hrun.
  destruct (visit_Expression_control W (context W s) (currentPoint W s)
              (unreachable W s) (virtualMethod W s) fuel ctx e s x s')
    as [Hc [Hp [Hu Hv]]]; [auto|exact Hrun|].
  rewrite Hc, Hp, Hu, Hv.
  rewrite (visit_Expression_lhs W (lhs W s) fuel ctx e s x s' eq_refl Hrun).
  exact HP.
Qed.

(** ** Reachability after an if *)

(** X9.  An if statement without an else branch, visited while reachable,
    leaves the visitor reachable, whatever its branch does: the statements
    after [if (c) { return; }] are analysed. *)
Theorem If_without_else_stays_reachable (W : World) (fuel : nat)
  (ctx : list Node) (id : NodeId) (condition : Expression)
  (ifTrue : Statement) (st st' : FindUninitialized W) :
  unreachable W st = false ->
  visit W (S fuel) ctx (NodeStatement (IfStatement id condition ifTrue None))
    st = Ok (tt, st') ->
  unreachable W st' = false.
Proof.
  intros Hreach Hrun.
  change (preorder_IfStatement W (visit W fuel) ctx
            (IfStatement id condition ifTrue None) condition ifTrue None st
          = Ok (tt, st')) in Hrun.
  unfold preorder_IfStatement in Hrun.
  apply bind_Ok_inv in Hrun. destruct Hrun as [u0 [s0 [Hg Hrun]]].
  inversion Hg; subst u0 s0. rewrite Hreach in Hrun.
  apply bind_Ok_inv in Hrun. destruct Hrun as [[] [s1 [Hbody Hset]]].
  unfold setCurrent, modify in Hset. inversion Hset; subst st'. simpl.
  simpl in Hbody.
  apply bind_Ok_inv in Hbody. destruct Hbody as [[] [sA [Hcond Hbody]]].
  assert (HA : unreachable W sA = false).
  { exact (visit_Expression_state W (fun _ _ u _ _ => u = false) fuel _ _
             st tt sA Hreach Hcond). }
  apply bind_Ok_inv in Hbody. destruct Hbody as [c [s2 [H2 Hbody]]].
  inversion H2; subst c s2.
  apply bind_Ok_inv in Hbody. destruct Hbody as [[] [s3 [H3 Hbody]]].
  inversion H3; subst s3.
  apply bind_Ok_inv in Hbody. destruct Hbody as [p [s4 [H4 Hbody]]].
  inversion H4; subst p s4.
  apply bind_Ok_inv in Hbody. destruct Hbody as [u [s5 [H5 Hbody]]].
  inversion H5; subst u s5. simpl in Hbody. rewrite HA in Hbody.
  apply bind_Ok_inv in Hbody. destruct Hbody as [[] [sB [_ Hbody]]].
  apply bind_Ok_inv in Hbody. destruct Hbody as [uT [s6 [H6 Hbody]]].
  inversion H6; subst uT s6.
  apply bind_Ok_inv in Hbody. destruct Hbody as [[] [s7 [H7 Hbody]]].
  inversion H7; subst s7.
  apply bind_Ok_inv in Hbody. destruct Hbody as [[] [s8 [H8 Hbody]]].
  inversion H8; subst s8.
  apply bind_Ok_inv in Hbody. destruct Hbody as [u [s9 [H9 Hbody]]].
  inversion H9; subst u s9. inversion Hbody. simpl.
  apply andb_false_r.
Qed.

(** [if (c) return 1;]: the return alone ends the path, the if does not. *)
Lemma If_without_else_stays_reachable_witness :
  (exists st',
     visit MissingReturnExample.W 6 [NodeStatement MissingReturnExample.body]
       (NodeStatement
          (IfStatement 22 (PathExpression 23 "c")
             (ReturnStatement 24 (Some (Constant 25 1))) None))
       MissingReturnExample.st = Ok (tt, st')
     /\ unreachable MissingReturnExample.W st' = false)
  /\ (exists st',
        visit MissingReturnExample.W 6 [NodeStatement MissingReturnExample.body]
          (NodeStatement (ReturnStatement 24 (Some (Constant 25 1))))
          MissingReturnExample.st = Ok (tt, st')
        /\ unreachable MissingReturnExample.W st' = true).
Proof.
  split.
  - destruct (visit MissingReturnExample.W 6
                [NodeStatement MissingReturnExample.body]
                (NodeStatement
                   (IfStatement 22 (PathExpression 23 "c")
                      (ReturnStatement 24 (Some (Constant 25 1))) None))
                MissingReturnExample.st) as [[[] st']| |] eqn:Hrun;
      [|vm_compute in Hrun; discriminate Hrun
       |vm_compute in Hrun; discriminate Hrun].
    exists st'. split; [reflexivity|].
    exact (If_without_else_stays_reachable MissingReturnExample.W 5
             [NodeStatement MissingReturnExample.body] 22
             (PathExpression 23 "c")
             (ReturnStatement 24 (Some (Constant 25 1)))
             MissingReturnExample.st st' eq_refl Hrun).
  - eexists. split; vm_compute; reflexivity.
Defined.

(** ** Tables *)

Lemma forM__Ok_each (W : World) (A : Type) (f : A -> M W unit)
  (xs : list A) (st st' : FindUninitialized W) :
  forM_ xs f st = Ok (tt, st') ->
  Forall (fun x => exists s s', f x s = Ok (tt, s')) xs.
Proof.
  revert st. induction xs as [|x xs IH]; intros st Hrun; [constructor|].
  simpl in Hrun. apply bind_Ok_inv in Hrun.
  destruct Hrun as [[] [s1 [Hx Hrest]]]. constructor; [eauto|].
  exact (IH s1 Hrest).
Qed.

(** X12.  When the visit of a table returns, every entry of its action list
    was a call, and the visitor stands where it stood with the current point
    at the table in its context: neither the keys nor the analysis of the
    actions move the current point, which the loop restores after each
    entry all the same. *)
Theorem P4Table_point (W : World) (fuel : nat) (ctx : list Node)
  (table : P4Table) (st st' : FindUninitialized W) :
  visit W (S fuel) ctx (NodeP4Table table) st = Ok (tt, st') ->
  currentPoint W st' = ProgramPoint_in (context W st) (NodeP4Table table)
  /\ context W st' = context W st
  /\ unreachable W st' = unreachable W st
  /\ virtualMethod W st' = virtualMethod W st
  /\ lhs W st' = lhs W st
  /\ Forall (fun ale => match ale with
                        | MethodCallExpression _ _ _ => True
                        | _ => False
                        end) (table_actionList table).
Proof.
  intros Hrun.
  change (preorder_P4Table W (visit W fuel) ctx table st = Ok (tt, st'))
    in Hrun.
  unfold preorder_P4Table in Hrun.
  apply bind_Ok_inv in Hrun. destruct Hrun as [c [s0 [Hg Hrun]]].
  inversion Hg; subst c s0.
  apply bind_Ok_inv in Hrun. destruct Hrun as [[] [s1 [Hm Hrun]]].
  inversion Hm; subst s1.
  set (savePoint := ProgramPoint_in (context W st) (NodeP4Table table)) in *.
  set (P := fun s : FindUninitialized W =>
              currentPoint W s = savePoint
              /\ context W s = context W st
              /\ unreachable W s = unreachable W st
              /\ virtualMethod W s = virtualMethod W st
              /\ lhs W s = lhs W st).
  assert (Hexpr : forall c e,
            preserves P (visit W fuel c (NodeExpression e))).
  { intros c e.
    exact (visit_Expression_state W
             (fun cx p u vm l =>
                p = savePoint /\ cx = context W st /\ u = unreachable W st
                /\ vm = virtualMethod W st /\ l = lhs W st) fuel c e). }
  apply bind_Ok_inv in Hrun. destruct Hrun as [[] [s2 [Hkey Hacts]]].
  assert (H2 : P s2).
  { assert (Hpres :
      preserves P
        (match table_key table with
         | Some key =>
             forM_ key (fun ke =>
               bind (visit W fuel (NodeP4Table table :: ctx)
                       (NodeExpression (key_expression ke))) (fun _ =>
               visit W fuel (NodeP4Table table :: ctx)
                 (NodeExpression (key_matchType ke))))
         | None => ret tt
         end)).
    { destruct (table_key table) as [key|]; [|apply pres_ret].
      apply pres_forM_. intros ke.
      apply pres_bind; [apply Hexpr|intros _; apply Hexpr]. }
    apply (Hpres (set_currentPoint W savePoint st) tt s2); [|exact Hkey].
    unfold P. simpl. auto. }
  assert (H3 : P st').
  { assert (Hpres :
      preserves P
        (forM_ (table_actionList table) (fun ale =>
           match ale with
           | MethodCallExpression _ _ _ =>
               bind (visit W fuel (NodeP4Table table :: ctx)
                       (NodeExpression ale)) (fun _ =>
               modify (set_currentPoint W savePoint))
           | _ => bug "%1%: unexpected entry in action list"
           end))).
    { apply pres_forM_. intros ale. destruct ale; try apply pres_bug.
      apply pres_bind; [apply Hexpr|intros _].
      apply pres_modify. intros s [_ Hrest].
      split; [reflexivity|exact Hrest]. }
    exact (Hpres s2 tt st' H2 Hacts). }
  destruct H3 as [Hp [Hc [Hu [Hv Hl]]]].
  repeat (split; [assumption|]).
  apply forM__Ok_each in Hacts.
  eapply Forall_impl; [exact Hacts|]. simpl.
  intros ale [s [s' Hale]]. destruct ale; try discriminate Hale. exact I.
Qed.

(** The table of the example, and one with a name in its action list. *)
Lemma P4Table_point_witness :
  visit TableApplyExample.W 12 [] (NodeP4Table TableApplyExample.t)
    TableApplyExample.st = Ok (tt, TableApplyExample.after_table)
  /\ currentPoint TableApplyExample.W TableApplyExample.after_table
     = [Some (NodeP4Table TableApplyExample.t)]
  /\ context TableApplyExample.W TableApplyExample.after_table = beforeStart
  /\ HasUsesOps.hasUses
       (hasUses TableApplyExample.W TableApplyExample.after_table) 92 = true
  /\ visit TableApplyExample.W 12 []
       (NodeP4Table
          {| table_id := 40; table_name := "t"; table_key := None;
             table_actionList := [PathExpression 46 "a"] |})
       TableApplyExample.st = Bug "%1%: unexpected entry in action list".
Proof.
  assert (Hrun :
    visit TableApplyExample.W 12 [] (NodeP4Table TableApplyExample.t)
      TableApplyExample.st = Ok (tt, TableApplyExample.after_table))
    by (vm_compute; reflexivity).
  destruct (P4Table_point TableApplyExample.W 11 [] TableApplyExample.t
              TableApplyExample.st TableApplyExample.after_table Hrun)
    as [Hp [Hc _]].
  split; [exact Hrun|]. split; [exact Hp|]. split; [exact Hc|].
  split; vm_compute; reflexivity.
Defined.

(** ** Unreachable code *)

Lemma unreachable_statement_skipped (W : World) (v : Visit W)
  (ctx : list Node) (s : Statement) (st : FindUninitialized W) :
  unreachable W st = true ->
  match s with Function _ _ _ _ _ => False | _ => True end ->
  exists p, visit_Statement W v ctx s st = Ok (tt, set_currentPoint W p st).
Proof.
  intros Hu Hs. destruct st as [cx l cp rl hu u vm ds]. simpl in Hu. subst u.
  destruct s; try destruct Hs; try (eexists; reflexivity).
  destruct expression; eexists; reflexivity.
Qed.

(** The loop over the components of a block or of a parser state, begun
    unreachable. *)
Lemma components_skipped (W : World) (fuel : nat)
  (ctx : list Node) (components : list Statement)
  (st : FindUninitialized W) :
  unreachable W st = true ->
  Forall (fun c => match c with Function _ _ _ _ _ => False | _ => True end)
    components ->
  exists p,
    forM_ components (fun c => visit W (S fuel) ctx (NodeStatement c)) st
    = Ok (tt, set_currentPoint W p st).
Proof.
  intros Hu Hcs. revert st Hu.
  induction Hcs as [|c cs Hc _ IH]; intros st Hu.
  - exists (currentPoint W st). destruct st. reflexivity.
  - destruct (unreachable_statement_skipped W (visit W fuel) ctx c st Hu Hc)
      as [p Hstep].
    destruct (IH (set_currentPoint W p st) Hu) as [q Hrest].
    assert (Hstep' : visit W (S fuel) ctx (NodeStatement c) st
                     = Ok (tt, set_currentPoint W p st)) by exact Hstep.
    exists q. cbn [forM_]. unfold bind at 1. rewrite Hstep', Hrest.
    destruct st. reflexivity.
Qed.

(** X8.  Once the visitor is unreachable, the statements that follow in a
    block or a parser state are passed over: whatever they are (function
    declarations apart), their visit returns, and has changed nothing but
    the current point.  No expression of theirs is visited, no read is
    recorded, no use is added, no diagnostic is emitted, and the visitor
    stays unreachable. *)
Theorem unreachable_statements_skipped (W : World) (fuel : nat)
  (ctx : list Node) (components : list Statement)
  (st : FindUninitialized W) :
  unreachable W st = true ->
  Forall (fun c => match c with Function _ _ _ _ _ => False | _ => True end)
    components ->
  exists p,
    forM_ components (fun c => visit W (S fuel) ctx (NodeStatement c)) st
    = Ok (tt, set_currentPoint W p st).
Proof.
  exact (components_skipped W fuel ctx components st).
Qed.

(** Two statements after a return, and the first of them when reachable. *)
Lemma unreachable_statements_skipped_witness :
  (exists p,
     forM_ [VirtualReturnExample.write; ExitStatement 78]
       (fun c => visit VirtualReturnExample.W 4 [] (NodeStatement c))
       (set_unreachable VirtualReturnExample.W true VirtualReturnExample.st)
     = Ok (tt, set_currentPoint VirtualReturnExample.W p
                 (set_unreachable VirtualReturnExample.W true
                    VirtualReturnExample.st)))
  /\ (exists st',
        visit VirtualReturnExample.W 4 []
          (NodeStatement VirtualReturnExample.write) VirtualReturnExample.st
        = Ok (tt, st')
        /\ HasUsesOps.hasUses (hasUses VirtualReturnExample.W st') 90 = true).
Proof.
  split.
  - apply (unreachable_statements_skipped VirtualReturnExample.W 3 []
             [VirtualReturnExample.write; ExitStatement 78]
             (set_unreachable VirtualReturnExample.W true
                VirtualReturnExample.st)); [reflexivity|].
    repeat constructor.
  - eexists. split; vm_compute; reflexivity.
Defined.

(** ** Parser states entered unreachable *)

(** X14.  The visit of a parser state does not reset [unreachable].  If the
    visitor is unreachable when it enters a state whose transition is a
    path, the statements of the state are passed over and the visit of the
    transition fails with an internal error: the one of [reads], unless the
    path has no declaration.  A parser reaches this after a virtual method
    that ends in a return, since it resets [unreachable] only after the
    states. *)
Theorem ParserState_unreachable_fails (W : World) (fuel : nat)
  (ctx : list Node) (state : ParserState) (id : NodeId) (name : string)
  (st : FindUninitialized W) :
  unreachable W st = true ->
  Forall (fun c => match c with Function _ _ _ _ _ => False | _ => True end)
    (state_components state) ->
  selectExpression state = Some (PathExpression id name) ->
  visit W (S (S fuel)) ctx (NodeParserState state) st =
  Bug (if lhs W st || match getDeclaration W id with
                      | Some _ => true
                      | None => false
                      end
       then "reached an unreachable expression in FindUninitialized"
       else "Could not find declaration for %1%").
Proof.
  intros Hu Hcs Hsel.
  change (visit W (S (S fuel)) ctx (NodeParserState state) st)
    with (preorder_ParserState W (visit W (S fuel)) ctx state st).
  unfold preorder_ParserState.
  set (s2 := set_currentPoint W (ProgramPoint_of (NodeParserState state))
               (set_context W (ProgramPoint_of (NodeParserState state)) st)).
  destruct (components_skipped W fuel
              (NodeParserState state :: ctx) (state_components state) s2
              Hu Hcs) as [p Hskip].
  unfold bind at 1. unfold modify at 1. unfold bind at 1. unfold modify at 1.
  fold s2. unfold bind at 1. rewrite Hskip. rewrite Hsel. unfold bind at 1.
  change (visit W (S fuel) (NodeParserState state :: ctx)
            (NodeExpression (PathExpression id name)))
    with (preorder_PathExpression W (NodeParserState state :: ctx)
            (PathExpression id name)).
  unfold preorder_PathExpression, bind, gets, reads. simpl.
  assert (Hu2 : unreachable W (set_currentPoint W p s2) = true) by exact Hu.
  destruct (lhs W st); cbv beta; [rewrite Hu2; reflexivity|].
  destruct (getDeclaration W id); cbv beta; [rewrite Hu2|]; reflexivity.
Qed.

(** The parser with the virtual method fails in its start state; without
    the instance it is analysed and the write of [y] is found used. *)
Lemma ParserState_unreachable_fails_witness :
  unreachable VirtualReturnExample.W VirtualReturnExample.entering = true
  /\ visit VirtualReturnExample.W 9 [NodeP4Parser VirtualReturnExample.p]
       (NodeParserState VirtualReturnExample.start)
       VirtualReturnExample.entering =
     Bug "reached an unreachable expression in FindUninitialized"
  /\ run VirtualReturnExample.W 10 (NodeP4Parser VirtualReturnExample.p)
       HasUsesOps.empty =
     Bug "reached an unreachable expression in FindUninitialized"
  /\ (exists st',
        run VirtualReturnExample.W 10 (NodeP4Parser VirtualReturnExample.plain)
          HasUsesOps.empty = Ok (tt, st')
        /\ HasUsesOps.hasUses (hasUses VirtualReturnExample.W st') 90 = true).
Proof.
  split; [vm_compute; reflexivity|]. split; [|split].
  - exact (ParserState_unreachable_fails VirtualReturnExample.W 7
             [NodeP4Parser VirtualReturnExample.p] VirtualReturnExample.start
             77 "accept" VirtualReturnExample.entering eq_refl
             ltac:(repeat constructor) eq_refl).
  - vm_compute. reflexivity.
  - eexists. split; vm_compute; reflexivity.
Defined.

(** ** The context and the current point of statements *)

Lemma hoare_after (W : World) (A B : Type)
  (P : FindUninitialized W -> Prop) (Q : B -> FindUninitialized W -> Prop)
  (c : M W A) (k : A -> M W B) :
  preserves P c -> (forall a, hoare P (k a) Q) -> hoare P (bind c k) Q.
Proof.
  intros Hc Hk st b st' HP Hrun. apply bind_Ok_inv in Hrun.
  destruct Hrun as [a [s [H1 H2]]]. exact (Hk a s b st' (Hc st a s HP H1) H2).
Qed.


(** Steps that keep a property which the read sets, the uses, the
    diagnostics, [lhs], the current point and [unreachable] do not enter. *)
Ltac keep IHe IHs IHc :=
  repeat first
    [ apply pres_ret | apply pres_bug | apply pres_gets
    | apply IHe | apply IHs | apply IHc
    | apply pres_getReadsNonNull
    | apply pres_reads; intros ? ? HP; exact HP
    | apply pres_registerUses; intros ? ? HP; exact HP
    | apply pres_checkOutParameters; intros ? ? HP; exact HP
    | apply pres_checkHeaderFieldWrite; intros ? ? HP; exact HP
    | apply pres_error; intros ? ? HP; exact HP
    | apply pres_modify; intros ? HP; exact HP
    | apply pres_bind | apply pres_when | apply pres_forM_
    | progress intros
    | match goal with
      | |- preserves _ (match ?x with _ => _ end) => destruct x
      | |- preserves _ (if ?x then _ else _) => destruct x
      end ].

(** Outside a virtual method, the visit of an expression, of a statement or
    of a switch case keeps the context. *)
Lemma inner_visit_context (W : World) (c : ProgramPoint) (fuel : nat) :
  let P := fun s : FindUninitialized W =>
             context W s = c /\ virtualMethod W s = false in
  (forall ctx e, preserves P (visit W fuel ctx (NodeExpression e)))
  /\ (forall ctx s, preserves P (visit W fuel ctx (NodeStatement s)))
  /\ (forall ctx sc, preserves P (visit W fuel ctx (NodeSwitchCase sc))).
Proof.
  intros P. induction fuel as [|fuel [IHe [IHs IHc]]].
  - split; [|split]; intros ctx n s x s' _ H; discriminate H.
  - split; [|split].
    + intros ctx e.
      exact (visit_Expression_state W
               (fun cx _ _ vm _ => cx = c /\ vm = false) (S fuel) ctx e).
    + intros ctx s.
      change (preserves P (visit_Statement W (visit W fuel) ctx s)).
      assert (Hcases : forall self saveCurrent saveUnreachable cases fin,
                preserves P
                  (switchCases W (visit W fuel) ctx self saveCurrent
                     saveUnreachable cases fin)).
      { intros self saveCurrent saveUnreachable cases.
        induction cases as [|sc cases IH]; intros fin; simpl;
          [apply pres_ret|].
        destruct sc as [id label [body|]]; [|apply IH].
        keep IHe IHs IHc. apply IH. }
      destruct s; simpl;
        try (unfold preorder_AssignmentStatement, preorder_ReturnStatement,
               preorder_ExitStatement, preorder_MethodCallStatement,
               preorder_BlockStatement, preorder_IfStatement,
               preorder_SwitchStatement, setCurrent;
             keep IHe IHs IHc; apply Hcases).
      intros s0 x s' [Hc Hv] Hrun. unfold preorder_Function in Hrun.
      apply bind_Ok_inv in Hrun. destruct Hrun as [iv [s1 [Hg Hrun]]].
      inversion Hg; subst iv s1. rewrite Hv in Hrun.
      apply bind_Ok_inv in Hrun. destruct Hrun as [[] [s2 [Hw Hrun]]].
      inversion Hw; subst s2.
      match type of Hrun with
      | ?rest s0 = _ => assert (Hrest : preserves P rest)
      end.
      { unfold getCurrentDefinitions. keep IHe IHs IHc. }
      exact (Hrest s0 x s' (conj Hc Hv) Hrun).
    + intros ctx sc.
      change (preserves P (visit_SwitchCase W (visit W fuel) ctx sc)).
      unfold visit_SwitchCase. destruct sc. keep IHe IHs IHc.
Qed.

(** Where a statement leaves the context and the current point. *)
Lemma statement_keeps_point (W : World) (fuel : nat) (ctx : list Node)
  (s : Statement) (st st' : FindUninitialized W) :
  virtualMethod W st = false ->
  visit W fuel ctx (NodeStatement s) st = Ok (tt, st') ->
  context W st' = context W st
  /\ virtualMethod W st' = false
  /\ currentPoint W st' =
     match s with
     | EmptyStatement _ _ => currentPoint W st
     | Function _ _ _ _ _ =>
         after (ProgramPoint_in (context W st) (NodeStatement s))
     | _ => ProgramPoint_in (context W st) (NodeStatement s)
     end.
Proof.
  intros Hvm Hrun.
  destruct fuel as [|fuel]; [discriminate Hrun|].
  destruct (inner_visit_context W (context W st) (S fuel)) as [_ [Hs _]].
  destruct (Hs ctx s st tt st' (conj eq_refl Hvm) Hrun) as [Hc Hv].
  split; [exact Hc|]. split; [exact Hv|].
  destruct (inner_visit_context W (context W st) fuel) as [IHe [IHs IHc]].
  set (P := fun s0 : FindUninitialized W =>
              context W s0 = context W st /\ virtualMethod W s0 = false).
  change (visit_Statement W (visit W fuel) ctx s st = Ok (tt, st')) in Hrun.
  assert (Hset : forall stmt,
            hoare P (setCurrent W stmt)
              (fun _ s0 =>
                 currentPoint W s0 =
                 ProgramPoint_in (context W st) (NodeStatement stmt))).
  { intros stmt s0 x s1 [Hc0 _] H. inversion H. simpl. rewrite Hc0.
    reflexivity. }
  assert (Hcases : forall self saveCurrent saveUnreachable cases fin,
            preserves P
              (switchCases W (visit W fuel) ctx self saveCurrent
                 saveUnreachable cases fin)).
  { intros self saveCurrent saveUnreachable cases.
    induction cases as [|sc cases IH]; intros fin; simpl; [apply pres_ret|].
    destruct sc as [id label [body|]]; [|apply IH].
    keep IHe IHs IHc. apply IH. }
  destruct s; simpl in Hrun; cbv beta iota;
    try (match goal with
         | Hr : ?c st = _
           |- currentPoint W st' =
              ProgramPoint_in _ (NodeStatement ?stmt) =>
             assert (Hpoint :
               hoare P c
                 (fun _ s0 =>
                    currentPoint W s0 =
                    ProgramPoint_in (context W st) (NodeStatement stmt)));
             [ unfold preorder_AssignmentStatement, preorder_ReturnStatement,
                 preorder_ExitStatement, preorder_MethodCallStatement,
                 preorder_BlockStatement, preorder_IfStatement,
                 preorder_SwitchStatement;
               repeat (apply hoare_after;
                       [solve [keep IHe IHs IHc; apply Hcases]|intros ?]);
               apply Hset
             | exact (Hpoint st tt st' (conj eq_refl Hvm) Hr) ]
         end).
  - inversion Hrun. reflexivity.
  - unfold preorder_Function in Hrun.
    apply bind_Ok_inv in Hrun. destruct Hrun as [iv [s1 [Hg Hrun]]].
    inversion Hg; subst iv s1. rewrite Hvm in Hrun.
    apply bind_Ok_inv in Hrun. destruct Hrun as [[] [s2 [Hw Hrun]]].
    inversion Hw; subst s2.
    apply bind_Ok_inv in Hrun. destruct Hrun as [cx [s3 [Hg' Hrun]]].
    inversion Hg'; subst cx s3.
    do 3 (apply bind_Ok_inv in Hrun; destruct Hrun as [? [? [_ Hrun]]]).
    apply bind_Ok_inv in Hrun. destruct Hrun as [[] [s7 [Hm Hrun]]].
    inversion Hm; subst s7.
    apply bind_Ok_inv in Hrun. destruct Hrun as [defs [s8 [Hd Hrun]]].
    inversion Hd; subst defs s8.
    rewrite checkOutParameters_unfold in Hrun. inversion Hrun. reflexivity.
Qed.

(** X13.  Outside a virtual method, the visit of a statement returns in the
    context it was begun in, and with the current point at the statement in
    that context: whatever was visited below, the definitions asked for
    next are those after this statement.  An empty statement leaves the
    current point alone; a function declaration leaves it after the
    function. *)
Theorem visit_Statement_point (W : World) (fuel : nat) (ctx : list Node)
  (s : Statement) (st st' : FindUninitialized W) :
  virtualMethod W st = false ->
  visit W fuel ctx (NodeStatement s) st = Ok (tt, st') ->
  context W st' = context W st
  /\ virtualMethod W st' = false
  /\ currentPoint W st' =
     match s with
     | EmptyStatement _ _ => currentPoint W st
     | Function _ _ _ _ _ =>
         after (ProgramPoint_in (context W st) (NodeStatement s))
     | _ => ProgramPoint_in (context W st) (NodeStatement s)
     end.
Proof.
  exact (statement_keeps_point W fuel ctx s st st').
Qed.

(** The body of the control of the example, visited from the start. *)
Lemma visit_Statement_point_witness :
  visit TableApplyExample.W 12 [] (NodeStatement TableApplyExample.body)
    TableApplyExample.st = Ok (tt, TableApplyExample.after_body)
  /\ context TableApplyExample.W TableApplyExample.after_body = beforeStart
  /\ virtualMethod TableApplyExample.W TableApplyExample.after_body = false
  /\ currentPoint TableApplyExample.W TableApplyExample.after_body
     = [Some (NodeStatement TableApplyExample.body)].
Proof.
  assert (Hrun :
    visit TableApplyExample.W 12 [] (NodeStatement TableApplyExample.body)
      TableApplyExample.st = Ok (tt, TableApplyExample.after_body))
    by (vm_compute; reflexivity).
  split; [exact Hrun|].
  exact (visit_Statement_point TableApplyExample.W 12 []
           TableApplyExample.body TableApplyExample.st
           TableApplyExample.after_body eq_refl Hrun).
Defined.

(** ** The out parameters of controls and actions *)

(** The virtual methods visited, the context is the one saved and the
    visitor is outside a virtual method again. *)
Lemma visitVirtualMethods_restores (W : World) (v : Visit W)
  (ctx : list Node) (self : Node) (locals : list Declaration)
  (st st' : FindUninitialized W) :
  virtualMethod W st = false ->
  visitVirtualMethods W v ctx self locals st = Ok (tt, st') ->
  context W st' = context W st /\ virtualMethod W st' = false.
Proof.
  intros Hvm Hrun.
  assert (Hkeep : forall ls s0 s1,
            virtualMethod W s0 = false ->
            forM_ ls (fun l =>
              match l with
              | Declaration_Instance _ _ (Some initializer) =>
                  bind (modify (set_virtualMethod W true)) (fun _ =>
                  bind (v (self :: ctx) (NodeStatement initializer)) (fun _ =>
                  modify (set_virtualMethod W false)))
              | _ => ret tt
              end) s0 = Ok (tt, s1) ->
            virtualMethod W s1 = false).
  { induction ls as [|l ls IH]; intros s0 s1 Hv0 Hloop.
    - inversion Hloop; subst. exact Hv0.
    - simpl in Hloop. apply bind_Ok_inv in Hloop.
      destruct Hloop as [[] [s2 [Hl Hrest]]]. apply (IH s2 s1); [|exact Hrest].
      destruct l as [id name [initializer|]| | |];
        try (inversion Hl; subst; exact Hv0).
      do 2 (apply bind_Ok_inv in Hl; destruct Hl as [? [? [_ Hl]]]).
      inversion Hl. reflexivity. }
  unfold visitVirtualMethods in Hrun.
  apply bind_Ok_inv in Hrun. destruct Hrun as [cx [s0 [Hg Hrun]]].
  inversion Hg; subst cx s0.
  apply bind_Ok_inv in Hrun. destruct Hrun as [[] [s1 [Hloop Hset]]].
  inversion Hset. split; [reflexivity|]. simpl.
  exact (Hkeep locals st s1 Hvm Hloop).
Qed.

(** X16.  The out parameters of a control are checked against the
    definitions at the point of its body in the empty context, whatever the
    body and the virtual methods visited: the visit of a control fails
    unless its context is before start, and the visits below leave the
    context alone and the current point at the body. *)
Theorem Control_out_parameters (W : World) (fuel : nat) (ctx : list Node)
  (control : P4Control) (st st' : FindUninitialized W) :
  virtualMethod W st = false ->
  match control_body control with
  | EmptyStatement _ _ | Function _ _ _ _ _ => False
  | _ => True
  end ->
  visit W (S fuel) ctx (NodeP4Control control) st = Ok (tt, st') ->
  context W st = beforeStart
  /\ exists st1,
       Control_visit_body W (visit W fuel) ctx control st = Ok (tt, st1)
       /\ currentPoint W st1
          = ProgramPoint_of (NodeStatement (control_body control))
       /\ checkOutParameters W (control_name control)
            (control_applyParameters control)
            (getDefinitions W
               (ProgramPoint_of (NodeStatement (control_body control))))
            st1 = Ok (tt, st').
Proof.
  intros Hvm Hbody Hrun.
  change (preorder_P4Control W (visit W fuel) ctx control st = Ok (tt, st'))
    in Hrun.
  unfold preorder_P4Control in Hrun.
  apply bind_Ok_inv in Hrun. destruct Hrun as [cx [s0 [Hg Hrun]]].
  inversion Hg; subst cx s0.
  destruct (context W st) as [|x cx] eqn:Hctx; [|discriminate Hrun].
  split; [reflexivity|]. simpl in Hrun.
  apply bind_Ok_inv in Hrun. destruct Hrun as [[] [s1 [H1 Hrun]]].
  apply bind_Ok_inv in Hrun. destruct Hrun as [[] [s2 [H2 Hrun]]].
  apply bind_Ok_inv in Hrun. destruct Hrun as [[] [s3 [H3 Hrun]]].
  apply bind_Ok_inv in Hrun. destruct Hrun as [[] [s4 [H4 Hrun]]].
  apply bind_Ok_inv in Hrun. destruct Hrun as [defs [s5 [H5 Hrun]]].
  inversion H5; subst defs s5. inversion H1; subst s1. inversion H3; subst s3.
  destruct (visitVirtualMethods_restores W (visit W fuel) ctx
              (NodeP4Control control) (controlLocals control)
              (set_currentPoint W (ProgramPoint_of (NodeP4Control control)) st)
              s2 Hvm H2)
    as [Hc2 Hv2].
  destruct (statement_keeps_point W fuel (NodeP4Control control :: ctx)
              (control_body control) (set_unreachable W false s2) s4 Hv2 H4)
    as [Hc4 [Hv4 Hp4]].
  assert (Hpoint : currentPoint W s4
                   = ProgramPoint_of (NodeStatement (control_body control))).
  { rewrite Hp4. simpl context. rewrite Hc2. simpl. rewrite Hctx.
    destruct (control_body control); try destruct Hbody; reflexivity. }
  exists s4. split; [|split; [exact Hpoint|]].
  - unfold Control_visit_body. unfold bind at 1. unfold modify at 1.
    unfold bind at 1. rewrite H2. unfold bind at 1. unfold modify at 1.
    exact H4.
  - rewrite <- Hpoint. exact Hrun.
Qed.

(** The control of the example: [r] is checked at the point of the body. *)
Lemma Control_out_parameters_witness :
  context TableApplyExample.W TableApplyExample.st = beforeStart
  /\ exists st1,
       Control_visit_body TableApplyExample.W (visit TableApplyExample.W 12)
         [] ControlExample.c TableApplyExample.st = Ok (tt, st1)
       /\ currentPoint TableApplyExample.W st1
          = [Some (NodeStatement TableApplyExample.body)]
       /\ checkOutParameters TableApplyExample.W "c" [ControlExample.r]
            (getDefinitions TableApplyExample.W
               [Some (NodeStatement TableApplyExample.body)]) st1
          = Ok (tt, ControlExample.after_control).
Proof.
  assert (Hrun :
    visit TableApplyExample.W 13 [] (NodeP4Control ControlExample.c)
      TableApplyExample.st = Ok (tt, ControlExample.after_control))
    by (vm_compute; reflexivity).
  exact (Control_out_parameters TableApplyExample.W 12 [] ControlExample.c
           TableApplyExample.st ControlExample.after_control eq_refl I Hrun).
Defined.

(** X17.  The out parameters of an action are checked against the
    definitions at the point of its body in the context of the call, which
    the visit of the body has left as it was: an action analysed from a call
    site is judged by what reaches the end of its body on that call. *)
Theorem Action_out_parameters (W : World) (fuel : nat) (ctx : list Node)
  (action : P4Action) (st st' : FindUninitialized W) :
  virtualMethod W st = false ->
  match action_body action with
  | EmptyStatement _ _ | Function _ _ _ _ _ => False
  | _ => True
  end ->
  visit W (S fuel) ctx (NodeP4Action action) st = Ok (tt, st') ->
  exists st1,
    Action_visit_body W (visit W fuel) ctx action st = Ok (tt, st1)
    /\ context W st1 = context W st
    /\ currentPoint W st1
       = ProgramPoint_in (context W st) (NodeStatement (action_body action))
    /\ checkOutParameters W (action_name action) (action_parameters action)
         (getDefinitions W
            (ProgramPoint_in (context W st)
               (NodeStatement (action_body action))))
         st1 = Ok (tt, st').
Proof.
  intros Hvm Hbody Hrun.
  change (preorder_P4Action W (visit W fuel) ctx action st = Ok (tt, st'))
    in Hrun.
  unfold preorder_P4Action in Hrun.
  destruct (findContext_P4Program ctx); [discriminate Hrun|].
  apply bind_Ok_inv in Hrun. destruct Hrun as [[] [s1 [H1 Hrun]]].
  inversion H1; subst s1.
  apply bind_Ok_inv in Hrun. destruct Hrun as [cx [s2 [H2 Hrun]]].
  inversion H2; subst cx s2.
  apply bind_Ok_inv in Hrun. destruct Hrun as [[] [s3 [H3 Hrun]]].
  inversion H3; subst s3.
  apply bind_Ok_inv in Hrun. destruct Hrun as [[] [s4 [H4 Hrun]]].
  apply bind_Ok_inv in Hrun. destruct Hrun as [defs [s5 [H5 Hrun]]].
  inversion H5; subst defs s5.
  destruct (statement_keeps_point W fuel (NodeP4Action action :: ctx)
              (action_body action)
              (set_currentPoint W
                 (ProgramPoint_in (context W st) (NodeP4Action action))
                 (set_unreachable W false st)) s4 Hvm H4)
    as [Hc4 [Hv4 Hp4]].
  assert (Hpoint : currentPoint W s4
                   = ProgramPoint_in (context W st)
                       (NodeStatement (action_body action))).
  { rewrite Hp4.
    destruct (action_body action); try destruct Hbody; reflexivity. }
  exists s4. split; [|split; [exact Hc4|split; [exact Hpoint|]]].
  - unfold Action_visit_body. unfold bind at 1. unfold modify at 1.
    unfold bind at 1. unfold gets at 1. unfold bind at 1.
    unfold modify at 1. exact H4.
  - rewrite <- Hpoint. exact Hrun.
Qed.

(** Called from [site], the action [b] writes [o] before its body ends: no
    warning, and the write is used. *)
Lemma Action_out_parameters_witness :
  (exists st1,
     Action_visit_body ControlExample.W (visit ControlExample.W 12) []
       ControlExample.b ControlExample.st = Ok (tt, st1)
     /\ context ControlExample.W st1 = ControlExample.site
     /\ currentPoint ControlExample.W st1
        = ControlExample.site ++ [Some (NodeStatement ControlExample.b_body)]
     /\ checkOutParameters ControlExample.W "b" [ControlExample.o]
          (getDefinitions ControlExample.W
             (ControlExample.site
              ++ [Some (NodeStatement ControlExample.b_body)])) st1
        = Ok (tt, ControlExample.after_b))
  /\ diagnostics ControlExample.W ControlExample.after_b = []
  /\ HasUsesOps.hasUses
       (hasUses ControlExample.W ControlExample.after_b) 95 = true.
Proof.
  assert (Hrun :
    visit ControlExample.W 13 [] (NodeP4Action ControlExample.b)
      ControlExample.st = Ok (tt, ControlExample.after_b))
    by (vm_compute; reflexivity).
  split; [|split; vm_compute; reflexivity].
  exact (Action_out_parameters ControlExample.W 12 [] ControlExample.b
           ControlExample.st ControlExample.after_b eq_refl I Hrun).
Defined.

(** ** Assignments to a variable *)

(** X15.  In an assignment whose left-hand side is a path, the left-hand
    side is no use of anything: the visit of the statement is the visit of
    its right-hand side, begun with the empty read set on record for the
    path, followed by the move of the current point.  Every use and every
    diagnostic of the statement comes from the right-hand side. *)
Theorem Assignment_to_path (W : World) (fuel : nat) (ctx : list Node)
  (id : NodeId) (si : SourceInfo) (pid : NodeId) (x : string)
  (rhs : Expression) (st st' : FindUninitialized W) :
  let stmt := AssignmentStatement id si (PathExpression pid x) rhs in
  unreachable W st = false ->
  visit W (S (S fuel)) ctx (NodeStatement stmt) st = Ok (tt, st') ->
  exists st1,
    visit W (S fuel) (NodeStatement stmt :: ctx) (NodeExpression rhs)
      (set_lhs W false
         (set_readLocations W
            (<[pid := LocationSet_empty W]> (readLocations W st)) st))
    = Ok (tt, st1)
    /\ st' = set_currentPoint W
               (ProgramPoint_in (context W st1) (NodeStatement stmt)) st1.
Proof.
  intros stmt Hreach Hrun.
  change (preorder_AssignmentStatement W (visit W (S fuel)) ctx stmt
            (PathExpression pid x) rhs st = Ok (tt, st')) in Hrun.
  unfold preorder_AssignmentStatement in Hrun.
  apply bind_Ok_inv in Hrun. destruct Hrun as [u [s0 [Hg Hrun]]].
  inversion Hg; subst u s0. rewrite Hreach in Hrun.
  apply bind_Ok_inv in Hrun. destruct Hrun as [[] [s1 [Hbody Hset]]].
  inversion Hset; subst st'. exists s1. split; [|reflexivity].
  change (negb false) with true in Hbody. unfold when in Hbody.
  apply bind_Ok_inv in Hbody. destruct Hbody as [[] [sA [HA Hbody]]].
  inversion HA; subst sA.
  apply bind_Ok_inv in Hbody. destruct Hbody as [[] [sB [HB Hbody]]].
  change (preorder_PathExpression W (NodeStatement stmt :: ctx)
            (PathExpression pid x) (set_lhs W true st) = Ok (tt, sB)) in HB.
  unfold preorder_PathExpression, bind, gets, reads in HB. simpl in HB.
  rewrite Hreach in HB. inversion HB; subst sB. clear HB.
  apply bind_Ok_inv in Hbody. destruct Hbody as [loc [sC [HC Hbody]]].
  apply checkHeaderFieldWrite_unchanged in HC.
  - subst sC.
    apply bind_Ok_inv in Hbody. destruct Hbody as [[] [sD [HD Hbody]]].
    inversion HD; subst sD. exact Hbody.
  - intros p [<-|[]] _. unfold same_expr. apply Nat.eqb_refl.
Qed.

(** [y = z;]: the writer of [z] is the one use, and comes from the visit of
    [z] alone. *)
Lemma Assignment_to_path_witness :
  exists st1,
    visit TableApplyExample.W 3 [NodeStatement TableApplyExample.copy]
      (NodeExpression (PathExpression 37 "z"))
      (set_lhs TableApplyExample.W false
         (set_readLocations TableApplyExample.W
            (<[36 := []]> (readLocations TableApplyExample.W
                             TableApplyExample.st))
            TableApplyExample.st)) = Ok (tt, st1)
    /\ map (HasUsesOps.hasUses (hasUses TableApplyExample.W st1)) [90; 35]
       = [true; false].
Proof.
  destruct (visit TableApplyExample.W 4 []
              (NodeStatement TableApplyExample.copy) TableApplyExample.st)
    as [[[] st']| |] eqn:Hrun;
    [|vm_compute in Hrun; discriminate Hrun
     |vm_compute in Hrun; discriminate Hrun].
  destruct (Assignment_to_path TableApplyExample.W 2 [] 35 NoSourceInfo 36
              "y" (PathExpression 37 "z") TableApplyExample.st st'
              eq_refl Hrun) as [st1 [Hrhs _]].
  exists st1. split; [exact Hrhs|].
  vm_compute in Hrhs. inversion Hrhs. vm_compute. reflexivity.
Defined.

(** ** Operations on a left-hand side *)

(** X18.  An operation (a mux, a unary or a binary operation) visited as a
    left-hand side is an internal error: once its operands have been
    visited, which leaves [lhs] set, [otherExpression] fails. *)
Theorem operation_on_lhs_fails (W : World) (fuel : nat) (ctx : list Node)
  (e : Expression) (st s1 : FindUninitialized W) :
  isOperation e = true ->
  lhs W st = true ->
  visit_children W (visit W fuel) ctx (NodeExpression e) (operands e) st
  = Ok (tt, s1) ->
  visit W (S fuel) ctx (NodeExpression e) st
  = Bug "%1%: unexpected operation on LHS".
Proof.
  intros Hop Hlhs Hchildren.
  assert (Hl1 : lhs W s1 = true).
  { refine (pres_forM_ W (fun s => lhs W s = true) _ (operands e) _ _
              st tt s1 Hlhs Hchildren).
    intros c. apply visit_Expression_lhs. }
  assert (Hrun : visit_operation W (visit W fuel) ctx e (operands e) st
                 = Bug "%1%: unexpected operation on LHS").
  { unfold visit_operation. unfold bind at 1. rewrite Hchildren.
    unfold otherExpression, bind, gets. rewrite Hl1. reflexivity. }
  destruct e; try discriminate Hop; exact Hrun.
Qed.

(** [(x + 1) = ...] on the example of the assignment to [y]. *)
Lemma operation_on_lhs_fails_witness :
  visit TableApplyExample.W 3 []
    (NodeExpression
       (Operation_Binary 38 (PathExpression 37 "z") (Constant 39 1)))
    (set_lhs TableApplyExample.W true TableApplyExample.st)
  = Bug "%1%: unexpected operation on LHS".
Proof.
  destruct (visit_children TableApplyExample.W (visit TableApplyExample.W 2)
              []
              (NodeExpression
                 (Operation_Binary 38 (PathExpression 37 "z") (Constant 39 1)))
              [PathExpression 37 "z"; Constant 39 1]
              (set_lhs TableApplyExample.W true TableApplyExample.st))
    as [[[] s1]| |] eqn:Hchildren;
    [|vm_compute in Hchildren; discriminate Hchildren
     |vm_compute in Hchildren; discriminate Hchildren].
  exact (operation_on_lhs_fails TableApplyExample.W 2 []
           (Operation_Binary 38 (PathExpression 37 "z") (Constant 39 1))
           (set_lhs TableApplyExample.W true TableApplyExample.st) s1
           eq_refl eq_refl Hchildren).
Defined.

(** ** Out arguments *)

(** X19.  An argument passed for an out parameter is no use: when a call has
    no callee to analyse and all its parameters are out parameters with
    paths for arguments, its effect is to record empty read sets, for the
    arguments and for the call.  The call returns, [lhs] is as before, and
    no use and no diagnostic is added, wherever the arguments were
    written. *)
Theorem out_arguments_are_no_use (W : World) (fuel : nat) (ctx : list Node)
  (e : Expression) (mi : MethodInstance) (st : FindUninitialized W) :
  unreachable W st = false ->
  callees mi = [] ->
  Forall (fun pe => direction (fst pe) = DirOut
                    /\ exists id x, snd pe = PathExpression id x)
    (substitution mi) ->
  exists rl,
    callEffect W (visit W (S fuel)) ctx e mi st
    = Ok (tt, set_readLocations W rl st)
    /\ rl !! expr_id e = Some (LocationSet_empty W).
Proof.
  intros Hreach Hcallees Hargs. unfold callEffect. rewrite Hcallees.
  cbv beta iota zeta.
  assert (Hin : forall pes s,
    Forall (fun pe => direction (fst pe) = DirOut
                      /\ exists id x, snd pe = PathExpression id x) pes ->
    forM_ pes (fun pe =>
      when (negb (match direction (fst pe) with
                  | DirOut => true
                  | _ => false
                  end))
        (visit W (S fuel) (NodeExpression e :: ctx)
           (NodeExpression (snd pe)))) s = Ok (tt, s)).
  { intros pes s Hpes. induction Hpes as [|pe pes [Hd _] _ IH];
      [reflexivity|].
    cbn [forM_]. unfold bind at 1. rewrite Hd. simpl. exact IH. }
  assert (Hout : forall pes,
    Forall (fun pe => direction (fst pe) = DirOut
                      /\ exists id x, snd pe = PathExpression id x) pes ->
    forall rl0, exists rl,
      forM_ pes (fun pe =>
        when (isOutOrInOut (direction (fst pe)))
          (bind (gets (lhs W)) (fun save =>
           bind (modify (set_lhs W true)) (fun _ =>
           bind (visit W (S fuel) (NodeExpression e :: ctx)
                   (NodeExpression (snd pe))) (fun _ =>
           modify (set_lhs W save))))))
        (set_readLocations W rl0 st)
      = Ok (tt, set_readLocations W rl st)).
  { intros pes Hpes.
    induction Hpes as [|pe pes [Hd [id [x Hx]]] _ IH]; intros rl0.
    - exists rl0. reflexivity.
    - destruct (IH (<[id := LocationSet_empty W]> rl0)) as [rl Hrl].
      exists rl. cbn [forM_]. unfold bind at 1. rewrite Hd, Hx.
      cbn [isOutOrInOut when].
      assert (Hstep :
        bind (gets (lhs W)) (fun save =>
        bind (modify (set_lhs W true)) (fun _ =>
        bind (visit W (S fuel) (NodeExpression e :: ctx)
                (NodeExpression (PathExpression id x))) (fun _ =>
        modify (set_lhs W save)))) (set_readLocations W rl0 st)
        = Ok (tt, set_readLocations W (<[id := LocationSet_empty W]> rl0) st)).
      { change (visit W (S fuel) (NodeExpression e :: ctx)
                  (NodeExpression (PathExpression id x)))
          with (preorder_PathExpression W (NodeExpression e :: ctx)
                  (PathExpression id x)).
        unfold preorder_PathExpression, bind, gets, modify, reads. simpl.
        rewrite Hreach. destruct st. reflexivity. }
      rewrite Hstep. exact Hrl. }
  destruct (Hout _ Hargs (readLocations W st)) as [rl Hrl].
  exists (<[expr_id e := LocationSet_empty W]> rl).
  split; [|apply lookup_insert_eq].
  unfold bind at 1. rewrite (Hin _ _ Hargs). unfold bind at 1.
  unfold when at 1. change (negb true) with false. cbv beta iota.
  unfold ret at 1. unfold bind at 1.
  replace (set_readLocations W (readLocations W st) st) with st in Hrl
    by (destruct st; reflexivity).
  rewrite Hrl. unfold reads. simpl. rewrite Hreach. reflexivity.
Qed.

(** [f(x)] with [x] never written: no warning, no use. *)
Lemma out_arguments_are_no_use_witness :
  (exists rl,
     callEffect UnknownIndexExample.W (visit UnknownIndexExample.W 3) []
       UnknownIndexExample.call
       (UnknownIndexExample.res UnknownIndexExample.call)
       UnknownIndexExample.st
     = Ok (tt, set_readLocations UnknownIndexExample.W rl
                 UnknownIndexExample.st)
     /\ rl !! 21 = Some [])
  /\ (exists st',
        visit UnknownIndexExample.W 4 []
          (NodeExpression (PathExpression 23 "x")) UnknownIndexExample.st
        = Ok (tt, st')
        /\ List.length (diagnostics UnknownIndexExample.W st') = 1).
Proof.
  split.
  - apply (out_arguments_are_no_use UnknownIndexExample.W 2 []
             UnknownIndexExample.call
             (UnknownIndexExample.res UnknownIndexExample.call)
             UnknownIndexExample.st); [reflexivity|reflexivity|].
    repeat constructor. exists 23, "x". reflexivity.
  - eexists. split; vm_compute; reflexivity.
Defined.

(** ** Writes at an unknown index *)

(** X20.  An element of [a] at an index that is not a constant: the index is
    visited as a read even on a left-hand side, the path [a] registers
    nothing itself, and the whole storage of [a] is recorded as read by the
    element, with [lhs] as it was on entry when the uses are registered.
    So a write [a[i] = ...] is a use of every earlier write to [a], and is
    never reported as a read of something uninitialized. *)
Theorem ArrayIndex_unknown_index (W : World) (fuel : nat) (ctx : list Node)
  (id aid : NodeId) (a : string) (idx : Expression) (decl : NodeId)
  (storage : StorageLocation W) (st st' : FindUninitialized W) :
  let e := ArrayIndex id (PathExpression aid a) idx in
  match idx with Constant _ _ => False | _ => True end ->
  getDeclaration W aid = Some decl ->
  getStorage W decl = Some storage ->
  visit W (S (S fuel)) ctx (NodeExpression e) st = Ok (tt, st') ->
  exists s1,
    visit W (S fuel) (NodeExpression e :: ctx) (NodeExpression idx)
      (set_lhs W false st) = Ok (tt, s1)
    /\ registerUses W ctx e true
         (set_readLocations W
            (<[id := LocationSet_of W storage]>
               (<[aid := LocationSet_of W storage]> (readLocations W s1)))
            (set_lhs W (lhs W st) s1)) = Ok (tt, st')
    /\ (lhs W st = true -> diagnostics W st' = diagnostics W s1).
Proof.
  intros e Hidx Hdecl Hstorage Hrun.
  change (preorder_ArrayIndex W (visit W (S fuel)) ctx e
            (PathExpression aid a) idx st = Ok (tt, st')) in Hrun.
  unfold preorder_ArrayIndex in Hrun.
  apply bind_Ok_inv in Hrun. destruct Hrun as [[] [s4 [Hbody Hreg]]].
  assert (Hvar :
    bind (gets (lhs W)) (fun save =>
    bind (modify (set_lhs W false)) (fun _ =>
    bind (visit W (S fuel) (NodeExpression e :: ctx) (NodeExpression idx))
      (fun _ =>
    bind (visit W (S fuel) (NodeExpression e :: ctx)
            (NodeExpression (PathExpression aid a))) (fun _ =>
    bind (getReadsNonNull W (PathExpression aid a)) (fun storage0 =>
    bind (modify (set_lhs W save)) (fun _ =>
    reads W e storage0)))))) st = Ok (tt, s4)).
  { destruct idx; try destruct Hidx; exact Hbody. }
  clear Hbody.
  apply bind_Ok_inv in Hvar. destruct Hvar as [save [s0 [Hg Hvar]]].
  inversion Hg; subst save s0.
  apply bind_Ok_inv in Hvar. destruct Hvar as [[] [sA [HA Hvar]]].
  inversion HA; subst sA.
  apply bind_Ok_inv in Hvar. destruct Hvar as [[] [s1 [Hindex Hvar]]].
  assert (Hl1 : lhs W s1 = false).
  { exact (visit_Expression_lhs W false (S fuel) _ _ (set_lhs W false st) tt
             s1 eq_refl Hindex). }
  apply bind_Ok_inv in Hvar. destruct Hvar as [[] [s2 [Hleft Hvar]]].
  change (preorder_PathExpression W (NodeExpression e :: ctx)
            (PathExpression aid a) s1 = Ok (tt, s2)) in Hleft.
  unfold preorder_PathExpression in Hleft.
  unfold bind at 1 in Hleft. unfold gets at 1 in Hleft.
  rewrite Hl1 in Hleft. cbn [expr_id] in Hleft.
  rewrite Hdecl, Hstorage in Hleft.
  apply bind_Ok_inv in Hleft. destruct Hleft as [[] [sB [Hreads Hfinal]]].
  unfold reads in Hreads.
  destruct (unreachable W s1) eqn:Hu1; [discriminate Hreads|].
  inversion Hreads; subst sB. clear Hreads.
  unfold registerUses, e in Hfinal. cbn [isFinalRead] in Hfinal.
  unfold same_expr in Hfinal. simpl expr_id in Hfinal.
  rewrite Nat.eqb_refl in Hfinal. inversion Hfinal; subst s2. clear Hfinal.
  apply bind_Ok_inv in Hvar. destruct Hvar as [storage0 [s3 [Hget Hvar]]].
  unfold getReadsNonNull, bind, getReads in Hget. simpl in Hget.
  rewrite lookup_insert_eq in Hget. inversion Hget; subst storage0 s3.
  clear Hget.
  apply bind_Ok_inv in Hvar. destruct Hvar as [[] [s5 [Hm Hvar]]].
  inversion Hm; subst s5. clear Hm.
  unfold reads in Hvar. simpl in Hvar. rewrite Hu1 in Hvar.
  inversion Hvar; subst s4. clear Hvar.
  exists s1. split; [exact Hindex|]. split; [exact Hreg|].
  intros Hlhs. rewrite registerUses_unfold in Hreg. simpl in Hreg.
  rewrite Hlhs in Hreg. simpl in Hreg.
  repeat match type of Hreg with
         | (if ?b then _ else _) = _ => destruct b
         | match ?x with _ => _ end = _ => destruct x
         end;
    inversion Hreg; reflexivity.
Qed.

(** [a[i] = 1;]: the writers of [i] and of [a] are used, and nothing is
    reported although [a] may be uninitialized; read on a right-hand side,
    [a[i]] is reported. *)
Lemma ArrayIndex_unknown_index_witness :
  (exists st',
     visit UnknownIndexExample.W 4 [NodeStatement UnknownIndexExample.write]
       (NodeExpression UnknownIndexExample.target)
       (set_lhs UnknownIndexExample.W true UnknownIndexExample.st)
     = Ok (tt, st')
     /\ diagnostics UnknownIndexExample.W st' = []
     /\ map (HasUsesOps.hasUses (hasUses UnknownIndexExample.W st')) [96; 97]
        = [true; true])
  /\ (exists st',
        visit UnknownIndexExample.W 4 []
          (NodeExpression UnknownIndexExample.target) UnknownIndexExample.st
        = Ok (tt, st')
        /\ List.length (diagnostics UnknownIndexExample.W st') = 1).
Proof.
  split.
  - destruct (visit UnknownIndexExample.W 4
                [NodeStatement UnknownIndexExample.write]
                (NodeExpression UnknownIndexExample.target)
                (set_lhs UnknownIndexExample.W true UnknownIndexExample.st))
      as [[[] st']| |] eqn:Hrun;
      [|vm_compute in Hrun; discriminate Hrun
       |vm_compute in Hrun; discriminate Hrun].
    exists st'. split; [reflexivity|].
    destruct (ArrayIndex_unknown_index UnknownIndexExample.W 2
                [NodeStatement UnknownIndexExample.write] 12 13 "a"
                (PathExpression 14 "i") 113
                ("a", Type_Stack (Type_Bits 8 false) 4)
                (set_lhs UnknownIndexExample.W true UnknownIndexExample.st)
                st' I eq_refl eq_refl Hrun) as [s1 [Hindex [_ Hdiag]]].
    split.
    + rewrite (Hdiag eq_refl). vm_compute in Hindex. inversion Hindex.
      reflexivity.
    + vm_compute in Hrun. inversion Hrun. vm_compute. reflexivity.
  - eexists. split; vm_compute; reflexivity.
Defined.

(** * Covering slice writes

    While the tracker watches the slice on the left of an assignment, the
    visit of an expression without slice and without call registers every
    use through the filter. *)

Section SliceFilter.

Variable W : World.
Variables (id1 sid1 : NodeId) (si1 : SourceInfo) (e1 rhs1 : Expression).
Variables (h1 l1 h l : N) (slice : NodeId) (base : Expression).

Hypothesis Hh : (h1 <= h)%N.
Hypothesis Hl : (l <= l1)%N.
Hypothesis Hident :
  forall pt loc e n,
    In e (getPoints W (getDefinitions W pt) loc) ->
    pp_last e = Some n -> node_id n = id1 ->
    n = NodeStatement (AssignmentStatement id1 si1 (Slice sid1 e1 h1 l1) rhs1).






End SliceFilter.





